(** * The list canvas editor (enthought/traits/ui/wx/extra/list_canvas_editor.py)

    A shallow embedding of the geometric core of the list canvas (snapping,
    guide lines, resize-mode decoding, activation, item replacement, initial
    placement, painting decisions) and of the adapter's cached attribute
    resolution, followed by the properties proved about them.

    Conventions.
    - Python integers are [Z]; [/] on integers is the floor division of
      Python 2, which is [Z.div].
    - Objects that the code compares with [is] are references ([nat]); the
      list canvas items live in a store indexed by their reference, so that
      the aliases [items], [active_item] and [_drag_item] see one object.
    - A dict whose values are all [None] and that is only used through its
      keys is a [gset Z]; the order in which [keys()] enumerates it is not
      fixed by the language, so it is a parameter ([DictOrder]).
    - Code that can raise returns in [res]. *)

From Stdlib Require Import ZArith Lia.
From stdpp Require Import base tactics option list numbers gmap sets strings functions.

Local Open Scope Z_scope.

(** ** Python values and helpers *)

Module Py.

Inductive exn : Type :=
  | ZeroDivisionError
  | TypeError
  | AttributeError
  | ValueError.

Inductive res (A : Type) : Type :=
  | Ok (a : A)
  | Raise (e : exn).
Arguments Ok {A} a.
Arguments Raise {A} e.

Definition bind {A B : Type} (m : res A) (k : A -> res B) : res B :=
  match m with
  | Ok a => k a
  | Raise e => Raise e
  end.

#[global] Instance res_ret : MRet res := fun A a => Ok a.
#[global] Instance res_bind : MBind res := fun A B k m => bind m k.

(** [a / b] on Python 2 integers. *)
Definition floordiv (a b : Z) : res Z :=
  if decide (b = 0) then Raise ZeroDivisionError else Ok (Z.div a b).

(** [a % b] on Python integers. *)
Definition floormod (a b : Z) : res Z :=
  if decide (b = 0) then Raise ZeroDivisionError else Ok (Z.modulo a b).

(** [abs( a )]. *)
Definition abs (a : Z) : Z := Z.abs a.

(** Unpacking [a, b = v] where [v] may be [None]. *)
Definition unpack {A : Type} (v : option A) : res A :=
  match v with
  | Some p => Ok p
  | None => Raise TypeError
  end.

(** A [for] loop whose body can raise. *)
Fixpoint foldM {A B : Type} (f : B -> A -> res B) (l : list A) (b : B) : res B :=
  match l with
  | [] => Ok b
  | a :: l' => b' ← f b a; foldM f l' b'
  end.

(** The position a slice bound or an [insert] index denotes in a list of
    length [len]: negative indices count from the end, and the result is
    clamped to [0 .. len]. *)
Definition norm_index (len i : Z) : nat :=
  Z.to_nat (Z.min len (Z.max 0 (if decide (i < 0) then i + len else i))).

Section lists.
Context {A : Type}.

Definition len (l : list A) : Z := Z.of_nat (length l).

(** [l[i:j]] *)
Definition slice (l : list A) (i j : Z) : list A :=
  let s := norm_index (len l) i in
  let e := norm_index (len l) j in
  take (e - s)%nat (drop s l).

(** [del l[i:j]] *)
Definition del_slice (l : list A) (i j : Z) : list A :=
  let s := norm_index (len l) i in
  let e := norm_index (len l) j in
  take s l ++ drop (Nat.max s e) l.

(** [l.insert( i, x )] *)
Definition insert (l : list A) (i : Z) (x : A) : list A :=
  let k := norm_index (len l) i in
  take k l ++ x :: drop k l.
End lists.

(** [range( start, stop, step )] for a positive [step]; Python raises
    [ValueError] for a zero step. *)
Definition range (start stop step : Z) : res (list Z) :=
  if decide (step = 0) then Raise ValueError
  else if decide (0 < step) then
    Ok ((fun k => start + Z.of_nat k * step) <$>
        seq 0 (Z.to_nat (Z.div (stop - start + step - 1) step)))
  else
    Ok ((fun k => start + Z.of_nat k * step) <$>
        seq 0 (Z.to_nat (Z.div (start - stop - step - 1) (- step)))).

(** The order in which [d.keys()] enumerates a dict used as a set. *)
Class DictOrder := {
  keys : gset Z -> list Z;
  keys_perm : forall s : gset Z, keys s ≡ₚ elements s
}.

(** Python floats, kept abstract: only the comparisons and conversions the
    placement code performs on them. *)
Class FloatOps := {
  float : Type;
  le_zero : float -> bool;            (* v <= 0.0 *)
  le_one : float -> bool;             (* v <= 1.0 *)
  gt_zero : float -> bool;            (* v > 0.0 *)
  int_scaled : float -> Z -> res Z;   (* int( v * n ) *)
  int_of : float -> res Z             (* int( v ) *)
}.

End Py.

Import Py.

(** ** The canvas and its items *)

Module Canvas.

(** References to the wrapped application objects and to the items. *)
Definition Obj := nat.
Definition item_ref := nat.

(** The part of a theme's image slice the hit test reads. *)
Record ImageSlice := {
  xleft : Z;
  xright : Z;
  xtop : Z;
  xbottom : Z
}.

Record Theme := {
  image_slice : ImageSlice;
  theme_name : string
}.

(** The geometry of a wx window: what [GetPositionTuple], [GetSizeTuple],
    [GetClientSizeTuple], [GetVirtualSize], [GetViewStart] and
    [GetScrollPixelsPerUnit] return, and what [SetDimensions] sets. *)
Record wxWindow := {
  wx_position : Z * Z;
  wx_size : Z * Z;
  wx_client_size : Z * Z;
  wx_virtual_size : Z * Z;
  wx_view_start : Z * Z;
  wx_pixels_per_unit : Z * Z
}.

Definition SetDimensions (w : wxWindow) (x y dx dy : Z) : wxWindow :=
  {| wx_position := (x, y);
     wx_size := (dx, dy);
     wx_client_size := wx_client_size w;
     wx_virtual_size := wx_virtual_size w;
     wx_view_start := wx_view_start w;
     wx_pixels_per_unit := wx_pixels_per_unit w |}.

Definition SetVirtualSize (w : wxWindow) (v : Z * Z) : wxWindow :=
  {| wx_position := wx_position w;
     wx_size := wx_size w;
     wx_client_size := wx_client_size w;
     wx_virtual_size := v;
     wx_view_start := wx_view_start w;
     wx_pixels_per_unit := wx_pixels_per_unit w |}.

(** class SnapInfo *)
Record SnapInfo := {
  distance : Z                       (* Range( 0, 10, 0 ) *)
}.

Inductive Visibility := never | always | drag.

#[global] Instance Visibility_eq_dec : EqDecision Visibility.
Proof. solve_decision. Defined.

(** class GuideInfo *)
Record GuideInfo := {
  guide_visible : Visibility;        (* Enum( 'never', 'always', 'drag' ) *)
  guide_snapping : bool              (* Bool( True ) *)
}.

(** class GridInfo *)
Record GridInfo := {
  grid_visible : Visibility;
  grid_snapping : bool;
  size : Z;                          (* Range( 5, 200, 50 ) *)
  offset : Z                         (* Range( 0, 200, 0 ) *)
}.

(** The mouse event state of an item and of the canvas. *)
Inductive ItemState := inactive | hover | active.

#[global] Instance ItemState_eq_dec : EqDecision ItemState.
Proof. solve_decision. Defined.

Inductive CanvasState := normal | dragging.

#[global] Instance CanvasState_eq_dec : EqDecision CanvasState.
Proof. solve_decision. Defined.

(** What the trait machinery does with an exception raised in a change
    handler such as [_state_changed]: it hands it to the exception handler
    in force, which either re-raises it or logs it, the assignment then
    being complete. *)
Class TraitNotification := {
  reraise_exceptions : bool
}.

Section model.
Context `{!DictOrder} `{!FloatOps} `{!TraitNotification}.

(** The adapter as the canvas code sees it: the answers of its [get_*]
    methods for an application object, a theme being always supplied.  The
    resolution behind them is the subject of module [Adapter] below. *)
Record AdapterView := {
  get_theme_active : Obj -> Theme;
  get_theme_inactive : Obj -> Theme;
  get_theme_hover : Obj -> Theme;
  get_can_resize : Obj -> bool;
  get_can_move : Obj -> bool;
  get_position : Obj -> float * float;
  get_size : Obj -> float * float
}.

(** class ListCanvasItem.  [control] is [None] before the control is
    created and after [dispose]; [ui] holds whether the Traits UI has been
    disposed. *)
Record UI := {
  ui_disposed : bool
}.

Record ListCanvasItem := {
  object : Obj;
  state : ItemState;
  theme : Theme;
  ui : option UI;
  control : option wxWindow;
  best_size : Z * Z
}.

(** class ListCanvas.  [lc_state] is the inherited [state] trait and
    [canvas] the wx window acting as the canvas. *)
Record ListCanvas := {
  scrollable : bool;
  items : list item_ref;
  active_item : option item_ref;
  adapter : AdapterView;
  snap_info : SnapInfo;
  guide_info : GuideInfo;
  grid_info : GridInfo;
  canvas : wxWindow;
  lc_state : CanvasState;
  _drag_item : option item_ref;
  _drag_info : option (Z * Z * Z * Z * Z * Z * Z);
  _drag_guides : option (gset Z * gset Z)
}.

(** What the code does to the outside, in order. *)
Inductive event :=
  | EvSetDeactivated (o : Obj)     (* adapter.set_deactivated( o ) *)
  | EvSetActivated (o : Obj)       (* adapter.set_activated( o ) *)
  | EvRaise (r : item_ref)         (* control.Raise() *)
  | EvUiDispose (r : item_ref)     (* ui.dispose() *)
  | EvDestroy (r : item_ref).      (* control.Destroy() *)

(** The canvas, the store of item objects and the trace of events. *)
Record World := {
  lc : ListCanvas;
  heap : item_ref -> ListCanvasItem;
  trace : list event
}.

(** *** Position and size *)

(** ListCanvasItem._get_position / _get_size *)
Definition item_position (it : ListCanvasItem) : res (Z * Z) :=
  match control it with
  | Some w => Ok (wx_position w)
  | None => Raise AttributeError
  end.

Definition item_size (it : ListCanvasItem) : res (Z * Z) :=
  match control it with
  | Some w => Ok (wx_size w)
  | None => Raise AttributeError
  end.

(** ListCanvas._get_position / _get_size *)
Definition canvas_position (c : ListCanvas) : Z * Z := wx_position (canvas c).
Definition canvas_size (c : ListCanvas) : Z * Z := wx_size (canvas c).

(** *** Snapping *)

(** The loop over the guide lines in [snap_x] and [snap_y]: [snap] and the
    delta are updated for every line within the current distance. *)
Definition snap_guides (t p : Z) (ks : list Z) (snap d : Z) : Z * Z :=
  foldl (fun (acc : Z * Z) (p0 : Z) =>
           let delta := abs (t - p0) in
           if decide (delta <= fst acc) then (delta, p0 - p) else acc)
        (snap, d) ks.

(** ListCanvas.snap_x *)
Definition snap_x (c : ListCanvas) (x dx : Z) : res Z :=
  let snap := distance (snap_info c) in
  if decide (snap = 0) then Ok dx
  else
    let xt := x + dx in
    let gi := grid_info c in
    let guide_lines (_ : unit) : res Z :=
      if guide_snapping (guide_info c) then
        g ← unpack (_drag_guides c);
        let xs := fst g in
        Ok (snd (snap_guides xt x (keys xs) snap dx))
      else Ok dx in
    if grid_snapping gi then
      n ← floordiv (xt - offset gi) (size gi);
      let x0 := n * size gi + offset gi in
      if decide (abs (xt - x0) <= snap) then Ok (x0 - x)
      else
        let x0' := x0 + size gi in
        if decide (abs (xt - x0') <= snap) then Ok (x0' - x)
        else guide_lines ()
    else guide_lines ().

(** ListCanvas.snap_y *)
Definition snap_y (c : ListCanvas) (y dy : Z) : res Z :=
  let snap := distance (snap_info c) in
  if decide (snap = 0) then Ok dy
  else
    let yt := y + dy in
    let gi := grid_info c in
    let guide_lines (_ : unit) : res Z :=
      if guide_snapping (guide_info c) then
        g ← unpack (_drag_guides c);
        let ys := snd g in
        Ok (snd (snap_guides yt y (keys ys) snap dy))
      else Ok dy in
    if grid_snapping gi then
      n ← floordiv (yt - offset gi) (size gi);
      let y0 := n * size gi + offset gi in
      if decide (abs (yt - y0) <= snap) then Ok (y0 - y)
      else
        let y0' := y0 + size gi in
        if decide (abs (yt - y0') <= snap) then Ok (y0' - y)
        else guide_lines ()
    else guide_lines ().

(** *** Guide lines *)

(** The body of the loop of [_guide_lines] for one item. *)
Definition guide_lines_step (h : item_ref -> ListCanvasItem)
    (skip_item : option item_ref) (acc : gset Z * gset Z) (item : item_ref)
    : res (gset Z * gset Z) :=
  if decide (Some item = skip_item) then Ok acc
  else
    '(x, y) ← item_position (h item);
    '(dx, dy) ← item_size (h item);
    let '(xs, ys) := acc in
    Ok ({[ x + dx ]} ∪ ({[ x ]} ∪ xs), {[ y + dy ]} ∪ ({[ y ]} ∪ ys)).

(** ListCanvas._guide_lines *)
Definition _guide_lines (w : World) : res (gset Z * gset Z) :=
  let '(dx, dy) := canvas_size (lc w) in
  let xs : gset Z := {[ 0; dx - 1 ]} in
  let ys : gset Z := {[ 0; dy - 1 ]} in
  let skip_item := _drag_item (lc w) in
  foldM (guide_lines_step (heap w) skip_item) (items (lc w)) (xs, ys).

(** *** Resize-mode decoding *)

Inductive wxCursor :=
  | CURSOR_ARROW
  | CURSOR_SIZEWE
  | CURSOR_SIZENWSE
  | CURSOR_SIZENESW
  | CURSOR_SIZENS.

(** ListCanvasItem._set_cursor: the mode returned and the cursor set on the
    control. *)
Definition _set_cursor (a : AdapterView) (it : ListCanvasItem) (x y : Z)
    : res (Z * wxCursor) :=
  let n := 4 in
  '(dx, dy) ← item_size it;
  if decide (x >= 0 /\ x < dx /\ y >= 0 /\ y < dy) then
    let '(cursor, mode) :=
      if get_can_resize a (object it) then
        if decide (x < n) then
          if decide (y < n) then (CURSOR_SIZENWSE, 15)
          else if decide (y >= dy - n) then (CURSOR_SIZENESW, 7)
          else (CURSOR_SIZEWE, 5)
        else if decide (x >= dx - n) then
          if decide (y < n) then (CURSOR_SIZENESW, 11)
          else if decide (y >= dy - n) then (CURSOR_SIZENWSE, 3)
          else (CURSOR_SIZEWE, 1)
        else if decide (y < n \/ y >= dy - n) then
          if decide (y < n) then (CURSOR_SIZENS, 10) else (CURSOR_SIZENS, 2)
        else (CURSOR_ARROW, 0)
      else (CURSOR_ARROW, 0) in
    let mode :=
      if bool_decide (mode = 0) && get_can_move a (object it) then
        let slice := image_slice (theme it) in
        if decide (y < xtop slice \/ y >= dy - xbottom slice) then 12 else mode
      else mode in
    Ok (mode, cursor)
  else Ok (0, CURSOR_ARROW).

(** *** Resizing and moving during a drag *)

Definition with_control (it : ListCanvasItem) (c : option wxWindow)
    : ListCanvasItem :=
  {| object := object it; state := state it; theme := theme it; ui := ui it;
     control := c; best_size := best_size it |}.

Definition with_heap (w : World) (h : item_ref -> ListCanvasItem) : World :=
  {| lc := lc w; heap := h; trace := trace w |}.

Definition with_lc (w : World) (c : ListCanvas) : World :=
  {| lc := c; heap := heap w; trace := trace w |}.

Definition emit (w : World) (e : list event) : World :=
  {| lc := lc w; heap := heap w; trace := trace w ++ e |}.

(** The x-axis part of [resize]: the new x-position and width.  Bit 0x04
    of the mode drags the left edge, bit 0x01 the right edge. *)
Definition resize_x (c : ListCanvas) (mode xo dxo dx : Z) : res (Z * Z) :=
  if decide (Z.land mode 4 <> 0) then
    dxs ← snap_x c xo dx;
    if decide (Z.land mode 1 <> 0) then Ok (xo + dxs, dxo - dxs)
    else if decide (dxs = dx) then
      d ← snap_x c (xo + dxo) dx;
      Ok (xo + d, dxo)
    else Ok (xo + dxs, dxo)
  else if decide (Z.land mode 1 <> 0) then
    d ← snap_x c (xo + dxo) dx;
    Ok (xo, dxo + d)
  else Ok (xo, dxo).

(** The y-axis part of [resize]: the new y-position and height.  Bit 0x08
    of the mode drags the top edge, bit 0x02 the bottom edge. *)
Definition resize_y (c : ListCanvas) (mode yo dyo dy : Z) : res (Z * Z) :=
  if decide (Z.land mode 8 <> 0) then
    dys ← snap_y c yo dy;
    if decide (Z.land mode 2 <> 0) then Ok (yo + dys, dyo - dys)
    else if decide (dys = dy) then
      d ← snap_y c (yo + dyo) dy;
      Ok (yo + d, dyo)
    else Ok (yo + dys, dyo)
  else if decide (Z.land mode 2 <> 0) then
    d ← snap_y c (yo + dyo) dy;
    Ok (yo, dyo + d)
  else Ok (yo, dyo).

(** ListCanvasItem.resize, on the item [r] of the store. *)
Definition resize (w : World) (r : item_ref) (mode xo yo dxo dyo dx dy : Z)
    : res World :=
  let dx := if decide (Z.land mode 5 = 0) then 0 else dx in
  let dy := if decide (Z.land mode 10 = 0) then 0 else dy in
  let canvas := lc w in
  '(xo, dxo) ← resize_x canvas mode xo dxo dx;
  '(yo, dyo) ← resize_y canvas mode yo dyo dy;
  let self := heap w r in
  '(cx, cy) ← item_position self;
  '(cdx, cdy) ← item_size self;
  if decide (xo <> cx \/ yo <> cy \/ dxo <> cdx \/ dyo <> cdy) then
    ctl ← match control self with
          | Some ctl => Ok ctl
          | None => Raise AttributeError
          end;
    Ok (with_heap w (<[ r := with_control self (Some (SetDimensions ctl xo yo dxo dyo)) ]> (heap w)))
  else Ok w.

(** *** Activation *)

(** The theme the adapter gives for a state:
    [getattr( adapter, 'get_theme_' + state )( object )]. *)
Definition get_theme_for (a : AdapterView) (s : ItemState) : Obj -> Theme :=
  match s with
  | inactive => get_theme_inactive a
  | hover => get_theme_hover a
  | active => get_theme_active a
  end.

(** The assignment [item.state = s].  The trait machinery calls
    ListCanvasItem._state_changed when the value changes: the theme is
    taken from the adapter and an item that became active is raised with
    [self.control.Raise()], which fails on an item that has no control. *)
Definition set_state (w : World) (r : item_ref) (s : ItemState) : res World :=
  let self := heap w r in
  if decide (state self = s) then Ok w
  else
    let self' :=
      {| object := object self; state := s;
         theme := get_theme_for (adapter (lc w)) s (object self);
         ui := ui self; control := control self;
         best_size := best_size self |} in
    let w := with_heap w (<[ r := self' ]> (heap w)) in
    if decide (s = active) then
      match control self with
      | Some _ => Ok (emit w [EvRaise r])
      | None => if reraise_exceptions then Raise AttributeError else Ok w
      end
    else Ok w.

Definition with_active_item (c : ListCanvas) (a : option item_ref) : ListCanvas :=
  {| scrollable := scrollable c; items := items c; active_item := a;
     adapter := adapter c; snap_info := snap_info c;
     guide_info := guide_info c; grid_info := grid_info c;
     canvas := canvas c; lc_state := lc_state c;
     _drag_item := _drag_item c; _drag_info := _drag_info c;
     _drag_guides := _drag_guides c |}.

(** ListCanvas.activate; [item] may be [None]. *)
Definition activate (w : World) (item : option item_ref) : res World :=
  let active_item := active_item (lc w) in
  if decide (item <> active_item) then
    w ← match active_item with
        | Some a =>
            w ← set_state w a inactive;
            Ok (emit w [EvSetDeactivated (object (heap w a))])
        | None => Ok w
        end;
    let w := with_lc w (with_active_item (lc w) item) in
    match item with
    | Some i =>
        w ← set_state w i active;
        Ok (emit w [EvSetActivated (object (heap w i))])
    | None => Ok w
    end
  else Ok w.

(** *** Initial placement *)

(** The body of the loop of [initial_position_for] for one item; the
    accumulator is [(xmax, ymax, ynext)]. *)
Definition initial_position_step (h : item_ref -> ListCanvasItem)
    (acc : Z * Z * Z) (item : item_ref) : res (Z * Z * Z) :=
  let '(xmax, ymax, ynext) := acc in
  '(x, y) ← item_position (h item);
  '(idx, idy) ← item_size (h item);
  if decide (y > ymax) then Ok (x + idx, y, y + idy)
  else if decide (y = ymax) then Ok (Z.max xmax (x + idx), ymax, Z.max ynext (y + idy))
  else Ok (xmax, ymax, ynext).

(** ListCanvas.initial_position_for *)
Definition initial_position_for (w : World) (dx dy : Z) : res (Z * Z) :=
  let '(cdx, cdy) := canvas_size (lc w) in
  '(xmax, ymax, ynext) ← foldM (initial_position_step (heap w)) (items (lc w)) (0, 0, 0);
  if decide (xmax + dx > cdx) then Ok (0, ynext)
  else Ok (xmax, ymax).

(** *** Painting *)

(** The pens are named after the info object whose colour and style they
    are built from. *)
Inductive wxPen := TRANSPARENT_PEN | GridPen | GuidePen.

Inductive draw :=
  | SetBrush
  | SetPen (p : wxPen)
  | DrawRectangle (x y dx dy : Z)
  | DrawLine (x0 y0 x1 y1 : Z).

#[global] Instance wxPen_eq_dec : EqDecision wxPen.
Proof. solve_decision. Defined.

#[global] Instance draw_eq_dec : EqDecision draw.
Proof. solve_decision. Defined.

(** The condition under which [canvas_paint] draws the guide lines. *)
Definition paints_guides (c : ListCanvas) : bool :=
  let gi := guide_info c in
  bool_decide (guide_visible gi = always) ||
  (bool_decide (guide_visible gi = drag) && bool_decide (lc_state c = dragging)) &&
  bool_decide (len (items c) > 0).

(** The condition under which [canvas_paint] draws the grid. *)
Definition paints_grid (c : ListCanvas) : bool :=
  let gi := grid_info c in
  bool_decide (grid_visible gi = always) ||
  (bool_decide (grid_visible gi = drag) && bool_decide (lc_state c = dragging)).

(** The extent painted: the client size, or its maximum with the virtual
    size on a scrollable canvas. *)
Definition paint_extent (c : ListCanvas) : Z * Z :=
  let '(wdx, wdy) := wx_client_size (canvas c) in
  if scrollable c then
    let '(vdx, vdy) := wx_virtual_size (canvas c) in
    (Z.max wdx vdx, Z.max wdy vdy)
  else (wdx, wdy).

(** The part of [canvas_paint] that draws the grid (if necessary). *)
Definition paint_grid (c : ListCanvas) (wdx wdy : Z) : res (list draw) :=
  if paints_grid c then
    let gi := grid_info c in
    let size := size gi in
    offset ← floormod (offset gi) size;
    xs ← range offset wdx size;
    ys ← range offset wdy size;
    Ok (SetPen GridPen ::
        ((fun x => DrawLine x 0 x wdy) <$> xs) ++
        ((fun y => DrawLine 0 y wdx y) <$> ys))
  else Ok [].

(** The part of [canvas_paint] that draws the guide lines (if necessary). *)
Definition paint_guides (w : World) (wdx wdy : Z) : res (list draw) :=
  if paints_guides (lc w) then
    '(xs, ys) ← _guide_lines w;
    Ok (SetPen GuidePen ::
        ((fun x => DrawLine x 0 x wdy) <$> keys xs) ++
        ((fun y => DrawLine 0 y wdx y) <$> keys ys))
  else Ok [].

(** ListCanvas.canvas_paint: the drawing calls made on the device context. *)
Definition canvas_paint (w : World) : res (list draw) :=
  let '(wdx, wdy) := paint_extent (lc w) in
  let background := [SetBrush; SetPen TRANSPARENT_PEN; DrawRectangle 0 0 wdx wdy] in
  grid ← paint_grid (lc w) wdx wdy;
  guides ← paint_guides w wdx wdy;
  Ok (background ++ grid ++ guides).

(** *** Replacing items *)

(** ListCanvasItem.dispose *)
Definition dispose (w : World) (r : item_ref) : World :=
  let w :=
    match ui (heap w r) with
    | Some _ =>
        let self := heap w r in
        emit (with_heap w (<[ r :=
                {| object := object self; state := state self;
                   theme := theme self; ui := Some {| ui_disposed := true |};
                   control := control self; best_size := best_size self |} ]>
                (heap w)))
             [EvUiDispose r]
    | None => w
    end in
  match control (heap w r) with
  | Some _ =>
      emit (with_heap w (<[ r := with_control (heap w r) None ]> (heap w)))
           [EvDestroy r]
  | None => w
  end.

(** The initial extent along one axis in [initialize_position]. *)
Definition initial_extent (v : float) (best c : Z) : res Z :=
  if le_zero v then Ok best
  else if le_one v then int_scaled v c
  else int_of v.

(** ListCanvasItem.initialize_position.  [x] stays the float it was given
    (here [inl]) on the path that does not assign it. *)
Definition initialize_position (w : World) (r : item_ref) : res World :=
  let self := heap w r in
  let canvas := lc w in
  let adapter := adapter canvas in
  let '(bdx, bdy) := best_size self in
  let '(cdx, cdy) := canvas_size canvas in
  let '(x, y) := get_position adapter (object self) in
  let '(dx, dy) := get_size adapter (object self) in
  dx ← initial_extent dx bdx cdx;
  dy ← initial_extent dy bdy cdy;
  x ← (if le_zero x then
         if gt_zero y then Ok (inr 0) else Ok (inl x)
       else if le_one x then n ← int_scaled x cdx; Ok (inr n)
       else n ← int_of x; Ok (inr n)) : res (float + Z);
  '(x, y) ←
    (if le_zero y then
       if (match x with inl v => le_zero v | inr n => bool_decide (n <= 0) end) then
         '(x, y) ← initial_position_for w dx dy;
         Ok (inr x, y)
       else Ok (x, 0)
     else if le_one y then n ← int_scaled y cdy; Ok (x, n)
     else n ← int_of y; Ok (x, n)) : res ((float + Z) * Z);
  ctl ← match control self with
        | Some ctl => Ok ctl
        | None => Raise AttributeError
        end;
  x ← match x with inr n => Ok n | inl _ => Raise TypeError end;
  Ok (with_heap w (<[ r := with_control self (Some (SetDimensions ctl x y dx dy)) ]> (heap w))).

Definition with_items (c : ListCanvas) (l : list item_ref) : ListCanvas :=
  {| scrollable := scrollable c; items := l; active_item := active_item c;
     adapter := adapter c; snap_info := snap_info c;
     guide_info := guide_info c; grid_info := grid_info c;
     canvas := canvas c; lc_state := lc_state c;
     _drag_item := _drag_item c; _drag_info := _drag_info c;
     _drag_guides := _drag_guides c |}.

Definition with_canvas (c : ListCanvas) (win : wxWindow) : ListCanvas :=
  {| scrollable := scrollable c; items := items c; active_item := active_item c;
     adapter := adapter c; snap_info := snap_info c;
     guide_info := guide_info c; grid_info := grid_info c;
     canvas := win; lc_state := lc_state c;
     _drag_item := _drag_item c; _drag_info := _drag_info c;
     _drag_guides := _drag_guides c |}.

(** The body of the loop of [_adjust_size] for one item. *)
Definition adjust_size_step (h : item_ref -> ListCanvasItem) (xvs yvs : Z)
    (acc : Z * Z) (item : item_ref) : res (Z * Z) :=
  let '(cdx, cdy) := acc in
  '(x, y) ← item_position (h item);
  '(dx, dy) ← item_size (h item);
  Ok (Z.max cdx (x + dx + xvs), Z.max cdy (y + dy + yvs)).

(** ListCanvas._adjust_size *)
Definition _adjust_size (w : World) : res World :=
  let c := lc w in
  if scrollable c then
    let '(xvs, yvs) := wx_view_start (canvas c) in
    let '(xppu, yppu) := wx_pixels_per_unit (canvas c) in
    let xvs := xvs * xppu in
    let yvs := yvs * yppu in
    v ← foldM (adjust_size_step (heap w) xvs yvs) (items c) (0, 0);
    Ok (with_lc w (with_canvas c (SetVirtualSize (canvas c) v)))
  else Ok w.

(** The body of the insertion loop of [replace_items]; the accumulator is
    the world and the running index [i]. *)
Definition replace_items_step (acc : World * Z) (item : item_ref)
    : res (World * Z) :=
  let '(w, i) := acc in
  w ← initialize_position w item;
  Ok (with_lc w (with_items (lc w) (insert (items (lc w)) i item)), i + 1).

(** ListCanvas.replace_items *)
Definition replace_items (w : World) (new_items : list item_ref) (i j : Z)
    : res World :=
  let self_items := items (lc w) in
  let j := if decide (j < 0) then len self_items else j in
  let w :=
    match active_item (lc w) with
    | Some a =>
        if bool_decide (a ∈ slice self_items i j)
        then with_lc w (with_active_item (lc w) None)
        else w
    | None => w
    end in
  let w := foldl dispose w (slice self_items i j) in
  let w := with_lc w (with_items (lc w) (del_slice self_items i j)) in
  '(w, _) ← foldM replace_items_step new_items (w, i);
  _adjust_size w.

(** *** Starting and ending a drag *)

(** ListCanvas._event_xy *)
Definition _event_xy (c : ListCanvas) (x y : Z) : Z * Z :=
  if scrollable c then
    let '(xvs, yvs) := wx_view_start (canvas c) in
    let '(dx, dy) := wx_pixels_per_unit (canvas c) in
    (x + xvs * dx, y + yvs * dy)
  else (x, y).

(** ListCanvas.begin_drag *)
Definition begin_drag (w : World) (item : item_ref) (mode x y : Z) : res World :=
  let c := lc w in
  let '(x, y) := _event_xy c x y in
  '(x0, y0) ← item_position (heap w item);
  '(dx, dy) ← item_size (heap w item);
  let '(x1, y1) := canvas_position c in
  let c :=
    {| scrollable := scrollable c; items := items c; active_item := active_item c;
       adapter := adapter c; snap_info := snap_info c;
       guide_info := guide_info c; grid_info := grid_info c;
       canvas := canvas c; lc_state := dragging;
       _drag_item := Some item;
       _drag_info := Some (mode, x0, y0, dx, dy, x0 + x1 + x, y0 + y1 + y);
       _drag_guides := _drag_guides c |} in
  let w := with_lc w c in
  if bool_decide (distance (snap_info c) > 0) && guide_snapping (guide_info c) then
    g ← _guide_lines w;
    Ok (with_lc w
          {| scrollable := scrollable c; items := items c;
             active_item := active_item c; adapter := adapter c;
             snap_info := snap_info c; guide_info := guide_info c;
             grid_info := grid_info c; canvas := canvas c;
             lc_state := lc_state c; _drag_item := _drag_item c;
             _drag_info := _drag_info c; _drag_guides := Some g |})
  else Ok w.

(** ListCanvas.dragging_motion *)
Definition dragging_motion (w : World) (x y : Z) : res World :=
  let '(x, y) := _event_xy (lc w) x y in
  info ← unpack (_drag_info (lc w));
  let '(mode, x0, y0, dx, dy, xo, yo) := info in
  item ← match _drag_item (lc w) with
         | Some item => Ok item
         | None => Raise AttributeError
         end;
  resize w item mode x0 y0 dx dy (x - xo) (y - yo).

(** ListCanvas._refresh_canvas_drag: whether it refreshes the canvas. *)
Definition _refresh_canvas_drag (c : ListCanvas) (start : bool) : bool :=
  let visible := guide_visible (guide_info c) in
  bool_decide (grid_visible (grid_info c) = drag) ||
  bool_decide (visible = drag) ||
  (negb start && bool_decide (visible = always)).

(** ListCanvas.dragging_left_up; the refresh of the items acts on the
    toolkit only. *)
Definition dragging_left_up (w : World) (x y : Z) : res World :=
  let c := lc w in
  let c :=
    {| scrollable := scrollable c; items := items c; active_item := active_item c;
       adapter := adapter c; snap_info := snap_info c;
       guide_info := guide_info c; grid_info := grid_info c;
       canvas := canvas c; lc_state := normal;
       _drag_item := None; _drag_info := _drag_info c;
       _drag_guides := None |} in
  _adjust_size (with_lc w c).

(** *** Mouse events on an item *)

(** ListCanvasItem.active_left_down *)
Definition active_left_down (w : World) (r : item_ref) (x y : Z) : res World :=
  '(mode, _) ← _set_cursor (adapter (lc w)) (heap w r) x y;
  if decide (mode > 0) then begin_drag w r mode x y else Ok w.

(** ListCanvasItem.inactive_motion *)
Definition inactive_motion (w : World) (r : item_ref) (x y : Z) : res World :=
  w ← set_state w r hover;
  _ ← _set_cursor (adapter (lc w)) (heap w r) x y;
  Ok w.

(** ListCanvasItem.hover_motion; [in_control] is the answer of the
    inherited [in_control( x, y )]. *)
Definition hover_motion (in_control : bool) (w : World) (r : item_ref) (x y : Z)
    : res World :=
  if negb in_control then
    w ← set_state w r inactive;
    match control (heap w r) with
    | Some _ => Ok w
    | None => Raise AttributeError
    end
  else
    _ ← _set_cursor (adapter (lc w)) (heap w r) x y;
    Ok w.

(** ListCanvasItem.hover_left_down *)
Definition hover_left_down (w : World) (r : item_ref) (x y : Z) : res World :=
  w ← activate w (Some r);
  active_left_down w r x y.

(** *** The title bar of an item *)

(** What [_layout] reads beyond the item and its theme's slice: the height
    of the text ['Myj'] in the control's font, the offset of the theme, the
    size of the bitmap of each image, and three answers of the adapter. *)
Record TitleBar := {
  text_height : Z;
  theme_offset : Z * Z;
  bitmap_size : string -> Z * Z;
  get_can_delete : bool;
  get_can_drag : bool;
  get_can_clone : bool
}.

(** ListCanvasItem._layout_button; the layout maps a name to its bounds
    [(x, y, dx, dy)]. *)
Definition _layout_button (tb : TitleBar) (layout : gmap string (Z * Z * Z * Z))
    (name : string) (x y direction : Z) : gmap string (Z * Z * Z * Z) * Z :=
  let '(dx, dy) := bitmap_size tb name in
  let '(x, rx) :=
    if decide (direction < 0) then (x - dx, x - dx - 2)
    else (x, x + dx + 2) in
  (<[ name := (x, Z.div (y - dy) 2, dx, dy) ]> layout, rx).

(** ListCanvasItem._layout: the layout it leaves. *)
Definition _layout (tb : TitleBar) (it : ListCanvasItem)
    : res (gmap string (Z * Z * Z * Z)) :=
  let layout : gmap string (Z * Z * Z * Z) := ∅ in
  ctl ← match control it with
        | Some ctl => Ok ctl
        | None => Raise AttributeError
        end;
  let slice := image_slice (theme it) in
  let tdy := text_height tb + 4 in
  if decide (tdy <= xtop slice \/ tdy <= xbottom slice) then
    let '(wdx, wdy) := wx_client_size ctl in
    let '(ox, oy) := theme_offset tb in
    let '(ty, ay) :=
      if decide (tdy <= xtop slice)
      then (oy + Z.div (xtop slice - tdy + 4) 2, 2 * oy + xtop slice)
      else (oy + wdy - Z.div (xbottom slice + tdy + 4) 2,
            2 * (oy + wdy) - xbottom slice) in
    let xl := ox + xleft slice in
    let xr := ox + wdx - xright slice in
    let '(layout, xr) :=
      if get_can_delete tb then _layout_button tb layout "close" xr ay (-1)
      else (layout, xr) in
    let '(layout, xr) := _layout_button tb layout "minimize" xr ay (-1) in
    let '(layout, xr) :=
      if get_can_drag tb then _layout_button tb layout "drag" xr ay (-1)
      else (layout, xr) in
    let '(layout, xr) :=
      if get_can_clone tb then _layout_button tb layout "clone" xr ay (-1)
      else (layout, xr) in
    Ok (<[ "title" := (xl, ty, xr - xl, tdy - 4) ]> layout)
  else Ok layout.

(** *** The stock cursors *)

(** The module's [stock_cursors] cache with the number of stock cursors
    created so far; a cursor object is named by the rank of its creation. *)
Record StockCursors := {
  stock_cursors : wxCursor -> option nat;
  created : nat
}.

#[global] Instance wxCursor_eq_dec : EqDecision wxCursor.
Proof. solve_decision. Defined.

(** get_cursor *)
Definition get_cursor (st : StockCursors) (cursor_id : wxCursor)
    : nat * StockCursors :=
  match stock_cursors st cursor_id with
  | Some cursor => (cursor, st)
  | None =>
      let cursor := created st in
      (cursor,
       {| stock_cursors := <[ cursor_id := Some cursor ]> (stock_cursors st);
          created := S (created st) |})
  end.

(** *** The editor *)

(** The control and the best size the toolkit gives a new item. *)
Record Toolkit := {
  new_control : Obj -> wxWindow;
  new_best_size : Obj -> Z * Z
}.

(** class _ListCanvasEditor: its list canvas, the reference the next item
    object gets, whether [update_editor] ran before and how many calls of it
    [do_later] holds. *)
Record Editor := {
  list_canvas : World;
  next_item : item_ref;
  _inited : bool;
  later : nat;
  toolkit : Toolkit
}.

(** ListCanvas.create_object with ListCanvasItem._object_changed: a new
    item object for [o], in state ['inactive'], with the inactive theme,
    a control and a Traits UI. *)
Definition create_object (e : Editor) (o : Obj) : item_ref * Editor :=
  let w := list_canvas e in
  let r := next_item e in
  let self :=
    {| object := o; state := inactive;
       theme := get_theme_inactive (adapter (lc w)) o;
       ui := Some {| ui_disposed := false |};
       control := Some (new_control (toolkit e) o);
       best_size := new_best_size (toolkit e) o |} in
  (r, {| list_canvas := with_heap w (<[ r := self ]> (heap w));
         next_item := S r; _inited := _inited e; later := later e;
         toolkit := toolkit e |}).

(** [[ lc.create_object( object ) for object in objects ]] *)
Fixpoint create_objects (e : Editor) (objects : list Obj)
    : list item_ref * Editor :=
  match objects with
  | [] => ([], e)
  | o :: objects' =>
      let '(r, e) := create_object e o in
      let '(rs, e) := create_objects e objects' in
      (r :: rs, e)
  end.

Definition with_list_canvas (e : Editor) (w : World) : Editor :=
  {| list_canvas := w; next_item := next_item e; _inited := _inited e;
     later := later e; toolkit := toolkit e |}.

(** _ListCanvasEditor.update_editor, for the value [value] of the trait. *)
Definition update_editor (e : Editor) (value : list Obj) : res Editor :=
  if negb (_inited e) then
    Ok {| list_canvas := list_canvas e; next_item := next_item e;
          _inited := true; later := S (later e); toolkit := toolkit e |}
  else
    let '(new_items, e) := create_objects e value in
    w ← replace_items (list_canvas e) new_items 0 (-1);
    Ok (with_list_canvas e w).

(** _ListCanvasEditor.dispose, up to the call of the inherited method. *)
Definition editor_dispose (e : Editor) : res Editor :=
  w ← replace_items (list_canvas e) [] 0 (-1);
  Ok (with_list_canvas e w).

(** _ListCanvasEditor.update_editor_item, for an event with the given
    [index], [removed] and [added]. *)
Definition update_editor_item (e : Editor) (index : Z) (removed added : list Obj)
    : res Editor :=
  let '(new_items, e) := create_objects e added in
  w ← replace_items (list_canvas e) new_items index (index + len removed);
  Ok (with_list_canvas e w).

(** *** Vocabulary of the properties *)

(** The body common to [snap_x] and [snap_y]. *)
Definition snap_axis (sel : gset Z * gset Z -> gset Z) (c : ListCanvas)
    (p d : Z) : res Z :=
  let snap := distance (snap_info c) in
  if decide (snap = 0) then Ok d
  else
    let t := p + d in
    let gi := grid_info c in
    let guide_lines (_ : unit) : res Z :=
      if guide_snapping (guide_info c) then
        g ← unpack (_drag_guides c);
        Ok (snd (snap_guides t p (keys (sel g)) snap d))
      else Ok d in
    if grid_snapping gi then
      n ← floordiv (t - offset gi) (size gi);
      let p0 := n * size gi + offset gi in
      if decide (abs (t - p0) <= snap) then Ok (p0 - p)
      else
        let p1 := p0 + size gi in
        if decide (abs (t - p1) <= snap) then Ok (p1 - p)
        else guide_lines ()
    else guide_lines ().

(** [v] is a grid line: the grid offset plus a multiple of the cell size. *)
Definition on_grid (gi : GridInfo) (v : Z) : Prop :=
  exists k : Z, v = offset gi + k * size gi.

(** [v] is one of the guide lines computed for the current drag; [sel] is
    [fst] for the x guide lines and [snd] for the y guide lines. *)
Definition on_drag_guide (sel : gset Z * gset Z -> gset Z) (c : ListCanvas)
    (v : Z) : Prop :=
  exists g, _drag_guides c = Some g /\ v ∈ sel g.

(** Every item on the canvas has its control. *)
Definition live_items (w : World) : Prop :=
  forall r, r ∈ items (lc w) -> is_Some (control (heap w r)).

(** An item other than the one being dragged has [v] as its left or right
    edge (resp. top or bottom edge). *)
Definition item_edge_x (w : World) (v : Z) : Prop :=
  exists r ctl, r ∈ items (lc w) /\ Some r <> _drag_item (lc w) /\
    control (heap w r) = Some ctl /\
    (v = fst (wx_position ctl) \/ v = fst (wx_position ctl) + fst (wx_size ctl)).

Definition item_edge_y (w : World) (v : Z) : Prop :=
  exists r ctl, r ∈ items (lc w) /\ Some r <> _drag_item (lc w) /\
    control (heap w r) = Some ctl /\
    (v = snd (wx_position ctl) \/ v = snd (wx_position ctl) + snd (wx_size ctl)).

(** The mode decoding of [_set_cursor] as its description gives it: one
    clause per mode, tried in the order given, the first clause that applies
    deciding the mode. *)
Definition set_cursor_mode_cascade (can_resize can_move : bool)
    (slice : ImageSlice) (dx dy x y : Z) : Z :=
  if negb (bool_decide (0 <= x /\ x < dx /\ 0 <= y /\ y < dy)) then 0
  else if can_resize && bool_decide (x < 4 /\ y < 4) then 15
  else if can_resize && bool_decide (x < 4 /\ y >= dy - 4) then 7
  else if can_resize && bool_decide (x < 4) then 5
  else if can_resize && bool_decide (x >= dx - 4 /\ y < 4) then 11
  else if can_resize && bool_decide (x >= dx - 4 /\ y >= dy - 4) then 3
  else if can_resize && bool_decide (x >= dx - 4) then 1
  else if can_resize && bool_decide (y < 4) then 10
  else if can_resize && bool_decide (y >= dy - 4) then 2
  else if can_move && bool_decide (y < xtop slice \/ y >= dy - xbottom slice) then 12
  else 0.


(** At most one item on the canvas has state [active]. *)
Definition at_most_one_active (w : World) : Prop :=
  forall r1 r2, r1 ∈ items (lc w) -> r2 ∈ items (lc w) ->
    state (heap w r1) = active -> state (heap w r2) = active -> r1 = r2.

(** The events of deactivating the item [a] and of activating the item [i]
    in the world [w]; an item is raised when it becomes active and has its
    control. *)
Definition deactivation_events (w : World) (a : option item_ref) : list event :=
  match a with
  | Some a => [EvSetDeactivated (object (heap w a))]
  | None => []
  end.

Definition activation_events (w : World) (i : option item_ref) : list event :=
  match i with
  | Some i =>
      (if decide (state (heap w i) = active) then []
       else if control (heap w i) is Some _ then [EvRaise i] else []) ++
      [EvSetActivated (object (heap w i))]
  | None => []
  end.

(** The drawing calls [ops] draw guide lines: the guide pen is set and
    at least one line is drawn with it. *)
Definition draws_guide_lines (ops : list draw) : Prop :=
  exists pre post, ops = pre ++ SetPen GuidePen :: post /\
    exists x0 y0 x1 y1, DrawLine x0 y0 x1 y1 ∈ post.

(** The item [r], with control [ctl], is a lowest item of the canvas: its y
    is not negative and no item has a larger one. *)
Definition lowest_item (w : World) (r : item_ref) (ctl : wxWindow) : Prop :=
  r ∈ items (lc w) /\ control (heap w r) = Some ctl /\
  0 <= snd (wx_position ctl) /\
  forall r' ctl', r' ∈ items (lc w) -> control (heap w r') = Some ctl' ->
    snd (wx_position ctl') <= snd (wx_position ctl).

(** An item has been disposed: its control is gone and its Traits UI, if
    it has one, is disposed. *)
Definition disposed (it : ListCanvasItem) : Prop :=
  control it = None /\ forall u, ui it = Some u -> ui_disposed u = true.

(** The active item, when there is one, is an item of the canvas. *)
Definition active_on_canvas (w : World) : Prop :=
  forall a, active_item (lc w) = Some a -> a ∈ items (lc w).

(** The items [new] occupy consecutive positions of [l], in their order. *)
Definition in_given_order (new l : list item_ref) : Prop :=
  exists pre suf, l = pre ++ new ++ suf.

(** [v] is a snapping target along an axis. *)
Definition snap_target (sel : gset Z * gset Z -> gset Z) (c : ListCanvas)
    (v : Z) : Prop :=
  (grid_snapping (grid_info c) = true /\ on_grid (grid_info c) v) \/
  (guide_snapping (guide_info c) = true /\ on_drag_guide sel c v).

(** The sequence of mouse positions of a drag. *)
Definition dragging_motions (w : World) (moves : list (Z * Z)) : res World :=
  foldM (fun w '(x, y) => dragging_motion w x y) moves w.

(** The world [w1] is [w] up to the position and size of the control of
    the item [r]. *)
Definition same_but_geometry (r : item_ref) (w w1 : World) : Prop :=
  lc w1 = lc w /\ trace w1 = trace w /\
  (forall r', r' <> r -> heap w1 r' = heap w r') /\
  exists ctl ctl1, control (heap w r) = Some ctl /\
    heap w1 r = with_control (heap w r) (Some ctl1) /\
    wx_client_size ctl1 = wx_client_size ctl /\
    wx_virtual_size ctl1 = wx_virtual_size ctl /\
    wx_view_start ctl1 = wx_view_start ctl /\
    wx_pixels_per_unit ctl1 = wx_pixels_per_unit ctl.

(** Two worlds with the same canvas, trace and items. *)
Definition same_world (w w' : World) : Prop :=
  lc w' = lc w /\ trace w' = trace w /\ forall r, heap w' r = heap w r.

(** The cursor that goes with a mode. *)
Definition cursor_of_mode (mode : Z) : wxCursor :=
  if bool_decide (mode = 15 \/ mode = 3) then CURSOR_SIZENWSE
  else if bool_decide (mode = 7 \/ mode = 11) then CURSOR_SIZENESW
  else if bool_decide (mode = 5 \/ mode = 1) then CURSOR_SIZEWE
  else if bool_decide (mode = 10 \/ mode = 2) then CURSOR_SIZENS
  else CURSOR_ARROW.

(** The canvas in another state. *)
Definition with_lc_state (c : ListCanvas) (st : CanvasState) : ListCanvas :=
  {| scrollable := scrollable c; items := items c; active_item := active_item c;
     adapter := adapter c; snap_info := snap_info c;
     guide_info := guide_info c; grid_info := grid_info c;
     canvas := canvas c; lc_state := st;
     _drag_item := _drag_item c; _drag_info := _drag_info c;
     _drag_guides := _drag_guides c |}.

(** The items of the canvas in state [active] are exactly its active
    item. *)
Definition active_coherent (w : World) : Prop :=
  forall r, r ∈ items (lc w) ->
    (state (heap w r) = active <-> active_item (lc w) = Some r).

(** A mouse event handled by an item or by the canvas; each handler runs
    in the state it is named after. *)
Inductive mouse_step (w : World) : World -> Prop :=
  | step_inactive_motion (r : item_ref) (x y : Z) (w' : World) :
      state (heap w r) = inactive ->
      inactive_motion w r x y = Ok w' -> mouse_step w w'
  | step_hover_motion (in_control : bool) (r : item_ref) (x y : Z) (w' : World) :
      state (heap w r) = hover ->
      hover_motion in_control w r x y = Ok w' -> mouse_step w w'
  | step_hover_left_down (r : item_ref) (x y : Z) (w' : World) :
      state (heap w r) = hover ->
      hover_left_down w r x y = Ok w' -> mouse_step w w'
  | step_active_left_down (r : item_ref) (x y : Z) (w' : World) :
      state (heap w r) = active ->
      active_left_down w r x y = Ok w' -> mouse_step w w'
  | step_dragging_motion (x y : Z) (w' : World) :
      lc_state (lc w) = dragging ->
      dragging_motion w x y = Ok w' -> mouse_step w w'
  | step_dragging_left_up (x y : Z) (w' : World) :
      lc_state (lc w) = dragging ->
      dragging_left_up w x y = Ok w' -> mouse_step w w'.

(** The application objects shown on the canvas, in the order of its
    items. *)
Definition canvas_objects (w : World) : list Obj :=
  (fun r => object (heap w r)) <$> items (lc w).

(** The reference the next item object gets is not in use on the canvas. *)
Definition editor_wf (e : Editor) : Prop :=
  forall r, r ∈ items (lc (list_canvas e)) -> (r < next_item e)%nat.

(** The stock cursor cache names each cursor created so far once. *)
Definition cursors_wf (st : StockCursors) : Prop :=
  forall a c, stock_cursors st a = Some c ->
    (c < created st)%nat /\ forall b, stock_cursors st b = Some c -> a = b.

(** The buttons [_layout] gives the title bar, from right to left. *)
Definition title_buttons (tb : TitleBar) : list string :=
  (if get_can_delete tb then ["close"%string] else []) ++ ["minimize"%string] ++
  (if get_can_drag tb then ["drag"%string] else []) ++
  (if get_can_clone tb then ["clone"%string] else []).

(** The width the buttons take, each with the 2 pixels left of it. *)
Definition buttons_width (tb : TitleBar) : Z :=
  foldr (fun name acc => fst (bitmap_size tb name) + 2 + acc) 0 (title_buttons tb).

(** The title text, with its 4 pixels of margin, fits the top or the bottom
    of the theme's slice. *)
Definition title_fits (tb : TitleBar) (it : ListCanvasItem) : Prop :=
  text_height tb + 4 <= xtop (image_slice (theme it)) \/
  text_height tb + 4 <= xbottom (image_slice (theme it)).

End model.

(** *** Sample data *)

(** The enumeration order of [elements]. *)
Definition elements_order : DictOrder :=
  {| keys := elements; keys_perm := fun s => Permutation_refl (elements s) |}.

(** An exception handler that logs. *)
Definition logged_exceptions : TraitNotification :=
  {| reraise_exceptions := false |}.

(** Floats whose value is an integer. *)
Definition integral_floats : FloatOps :=
  {| float := Z;
     le_zero := fun v => bool_decide (v <= 0);
     le_one := fun v => bool_decide (v <= 1);
     gt_zero := fun v => bool_decide (0 < v);
     int_scaled := fun v n => Ok (v * n);
     int_of := fun v => Ok v |}.

Definition integral (v : Z) : @float integral_floats := v.

Definition sample_theme (name : string) : Theme :=
  {| image_slice := {| xleft := 5; xright := 5; xtop := 20; xbottom := 5 |};
     theme_name := name |}.

Definition sample_adapter : @AdapterView integral_floats :=
  {| get_theme_active := fun _ => sample_theme "default_active";
     get_theme_inactive := fun _ => sample_theme "default_inactive";
     get_theme_hover := fun _ => sample_theme "default_hover";
     get_can_resize := fun _ => true;
     get_can_move := fun _ => true;
     get_position := fun _ => (integral 0, integral 0);
     get_size := fun _ => (integral 0, integral 0) |}.

Definition sample_window (x y dx dy : Z) : wxWindow :=
  {| wx_position := (x, y); wx_size := (dx, dy); wx_client_size := (dx, dy);
     wx_virtual_size := (dx, dy); wx_view_start := (0, 0);
     wx_pixels_per_unit := (1, 1) |}.

(** Item [r] is 80 by 60 and stands at [(100 r, 0)]. *)
Definition sample_heap (r : item_ref) : ListCanvasItem :=
  {| object := r; state := inactive; theme := sample_theme "default_inactive";
     ui := Some {| ui_disposed := false |};
     control := Some (sample_window (100 * Z.of_nat r) 0 80 60);
     best_size := (80, 60) |}.

(** A 640 by 480 canvas with three items, grid and guide snapping on. *)
Definition sample_canvas (snap : Z) (visible : Visibility) (st : CanvasState)
    : @ListCanvas integral_floats :=
  {| scrollable := false; items := [0; 1; 2]%nat; active_item := None;
     adapter := sample_adapter;
     snap_info := {| distance := snap |};
     guide_info := {| guide_visible := visible; guide_snapping := true |};
     grid_info := {| grid_visible := always; grid_snapping := true;
                     size := 50; offset := 0 |};
     canvas := sample_window 0 0 640 480; lc_state := st;
     _drag_item := None; _drag_info := None;
     _drag_guides := Some ({[ 0; 639; 100; 180 ]}, {[ 0; 479; 60; 130 ]}) |}.

Definition sample_world (snap : Z) (visible : Visibility) (st : CanvasState)
    : @World integral_floats :=
  {| lc := sample_canvas snap visible st; heap := sample_heap; trace := [] |}.

(** The sample canvas made scrollable, its view scrolled by [(10, 20)]. *)
Definition sample_scrollable_world : @World integral_floats :=
  {| lc :=
       {| scrollable := true; items := [0; 1; 2]%nat; active_item := None;
          adapter := sample_adapter;
          snap_info := {| distance := 8 |};
          guide_info := {| guide_visible := drag; guide_snapping := true |};
          grid_info := {| grid_visible := always; grid_snapping := true;
                          size := 50; offset := 0 |};
          canvas :=
            {| wx_position := (0, 0); wx_size := (640, 480);
               wx_client_size := (640, 480); wx_virtual_size := (640, 480);
               wx_view_start := (10, 20); wx_pixels_per_unit := (1, 1) |};
          lc_state := normal;
          _drag_item := None; _drag_info := None; _drag_guides := None |};
     heap := sample_heap; trace := [] |}.

(** A title bar with 14 pixel text, 16 by 16 bitmaps and an adapter that
    permits deleting and cloning. *)
Definition sample_title_bar : TitleBar :=
  {| text_height := 14; theme_offset := (0, 0);
     bitmap_size := fun _ => (16, 16);
     get_can_delete := true; get_can_drag := false; get_can_clone := true |}.

(** The stock cursor cache of a fresh module. *)
Definition no_cursors : StockCursors :=
  {| stock_cursors := fun _ => None; created := 0%nat |}.

Definition sample_toolkit : Toolkit :=
  {| new_control := fun _ => sample_window 0 0 80 60;
     new_best_size := fun _ => (80, 60) |}.

(** An editor of the sample canvas that has been initialised. *)
Definition sample_editor : @Editor integral_floats :=
  {| list_canvas := sample_world 8 drag normal; next_item := 3%nat;
     _inited := true; later := 0%nat; toolkit := sample_toolkit |}.

End Canvas.

(** ** The adapter: attribute resolution with a handler cache *)

Module Adapter.

Local Open Scope string_scope.

(** The values the adapter's traits hold.  A pair of floats is kept when
    both have an integral value; [VAdapters] and [VCache] are the list
    object held by the trait [adapters] and the dict object held by the
    trait [cache], whatever they contain. *)
Inductive Value :=
  | VNone
  | VBool (b : bool)
  | VStr (s : string)
  | VTheme (name : string)
  | VObj (o : nat)
  | VFloats (x y : Z)
  | VAdapters
  | VCache.

#[global] Instance Value_eq_dec : EqDecision Value.
Proof. solve_decision. Defined.

(** What an ATheme trait can hold: a Theme or [None]. *)
Definition is_theme (v : Value) : Prop :=
  match v with
  | VNone | VTheme _ => True
  | _ => False
  end.

(** A class: its [__name__] and the [__name__] of each class of its
    [__mro__], the class itself first. *)
Record PyClass := {
  cls_name : string;
  cls_mro : list string
}.

(** An application object as [_result_for] uses it: its identity, its
    class, whether it implements IListCanvasItem, and its traits
    ([item.trait( n ) is not None] iff [n] is a key; the value is what
    [getattr] gives). *)
Record HasTraits := {
  oid : nat;
  cls : PyClass;
  implements_IListCanvasItem : bool;
  traits : gmap string Value
}.

(** The value of a trait of an adapter depends on the [item] and [drop]
    the adapter currently holds. *)
Definition trait_impl (A : Type) := option HasTraits -> option HasTraits -> A.

(** A trait of an adapter, as [getattr] sees it: one that can be read, or
    an Event, which can only be set. *)
Inductive Trait :=
  | Readable (f : trait_impl Value)
  | WriteOnly.

(** The value of a trait that holds an application object or [None]. *)
Definition obj_value (o : option HasTraits) : Value :=
  match o with
  | Some o => VObj (oid o)
  | None => VNone
  end.

(** A sub-adapter (IListCanvasAdapter): the [item] and [drop] it holds,
    its [accepts] and [is_cacheable], and its traits by name
    ([adapter.trait( n ) is not None] iff [n] is a key). *)
Record SubAdapter := {
  sa_item : option HasTraits;
  sa_drop : option HasTraits;
  accepts : trait_impl bool;
  is_cacheable : bool;
  sa_traits : gmap string Trait
}.

(** The handlers [_result_for] builds.  A handler on a sub-adapter captures
    the adapter object, here its index in [adapters]; the cache is flushed
    whenever that list changes. *)
Inductive Handler :=
  | sub_get (i : nat) (trait_name : string)
  | sub_set (i : nat) (trait_name : string)
  | self_get (name : string)
  | self_set (name : string).

#[global] Instance Handler_eq_dec : EqDecision Handler.
Proof. solve_decision. Defined.

(** Assignments made to objects other than the adapter and its
    sub-adapters' [item] and [drop]. *)
Inductive event :=
  | EvItemSet (o : nat) (name : string)          (* setattr( item, name, True ) *)
  | EvItemDrop (o : nat) (d : option nat)        (* item.list_canvas_item_drop = drop *)
  | EvSubSet (i : nat) (name : string)           (* setattr( adapter, name, True ) *)
  | EvSelfSet (name : string).                   (* setattr( self, name, True ) *)

(** class ListCanvasAdapter: the current [item] and [drop], the
    sub-adapters, the handler cache, and the traits of the adapter itself
    by name, those of the class and of its subclasses
    ([self.trait( n ) is not None] iff [n] is a key). *)
Record ListCanvasAdapter := {
  item : option HasTraits;
  drop : option HasTraits;
  adapters : list SubAdapter;
  cache : gmap string (option Handler);
  own_traits : gmap string Trait;
  trace : list event
}.

(** Truth value testing, as [or] applies it to a value the adapter [a]
    returned.  A Theme instance and an application object define neither
    [__len__] nor [__nonzero__]; a tuple, a list and a dict are true when
    they are not empty. *)
Definition truthy (a : ListCanvasAdapter) (v : Value) : bool :=
  match v with
  | VNone => false
  | VBool b => b
  | VStr s => negb (bool_decide (s = EmptyString))
  | VTheme _ => true
  | VObj _ => true
  | VFloats _ _ => true
  | VAdapters => negb (bool_decide (adapters a = []))
  | VCache => negb (bool_decide (cache a = ∅))
  end.

Definition with_cache (a : ListCanvasAdapter) (c : gmap string (option Handler))
    : ListCanvasAdapter :=
  {| item := item a; drop := drop a; adapters := adapters a; cache := c;
     own_traits := own_traits a; trace := trace a |}.

Definition with_adapters (a : ListCanvasAdapter) (l : list SubAdapter)
    : ListCanvasAdapter :=
  {| item := item a; drop := drop a; adapters := l; cache := cache a;
     own_traits := own_traits a; trace := trace a |}.

Definition with_item_drop (a : ListCanvasAdapter) (i d : option HasTraits)
    : ListCanvasAdapter :=
  {| item := i; drop := d; adapters := adapters a; cache := cache a;
     own_traits := own_traits a; trace := trace a |}.

Definition emit (a : ListCanvasAdapter) (e : list event) : ListCanvasAdapter :=
  {| item := item a; drop := drop a; adapters := adapters a; cache := cache a;
     own_traits := own_traits a; trace := trace a ++ e |}.

(** [adapter.set( item = i, drop = d )] and the two assignments at the head
    of the scan loop. *)
Definition sub_set_item_drop (s : SubAdapter) (i d : option HasTraits) : SubAdapter :=
  {| sa_item := i; sa_drop := d; accepts := accepts s;
     is_cacheable := is_cacheable s; sa_traits := sa_traits s |}.

(** ListCanvasAdapter._on_adapters_changed, with the assignment that
    triggers it. *)
Definition set_adapters (a : ListCanvasAdapter) (l : list SubAdapter)
    : ListCanvasAdapter :=
  with_cache (with_adapters a l) ∅.

(** Calling a handler.  Reading an Event fails, as does reading a trait
    the object does not have. *)
Definition invoke (a : ListCanvasAdapter) (h : Handler)
    : res (Value * ListCanvasAdapter) :=
  match h with
  | sub_get i trait_name =>
      match adapters a !! i with
      | Some s =>
          let s := sub_set_item_drop s (item a) (drop a) in
          let a := with_adapters a (<[ i := s ]> (adapters a)) in
          match sa_traits s !! trait_name with
          | Some (Readable f) => Ok (f (sa_item s) (sa_drop s), a)
          | Some WriteOnly => Raise AttributeError
          | None => Raise AttributeError
          end
      | None => Raise AttributeError
      end
  | sub_set i trait_name =>
      match adapters a !! i with
      | Some s =>
          let s := sub_set_item_drop s (item a) (drop a) in
          let a := with_adapters a (<[ i := s ]> (adapters a)) in
          Ok (VNone, emit a [EvSubSet i trait_name])
      | None => Raise AttributeError
      end
  | self_get name =>
      match own_traits a !! name with
      | Some (Readable f) => Ok (f (item a) (drop a), a)
      | Some WriteOnly => Raise AttributeError
      | None => Raise AttributeError
      end
  | self_set name => Ok (VNone, emit a [EvSelfSet name])
  end.

(** Calling what the cache or the lookup produced, which may be [None]. *)
Definition call (a : ListCanvasAdapter) (h : option Handler)
    : res (Value * ListCanvasAdapter) :=
  match h with
  | Some h => invoke a h
  | None => Raise TypeError
  end.

(** ListCanvasAdapter._get_handler_for *)
Definition _get_handler_for (a : ListCanvasAdapter) (name prefix : string)
    : option Handler :=
  if bool_decide (is_Some (own_traits a !! name)) then
    if bool_decide (prefix = "get_") then Some (self_get name)
    else Some (self_set name)
  else None.

(** How the scan over the sub-adapters ends: with [break] on a cacheable
    handler, with [return handler()] on one that is not, or by running off
    the end of the list. *)
Inductive scan_end :=
  | scan_break (h : Handler)
  | scan_return (h : Handler)
  | scan_else.

(** The [for i, adapter in enumerate( self.adapters )] loop of
    [_result_for], from index [i] on; it returns the sub-adapters as the
    loop leaves them. *)
Fixpoint scan (prefix trait_name : string) (it : HasTraits)
    (dr : option HasTraits) (i : nat) (l : list SubAdapter)
    : list SubAdapter * scan_end :=
  match l with
  | [] => ([], scan_else)
  | adapter :: l' =>
      let adapter := sub_set_item_drop adapter (Some it) dr in
      if accepts adapter (sa_item adapter) (sa_drop adapter) &&
         bool_decide (is_Some (sa_traits adapter !! trait_name)) then
        let handler :=
          if bool_decide (prefix = "get_") then sub_get i trait_name
          else sub_set i trait_name in
        if is_cacheable adapter then (adapter :: l', scan_break handler)
        else (adapter :: l', scan_return handler)
      else
        let '(l'', e) := scan prefix trait_name it dr (S i) l' in
        (adapter :: l'', e)
  end.

(** The search for a specialised handler along the item's mro. *)
Fixpoint mro_handler (a : ListCanvasAdapter) (trait_name prefix : string)
    (mro : list string) : option Handler :=
  match mro with
  | [] => _get_handler_for a trait_name prefix
  | klass :: mro' =>
      match _get_handler_for a (klass +:+ "_" +:+ trait_name) prefix with
      | Some h => Some h
      | None => mro_handler a trait_name prefix mro'
      end
  end.

(** The part of [_result_for] that follows a cache miss: the resolution of
    a handler, its caching when it may be cached, and its call. *)
Definition resolve (a : ListCanvasAdapter) (key prefix trait_name : string)
    (it : HasTraits) (dr : option HasTraits) : res (Value * ListCanvasAdapter) :=
  let '(l, e) := scan prefix trait_name it dr 0 (adapters a) in
  let a := with_adapters a l in
  match e with
  | scan_return handler => invoke a handler
  | scan_break handler =>
      let a := with_cache a (<[ key := Some handler ]> (cache a)) in
      invoke a handler
  | scan_else =>
      let handler := mro_handler a trait_name prefix (cls_mro (cls it)) in
      let a := with_cache a (<[ key := handler ]> (cache a)) in
      call a handler
  end.

(** ListCanvasAdapter._result_for *)
Definition _result_for (a : ListCanvasAdapter) (name : string) (it : HasTraits)
    (dr : option HasTraits) : res (Value * ListCanvasAdapter) :=
  let prefix := String.substring 0 4 name in
  let trait_name := String.substring 4 (String.length name - 4)%nat name in
  let lci_name := "list_canvas_item_" +:+ trait_name in
  match (if implements_IListCanvasItem it then traits it !! lci_name else None) with
  | Some v =>
      if bool_decide (prefix = "get_") then
        if bool_decide (trait_name = "can_drop") &&
           bool_decide (is_Some (traits it !! "list_canvas_item_drop"))
        then Ok (v, emit a [EvItemDrop (oid it) (oid <$> dr)])
        else Ok (v, a)
      else Ok (VNone, emit a [EvItemSet (oid it) lci_name])
  | None =>
      let a := with_item_drop a (Some it) dr in
      let key := cls_name (cls it) +:+ ":" +:+ name in
      match cache a !! key with
      | Some (Some handler) => invoke a handler
      | _ => resolve a key prefix trait_name it dr
      end
  end.

(** ListCanvasAdapter.get_theme_active *)
Definition get_theme_active (a : ListCanvasAdapter) (it : HasTraits)
    : res (Value * ListCanvasAdapter) :=
  _result_for a "get_theme_active" it None.

(** ListCanvasAdapter.get_theme_inactive: [r1 or r2], the second operand
    being evaluated only when the first is false. *)
Definition get_theme_inactive (a : ListCanvasAdapter) (it : HasTraits)
    : res (Value * ListCanvasAdapter) :=
  '(r, a) ← _result_for a "get_theme_inactive" it None;
  if truthy a r then Ok (r, a)
  else _result_for a "get_theme_active" it None.

(** ListCanvasAdapter.get_theme_hover *)
Definition get_theme_hover (a : ListCanvasAdapter) (it : HasTraits)
    : res (Value * ListCanvasAdapter) :=
  '(r, a) ← _result_for a "get_theme_hover" it None;
  if truthy a r then Ok (r, a)
  else
    '(r, a) ← _result_for a "get_theme_inactive" it None;
    if truthy a r then Ok (r, a)
    else _result_for a "get_theme_active" it None.

(** ListCanvasAdapter.get_title *)
Definition get_title (a : ListCanvasAdapter) (it : HasTraits)
    : res (Value * ListCanvasAdapter) :=
  _result_for a "get_title" it None.

(** *** Vocabulary of the properties *)

(** The value a call returned and the adapter it left. *)
Definition value_of (r : res (Value * ListCanvasAdapter)) : res Value :=
  match r with
  | Ok (v, _) => Ok v
  | Raise e => Raise e
  end.

Definition adapter_after (a : ListCanvasAdapter)
    (r : res (Value * ListCanvasAdapter)) : ListCanvasAdapter :=
  match r with
  | Ok (_, a') => a'
  | Raise _ => a
  end.

(** A resolution that does not consult the cache. *)
Definition fresh_result_for (a : ListCanvasAdapter) (name : string)
    (it : HasTraits) (dr : option HasTraits) : res (Value * ListCanvasAdapter) :=
  _result_for (with_cache a ∅) name it dr.

(** The sub-adapter's [accepts] depends only on the class of the item. *)
Definition accepts_by_type (s : SubAdapter) : Prop :=
  forall it1 it2 d1 d2, cls it1 = cls it2 ->
    accepts s (Some it1) d1 = accepts s (Some it2) d2.

(** Two sub-adapters that differ at most in the [item] and [drop] they
    hold. *)
Definition same_behaviour (s s' : SubAdapter) : Prop :=
  accepts s = accepts s' /\ is_cacheable s = is_cacheable s' /\
  sa_traits s = sa_traits s'.

(** No sub-adapter of [l] both accepts the item and has the trait. *)
Definition none_handles (l : list SubAdapter) (trait_name : string)
    (it : HasTraits) (dr : option HasTraits) : Prop :=
  forall s, s ∈ l ->
    accepts s (Some it) dr && bool_decide (is_Some (sa_traits s !! trait_name)) = false.

(** *** Sample data *)

Definition Person : PyClass :=
  {| cls_name := "Person"; cls_mro := ["Person"; "HasTraits"; "CHasTraits"; "object"] |}.

Definition person (n : nat) : HasTraits :=
  {| oid := n; cls := Person; implements_IListCanvasItem := false; traits := ∅ |}.

(** The traits the interface IListCanvasAdapter gives every sub-adapter. *)
Definition interface_traits (acc : trait_impl bool) (cacheable : bool)
    : gmap string Trait :=
  {[ "item" := Readable (fun it _ => obj_value it);
     "drop" := Readable (fun _ dr => obj_value dr);
     "accepts" := Readable (fun it dr => VBool (acc it dr));
     "is_cacheable" := Readable (fun _ _ => VBool cacheable) ]}.

(** A sub-adapter with a title of its own. *)
Definition sub_adapter (acc : trait_impl bool) (cacheable : bool) (title : string)
    : SubAdapter :=
  {| sa_item := None; sa_drop := None;
     accepts := acc; is_cacheable := cacheable;
     sa_traits :=
       <[ "title" := Readable (fun _ _ => VStr title) ]>
         (interface_traits acc cacheable) |}.

(** A sub-adapter that is not cacheable: it accepts only the person 2. *)
Definition picky : SubAdapter :=
  sub_adapter (fun it _ => bool_decide (oid <$> it = Some 2%nat)) false "A".

(** A cacheable sub-adapter that accepts every item. *)
Definition general : SubAdapter :=
  sub_adapter (fun _ _ => true) true "B".

(** The traits the class ListCanvasAdapter declares, with their default
    values; [closed], [activated] and [deactivated] are Events. *)
Definition declared_traits : gmap string Trait :=
  list_to_map
    [("theme_active", Readable (fun _ _ => VTheme "default_active"));
     ("theme_inactive", Readable (fun _ _ => VTheme "default_inactive"));
     ("theme_hover", Readable (fun _ _ => VTheme "default_hover"));
     ("title", Readable (fun _ _ => VStr EmptyString));
     ("unique_id", Readable (fun _ _ => VStr EmptyString));
     ("can_move", Readable (fun _ _ => VBool true));
     ("can_resize", Readable (fun _ _ => VBool true));
     ("can_drop", Readable (fun _ _ => VBool false));
     ("can_delete", Readable (fun _ _ => VBool false));
     ("can_close", Readable (fun _ _ => VBool true));
     ("can_drag", Readable (fun _ _ => VBool false));
     ("drag", Readable (fun _ _ => VNone));
     ("can_clone", Readable (fun _ _ => VBool true));
     ("clone", Readable (fun _ _ => VNone));
     ("view", Readable (fun _ _ => VNone));
     ("view_model", Readable (fun _ _ => VNone));
     ("size", Readable (fun _ _ => VFloats 0 0));
     ("position", Readable (fun _ _ => VFloats 0 0));
     ("tooltip", Readable (fun _ _ => VStr EmptyString));
     ("closed", WriteOnly);
     ("activated", WriteOnly);
     ("deactivated", WriteOnly);
     ("status", Readable (fun _ _ => VStr EmptyString));
     ("item", Readable (fun it _ => obj_value it));
     ("drop", Readable (fun _ dr => obj_value dr));
     ("adapters", Readable (fun _ _ => VAdapters));
     ("cache", Readable (fun _ _ => VCache))].

(** The traits of a subclass that sets [theme_inactive] and [theme_hover]
    to [None], leaving both themes to the fallbacks. *)
Definition base_traits : gmap string Trait :=
  <[ "theme_inactive" := Readable (fun _ _ => VNone) ]>
    (<[ "theme_hover" := Readable (fun _ _ => VNone) ]> declared_traits).

Definition sample_adapter (subs : list SubAdapter) : ListCanvasAdapter :=
  {| item := None; drop := None; adapters := subs; cache := ∅;
     own_traits := base_traits; trace := [] |}.

(** A person that implements IListCanvasItem and has a title of its own. *)
Definition titled (n : nat) : HasTraits :=
  {| oid := n; cls := Person; implements_IListCanvasItem := true;
     traits := {[ "list_canvas_item_title" := VStr "T" ]} |}.

(** An adapter of a subclass with a title for persons. *)
Definition person_adapter : ListCanvasAdapter :=
  {| item := None; drop := None; adapters := []; cache := ∅;
     own_traits := <[ "Person_title" := Readable (fun _ _ => VStr "P") ]> base_traits;
     trace := [] |}.

End Adapter.

(** ** Properties of the canvas *)

Module CanvasProofs.

Import Canvas.

Section proofs.
Context `{!DictOrder} `{!FloatOps} `{!TraitNotification}.

(** Decides every [decide] and [bool_decide] of the goal whose proposition
    linear arithmetic settles from the hypotheses. *)
Ltac settle_decisions :=
  repeat first
    [ rewrite decide_True by lia
    | rewrite decide_False by lia
    | rewrite bool_decide_eq_true_2 by lia
    | rewrite bool_decide_eq_false_2 by lia ];
  simpl.

(** *** Snapping *)

Lemma keys_elem_of (s : gset Z) (v : Z) : v ∈ keys s <-> v ∈ s.
Proof. rewrite (keys_perm s). apply elem_of_elements. Qed.

(** What the loop over the guide lines leaves: a distance that never grew,
    and either the delta it started with or the delta onto a guide line at
    exactly that distance. *)
Lemma snap_guides_spec (t p : Z) (ks : list Z) (snap d : Z) :
  fst (snap_guides t p ks snap d) <= snap /\
  (snap_guides t p ks snap d = (snap, d) \/
   exists p0, p0 ∈ ks /\ snd (snap_guides t p ks snap d) = p0 - p /\
              abs (t - p0) = fst (snap_guides t p ks snap d)).
Proof.
  unfold snap_guides. revert snap d.
  induction ks as [|k ks IH]; intros snap d; simpl.
  - split; [lia | by left].
  - destruct (decide (abs (t - k) <= snap)) as [Hle|Hgt].
    + destruct (IH (abs (t - k)) (k - p)) as [Hfst Hor]. split; [lia|].
      right. destruct Hor as [Heq | (p0 & Hin & Hsnd & Habs)].
      * exists k. rewrite Heq. simpl. split; [apply list_elem_of_here | done].
      * exists p0. split; [by apply list_elem_of_further | done].
    + destruct (IH snap d) as [Hfst Hor]. split; [done|].
      destruct Hor as [Heq | (p0 & Hin & Hsnd & Habs)]; [by left|].
      right. exists p0. split; [by apply list_elem_of_further | done].
Qed.

Lemma snap_x_axis c x dx : snap_x c x dx = snap_axis fst c x dx.
Proof. reflexivity. Qed.

Lemma snap_y_axis c y dy : snap_y c y dy = snap_axis snd c y dy.
Proof. reflexivity. Qed.

Lemma snap_axis_off sel c p d :
  distance (snap_info c) = 0 -> snap_axis sel c p d = Ok d.
Proof. intros Hoff. unfold snap_axis. by rewrite decide_True. Qed.

Lemma snap_axis_guides sel c p d d' :
  0 < distance (snap_info c) ->
  (if guide_snapping (guide_info c) then
     g ← unpack (_drag_guides c);
     Ok (snd (snap_guides (p + d) p (keys (sel g)) (distance (snap_info c)) d))
   else Ok d) = Ok d' ->
  d' <> d ->
  (guide_snapping (guide_info c) = true /\ on_drag_guide sel c (p + d')) /\
  Z.abs ((p + d) - (p + d')) <= distance (snap_info c).
Proof.
  intros Hpos Hres Hne.
  destruct (guide_snapping (guide_info c)); [|congruence].
  destruct (_drag_guides c) as [g|] eqn:Hg; simpl in Hres; [|done].
  injection Hres as Hres.
  destruct (snap_guides_spec (p + d) p (keys (sel g)) (distance (snap_info c)) d)
    as [Hle [Heq | (p0 & Hin & Hsnd & Habs)]].
  - rewrite Heq in Hres. simpl in Hres. congruence.
  - rewrite Hsnd in Hres. subst d'. unfold abs in Habs.
    split; [split; [done|]|].
    + exists g. split; [done|]. apply keys_elem_of.
      by replace (p + (p0 - p)) with p0 by lia.
    + replace (p + d - (p + (p0 - p))) with (p + d - p0) by lia. lia.
Qed.

Lemma snap_axis_sound sel c p d d' :
  0 < distance (snap_info c) ->
  snap_axis sel c p d = Ok d' ->
  d' <> d ->
  ((grid_snapping (grid_info c) = true /\ on_grid (grid_info c) (p + d')) \/
   (guide_snapping (guide_info c) = true /\ on_drag_guide sel c (p + d'))) /\
  Z.abs ((p + d) - (p + d')) <= distance (snap_info c).
Proof.
  intros Hpos Hres Hne. unfold snap_axis in Hres.
  rewrite decide_False in Hres by lia.
  destruct (grid_snapping (grid_info c)) eqn:Hgrid.
  - unfold floordiv in Hres.
    destruct (decide (size (grid_info c) = 0)) as [|Hsz]; [done|].
    simpl in Hres. unfold abs in Hres.
    set (n := Z.div (p + d - offset (grid_info c)) (size (grid_info c))) in *.
    destruct (decide _) as [Hnear|Hfar] in Hres.
    { injection Hres as <-. split.
      - left. split; [done|]. exists n. lia.
      - replace (p + d - (p + (n * size (grid_info c) + offset (grid_info c) - p)))
          with (p + d - (n * size (grid_info c) + offset (grid_info c))) by lia.
        done. }
    destruct (decide _) as [Hnear'|Hfar'] in Hres.
    { injection Hres as <-. split.
      - left. split; [done|]. exists (n + 1). lia.
      - replace (p + d - (p + (n * size (grid_info c) + offset (grid_info c)
                               + size (grid_info c) - p)))
          with (p + d - (n * size (grid_info c) + offset (grid_info c)
                         + size (grid_info c))) by lia.
        done. }
    destruct (snap_axis_guides sel c p d d' Hpos Hres Hne) as [Hg Hd].
    split; [by right | done].
  - destruct (snap_axis_guides sel c p d d' Hpos Hres Hne) as [Hg Hd].
    split; [by right | done].
Qed.

(** Snapping returns a delta whenever the grid cell size is not zero and,
    when guide snapping is on, the guide lines of the drag are set. *)
Lemma snap_axis_returns sel c p d :
  size (grid_info c) <> 0 ->
  (guide_snapping (guide_info c) = true -> is_Some (_drag_guides c)) ->
  exists d', snap_axis sel c p d = Ok d'.
Proof.
  intros Hsz Hg. unfold snap_axis.
  destruct (decide _); [by eexists|].
  assert (exists d',
    (if guide_snapping (guide_info c) then
       g ← unpack (_drag_guides c);
       Ok (snd (snap_guides (p + d) p (keys (sel g)) (distance (snap_info c)) d))
     else Ok d) = Ok d') as Hguides.
  { destruct (guide_snapping (guide_info c)); [|by eexists].
    destruct Hg as [g ->]; [done|]. simpl. by eexists. }
  destruct (grid_snapping (grid_info c)); [|done].
  unfold floordiv. rewrite decide_False by done. simpl.
  destruct (decide _); [by eexists|].
  destruct (decide _); [by eexists|]. done.
Qed.

(** C1.  With a snap distance of 0, [snap_x] and [snap_y] return the delta
    they were given.  With a positive snap distance [d], a returned delta
    that differs from the one given puts the edge exactly on a grid line
    (grid snapping being on) or on a guide line of the current drag (guide
    snapping being on), at most [d] pixels from where the unsnapped delta
    would have put it. *)
Theorem snap_sound (c : ListCanvas) (p dp : Z) :
  (distance (snap_info c) = 0 ->
     snap_x c p dp = Ok dp /\ snap_y c p dp = Ok dp) /\
  (forall dp', 0 < distance (snap_info c) -> snap_x c p dp = Ok dp' -> dp' <> dp ->
     ((grid_snapping (grid_info c) = true /\ on_grid (grid_info c) (p + dp')) \/
      (guide_snapping (guide_info c) = true /\ on_drag_guide fst c (p + dp'))) /\
     Z.abs ((p + dp) - (p + dp')) <= distance (snap_info c)) /\
  (forall dp', 0 < distance (snap_info c) -> snap_y c p dp = Ok dp' -> dp' <> dp ->
     ((grid_snapping (grid_info c) = true /\ on_grid (grid_info c) (p + dp')) \/
      (guide_snapping (guide_info c) = true /\ on_drag_guide snd c (p + dp'))) /\
     Z.abs ((p + dp) - (p + dp')) <= distance (snap_info c)).
Proof.
  split; [|split].
  - intros Hoff. rewrite snap_x_axis, snap_y_axis. by rewrite !snap_axis_off.
  - intros dp'. rewrite snap_x_axis. apply snap_axis_sound.
  - intros dp'. rewrite snap_y_axis. apply snap_axis_sound.
Qed.

(** *** Guide lines *)

Lemma foldM_cons {A B : Type} (f : B -> A -> res B) (a : A) (l : list A) (b : B) :
  foldM f (a :: l) b = f b a ≫= foldM f l.
Proof. reflexivity. Qed.

Lemma bind_Ok {A B : Type} (m : res A) (k : A -> res B) (b : B) :
  m ≫= k = Ok b -> exists a, m = Ok a /\ k a = Ok b.
Proof. destruct m as [a|e]; simpl; [by exists a | done]. Qed.

Lemma guide_lines_step_Ok (h : item_ref -> ListCanvasItem) (skip : option item_ref)
    (acc acc' : gset Z * gset Z) (a : item_ref) :
  guide_lines_step h skip acc a = Ok acc' ->
  (Some a = skip /\ acc' = acc) \/
  (Some a <> skip /\ exists ctl, control (h a) = Some ctl /\
     acc' = ({[ fst (wx_position ctl) + fst (wx_size ctl) ]} ∪
               ({[ fst (wx_position ctl) ]} ∪ fst acc),
             {[ snd (wx_position ctl) + snd (wx_size ctl) ]} ∪
               ({[ snd (wx_position ctl) ]} ∪ snd acc))).
Proof.
  unfold guide_lines_step, item_position, item_size.
  destruct (decide (Some a = skip)) as [Hskip|Hkeep].
  - intros [= <-]. by left.
  - destruct (control (h a)) as [ctl|]; simpl; [|done].
    destruct (wx_position ctl) as [x y] eqn:Hp, (wx_size ctl) as [dx dy] eqn:Hs,
      acc as [xs ys].
    simpl. intros Heq. injection Heq as <-. right. split; [done|]. exists ctl.
    by rewrite Hp, Hs.
Qed.

Lemma guide_lines_fold (h : item_ref -> ListCanvasItem) (skip : option item_ref)
    (l : list item_ref) (acc : gset Z * gset Z) (xs ys : gset Z) :
  foldM (guide_lines_step h skip) l acc = Ok (xs, ys) ->
  (forall v, v ∈ xs <->
     v ∈ fst acc \/
     exists r ctl, r ∈ l /\ Some r <> skip /\ control (h r) = Some ctl /\
       (v = fst (wx_position ctl) \/ v = fst (wx_position ctl) + fst (wx_size ctl))) /\
  (forall v, v ∈ ys <->
     v ∈ snd acc \/
     exists r ctl, r ∈ l /\ Some r <> skip /\ control (h r) = Some ctl /\
       (v = snd (wx_position ctl) \/ v = snd (wx_position ctl) + snd (wx_size ctl))).
Proof.
  revert acc. induction l as [|a l IH]; intros acc Hfold.
  - injection Hfold as ->. simpl.
    split; intros v; split; try tauto;
      intros [Hv | (r & ctl & Hin & _)]; try done; by apply elem_of_nil in Hin.
  - rewrite foldM_cons in Hfold.
    apply bind_Ok in Hfold as (acc' & Hstep & Hfold).
    destruct (IH _ Hfold) as [IHx IHy].
    apply guide_lines_step_Ok in Hstep
      as [[Hskip ->] | (Hkeep & ctl & Hctl & ->)].
    + split; intros v; [rewrite IHx | rewrite IHy];
        (split; intros [Hv | (r & ctl & Hin & Hne & Hctl & Hedge)];
          [by left
          |right; exists r, ctl; split; [by apply list_elem_of_further | done]
          |by left
          |right; exists r, ctl; apply elem_of_cons in Hin as [-> | Hin]; done]).
    + simpl in IHx, IHy.
      split; intros v; [rewrite IHx | rewrite IHy].
      * rewrite !elem_of_union, !elem_of_singleton. split.
        -- intros [[Hv | [Hv | Hv]] | (r & ctl' & Hin & Hne & Hctl' & Hedge)].
           ++ right. exists a, ctl.
              split; [apply list_elem_of_here | split; [done | split; [done | by right]]].
           ++ right. exists a, ctl.
              split; [apply list_elem_of_here | split; [done | split; [done | by left]]].
           ++ by left.
           ++ right. exists r, ctl'. split; [by apply list_elem_of_further | done].
        -- intros [Hv | (r & ctl' & Hin & Hne & Hctl' & Hedge)]; [tauto|].
           apply elem_of_cons in Hin as [-> | Hin].
           ++ rewrite Hctl in Hctl'. injection Hctl' as <-. tauto.
           ++ right. by exists r, ctl'.
      * rewrite !elem_of_union, !elem_of_singleton. split.
        -- intros [[Hv | [Hv | Hv]] | (r & ctl' & Hin & Hne & Hctl' & Hedge)].
           ++ right. exists a, ctl.
              split; [apply list_elem_of_here | split; [done | split; [done | by right]]].
           ++ right. exists a, ctl.
              split; [apply list_elem_of_here | split; [done | split; [done | by left]]].
           ++ by left.
           ++ right. exists r, ctl'. split; [by apply list_elem_of_further | done].
        -- intros [Hv | (r & ctl' & Hin & Hne & Hctl' & Hedge)]; [tauto|].
           apply elem_of_cons in Hin as [-> | Hin].
           ++ rewrite Hctl in Hctl'. injection Hctl' as <-. tauto.
           ++ right. by exists r, ctl'.
Qed.

Lemma guide_lines_fold_returns (h : item_ref -> ListCanvasItem)
    (skip : option item_ref) (l : list item_ref) (acc : gset Z * gset Z) :
  (forall r, r ∈ l -> is_Some (control (h r))) ->
  exists g, foldM (guide_lines_step h skip) l acc = Ok g.
Proof.
  revert acc. induction l as [|a l IH]; intros acc Hlive.
  - by eexists.
  - rewrite foldM_cons.
    assert (forall r, r ∈ l -> is_Some (control (h r))) as Hlive'.
    { intros r Hr. apply Hlive. by apply list_elem_of_further. }
    assert (exists acc', guide_lines_step h skip acc a = Ok acc') as [acc' ->].
    { unfold guide_lines_step, item_position, item_size.
      destruct (decide (Some a = skip)); [by eexists|].
      destruct (Hlive a) as [ctl ->]; [apply list_elem_of_here|]. simpl.
      destruct (wx_position ctl), (wx_size ctl), acc. simpl. by eexists. }
    simpl. by apply IH.
Qed.

Lemma guide_lines_zero (w : World) (xs ys : gset Z) :
  _guide_lines w = Ok (xs, ys) -> 0 ∈ xs.
Proof.
  unfold _guide_lines. destruct (canvas_size (lc w)) as [dx dy].
  intros Hres. apply (proj1 (guide_lines_fold _ _ _ _ _ _ Hres)).
  left. simpl. set_solver.
Qed.

Lemma guide_lines_returns (w : World) :
  live_items w -> exists g, _guide_lines w = Ok g.
Proof.
  unfold _guide_lines. destruct (canvas_size (lc w)) as [dx dy].
  apply guide_lines_fold_returns.
Qed.

(** C2.  The x set (resp. y set) that [_guide_lines] returns consists
    exactly of 0, the canvas width (resp. height) minus 1, and the left and
    right (resp. top and bottom) edges of every item on the canvas other
    than the one being dragged; and it does return when every item has its
    control. *)
Theorem guide_lines_exact (w : World) :
  (forall xs ys, _guide_lines w = Ok (xs, ys) ->
     (forall v, v ∈ xs <->
        v = 0 \/ v = fst (canvas_size (lc w)) - 1 \/ item_edge_x w v) /\
     (forall v, v ∈ ys <->
        v = 0 \/ v = snd (canvas_size (lc w)) - 1 \/ item_edge_y w v)) /\
  (live_items w -> exists xs ys, _guide_lines w = Ok (xs, ys)).
Proof.
  unfold _guide_lines, item_edge_x, item_edge_y.
  destruct (canvas_size (lc w)) as [dx dy]. simpl. split.
  - intros xs ys Hres. apply guide_lines_fold in Hres as [Hx Hy]. simpl in Hx, Hy.
    split; intros v; [rewrite Hx | rewrite Hy];
      rewrite elem_of_union, !elem_of_singleton; tauto.
  - intros Hlive.
    destruct (guide_lines_fold_returns (heap w) (_drag_item (lc w)) (items (lc w))
                ({[0; dx - 1]}, {[0; dy - 1]}) Hlive) as [[xs ys] Hg].
    by exists xs, ys.
Qed.

(** *** Snapping during a drag *)

(** What [begin_drag] leaves: the canvas is dragging the item, and the
    guide lines of the drag are set when snapping onto them is on. *)
Lemma begin_drag_state (w w' : World) (item : item_ref) (mode x y : Z) :
  begin_drag w item mode x y = Ok w' ->
  lc_state (lc w') = dragging /\ _drag_item (lc w') = Some item /\
  snap_info (lc w') = snap_info (lc w) /\
  guide_info (lc w') = guide_info (lc w) /\
  grid_info (lc w') = grid_info (lc w) /\
  (0 < distance (snap_info (lc w)) -> guide_snapping (guide_info (lc w)) = true ->
   is_Some (_drag_guides (lc w'))).
Proof.
  unfold begin_drag. destruct (_event_xy (lc w) x y) as [ex ey].
  intros Hres.
  apply bind_Ok in Hres as ([x0 y0] & _ & Hres).
  apply bind_Ok in Hres as ([dx dy] & _ & Hres).
  destruct (canvas_position (lc w)) as [x1 y1]. simpl in Hres.
  destruct (bool_decide (distance (snap_info (lc w)) > 0)) eqn:Hd;
    destruct (guide_snapping (guide_info (lc w))) eqn:Hg; simpl in Hres.
  - apply bind_Ok in Hres as (g & _ & Hres). injection Hres as <-. simpl.
    repeat split; done.
  - injection Hres as <-. simpl. repeat split; done.
  - injection Hres as <-. simpl. repeat split; try done.
    intros Hpos. apply bool_decide_eq_false in Hd. lia.
  - injection Hres as <-. simpl. repeat split; done.
Qed.

(** After [begin_drag], [snap_x] and [snap_y] return. *)
Lemma snap_returns_in_drag (w w' : World) (item : item_ref) (mode x y p d : Z) :
  begin_drag w item mode x y = Ok w' ->
  size (grid_info (lc w)) <> 0 ->
  0 <= distance (snap_info (lc w)) ->
  (exists d', snap_x (lc w') p d = Ok d') /\ (exists d', snap_y (lc w') p d = Ok d').
Proof.
  intros Hdrag Hsz Hdist.
  apply begin_drag_state in Hdrag as (_ & _ & Hsnap & Hguide & Hgrid & Hguides).
  rewrite snap_x_axis, snap_y_axis.
  destruct (decide (distance (snap_info (lc w)) = 0)) as [Hoff|Hon].
  - rewrite !snap_axis_off by congruence. split; by eexists.
  - split; apply snap_axis_returns; rewrite ?Hgrid, ?Hguide; try done;
      intros Hg; apply Hguides; (lia || done).
Qed.

(** *** Resize-mode decoding *)

(** C3.  For an item of size [(dx, dy)], [_set_cursor] returns the mode the
    clauses of its description give when they are tried in order: 0 outside
    the item; with resizing permitted 15, 7, 5 on the left band, 11, 3, 1 on
    the right band, 10 and 2 on the top and bottom bands alone; 12 when no
    resize mode applies, moving is permitted and [y] is in the title band of
    the theme; 0 otherwise. *)
Theorem cursor_mode_decoding (a : AdapterView) (it : ListCanvasItem) (dx dy x y : Z) :
  item_size it = Ok (dx, dy) ->
  exists cursor,
    _set_cursor a it x y =
      Ok (set_cursor_mode_cascade (get_can_resize a (object it))
            (get_can_move a (object it)) (image_slice (theme it)) dx dy x y,
          cursor).
Proof.
  intros Hsz. unfold _set_cursor, set_cursor_mode_cascade. rewrite Hsz. simpl.
  destruct (decide (0 <= x /\ x < dx /\ 0 <= y /\ y < dy)) as [Hin|Hout];
    [|settle_decisions; by eexists].
  destruct (get_can_resize a (object it)), (get_can_move a (object it));
    destruct (decide (x < 4)), (decide (x >= dx - 4)),
             (decide (y < 4)), (decide (y >= dy - 4)),
             (decide (y < xtop (image_slice (theme it)) \/
                      y >= dy - xbottom (image_slice (theme it))));
    settle_decisions; by eexists.
Qed.

(** *** Resizing *)

Lemma land_clear_sub (mode m b : Z) :
  Z.land mode m = 0 -> Z.land m b = b -> Z.land mode b = 0.
Proof.
  intros Hm Hb. rewrite <- Hb, Z.land_assoc, Hm. apply Z.land_0_l.
Qed.

Lemma resize_x_clear (c : ListCanvas) (mode xo dxo dx : Z) :
  Z.land mode 5 = 0 -> resize_x c mode xo dxo dx = Ok (xo, dxo).
Proof.
  intros Hm. unfold resize_x.
  rewrite (land_clear_sub mode 5 4 Hm eq_refl), (land_clear_sub mode 5 1 Hm eq_refl).
  by rewrite !decide_False by (intros Hne; by apply Hne).
Qed.

Lemma resize_y_clear (c : ListCanvas) (mode yo dyo dy : Z) :
  Z.land mode 10 = 0 -> resize_y c mode yo dyo dy = Ok (yo, dyo).
Proof.
  intros Hm. unfold resize_y.
  rewrite (land_clear_sub mode 10 8 Hm eq_refl), (land_clear_sub mode 10 2 Hm eq_refl).
  by rewrite !decide_False by (intros Hne; by apply Hne).
Qed.

(** After [resize] the control of the item has the geometry [resize_x] and
    [resize_y] computed, whether [SetDimensions] was called or not. *)
Lemma resize_geometry (w w' : World) (r : item_ref) (mode xo yo dxo dyo dx dy : Z) :
  resize w r mode xo yo dxo dyo dx dy = Ok w' ->
  exists xo' dxo' yo' dyo' ctl,
    resize_x (lc w) mode xo dxo (if decide (Z.land mode 5 = 0) then 0 else dx)
      = Ok (xo', dxo') /\
    resize_y (lc w) mode yo dyo (if decide (Z.land mode 10 = 0) then 0 else dy)
      = Ok (yo', dyo') /\
    control (heap w' r) = Some ctl /\
    wx_position ctl = (xo', yo') /\ wx_size ctl = (dxo', dyo').
Proof.
  unfold resize. intros Hres.
  apply bind_Ok in Hres as ([xo' dxo'] & Hx & Hres).
  apply bind_Ok in Hres as ([yo' dyo'] & Hy & Hres).
  unfold item_position, item_size in Hres.
  destruct (control (heap w r)) as [ctl|] eqn:Hctl; simpl in Hres; [|done].
  destruct (wx_position ctl) as [cx cy] eqn:Hpos.
  destruct (wx_size ctl) as [cdx cdy] eqn:Hsz. simpl in Hres.
  exists xo', dxo', yo', dyo'.
  destruct (decide _) as [Hdiff|Hsame] in Hres.
  - injection Hres as <-. simpl. rewrite fn_lookup_insert.
    exists (SetDimensions ctl xo' yo' dxo' dyo'). by repeat split.
  - injection Hres as <-. exists ctl.
    split; [done|]. split; [done|]. split; [done|].
    rewrite Hpos, Hsz.
    assert (xo' = cx /\ yo' = cy /\ dxo' = cdx /\ dyo' = cdy) as (-> & -> & -> & ->) by lia.
    done.
Qed.

Lemma resize_returns (w : World) (r : item_ref) (mode xo yo dxo dyo dx dy : Z) px py :
  is_Some (control (heap w r)) ->
  resize_x (lc w) mode xo dxo (if decide (Z.land mode 5 = 0) then 0 else dx) = Ok px ->
  resize_y (lc w) mode yo dyo (if decide (Z.land mode 10 = 0) then 0 else dy) = Ok py ->
  exists w', resize w r mode xo yo dxo dyo dx dy = Ok w'.
Proof.
  intros [ctl Hctl] Hx Hy. unfold resize. rewrite Hx. simpl.
  destruct px as [xo' dxo']. rewrite Hy. simpl. destruct py as [yo' dyo'].
  unfold item_position, item_size. rewrite Hctl. simpl.
  destruct (wx_position ctl), (wx_size ctl). simpl.
  destruct (decide (_ \/ _)); by eexists.
Qed.

(** C4.  When the x-axis bits of the mode are clear ([mode & 0x05 == 0]),
    [resize] does not depend on the mouse delta [dx] and leaves the item at
    x-position [xo] with width [dxo]; when the y-axis bits are clear
    ([mode & 0x0A == 0]) it does not depend on [dy] and leaves the item at
    y-position [yo] with height [dyo]. *)
Theorem resize_frame (w : World) (r : item_ref) (mode xo yo dxo dyo dx dy : Z) :
  (Z.land mode 5 = 0 ->
     (forall dx2, resize w r mode xo yo dxo dyo dx2 dy
                  = resize w r mode xo yo dxo dyo dx dy) /\
     (forall w', resize w r mode xo yo dxo dyo dx dy = Ok w' ->
        exists ctl, control (heap w' r) = Some ctl /\
          fst (wx_position ctl) = xo /\ fst (wx_size ctl) = dxo)) /\
  (Z.land mode 10 = 0 ->
     (forall dy2, resize w r mode xo yo dxo dyo dx dy2
                  = resize w r mode xo yo dxo dyo dx dy) /\
     (forall w', resize w r mode xo yo dxo dyo dx dy = Ok w' ->
        exists ctl, control (heap w' r) = Some ctl /\
          snd (wx_position ctl) = yo /\ snd (wx_size ctl) = dyo)).
Proof.
  split; intros Hm.
  - split.
    + intros dx2. unfold resize. by rewrite !(decide_True _ _ Hm).
    + intros w' Hres.
      apply resize_geometry in Hres
        as (xo' & dxo' & yo' & dyo' & ctl & Hx & _ & Hctl & Hpos & Hsz).
      rewrite resize_x_clear in Hx by done. injection Hx as <- <-.
      exists ctl. by rewrite Hpos, Hsz.
  - split.
    + intros dy2. unfold resize. by rewrite !(decide_True _ _ Hm).
    + intros w' Hres.
      apply resize_geometry in Hres
        as (xo' & dxo' & yo' & dyo' & ctl & _ & Hy & Hctl & Hpos & Hsz).
      rewrite resize_y_clear in Hy by done. injection Hy as <- <-.
      exists ctl. by rewrite Hpos, Hsz.
Qed.

(** *** Activation *)

(** What the assignment [item.state = s] leaves when it returns. *)
Lemma set_state_Ok (w w' : World) (r : item_ref) (s : ItemState) :
  set_state w r s = Ok w' ->
  lc w' = lc w /\ state (heap w' r) = s /\
  (forall r', r' <> r -> heap w' r' = heap w r') /\
  (forall r', object (heap w' r') = object (heap w r')) /\
  (forall r', control (heap w' r') = control (heap w r')) /\
  trace w' = trace w ++
    (if decide (state (heap w r) = s) then []
     else if decide (s = active)
          then if control (heap w r) is Some _ then [EvRaise r] else []
          else []).
Proof.
  unfold set_state. destruct (decide (state (heap w r) = s)) as [Heq|Hne].
  { intros [= <-]. by rewrite app_nil_r. }
  assert (forall w0 : World,
            lc w0 = lc w ->
            heap w0 = <[ r := {| object := object (heap w r); state := s;
                                 theme := get_theme_for (adapter (lc w)) s
                                            (object (heap w r));
                                 ui := ui (heap w r); control := control (heap w r);
                                 best_size := best_size (heap w r) |} ]> (heap w) ->
            lc w0 = lc w /\ state (heap w0 r) = s /\
            (forall r', r' <> r -> heap w0 r' = heap w r') /\
            (forall r', object (heap w0 r') = object (heap w r')) /\
            (forall r', control (heap w0 r') = control (heap w r'))) as Hframe.
  { intros w0 Hlc ->. split; [done|]. split; [by rewrite fn_lookup_insert|].
    split; [intros r' Hr'; by rewrite fn_lookup_insert_ne|].
    split; intros r'; (destruct (decide (r' = r)) as [->|Hr'];
      [by rewrite fn_lookup_insert | by rewrite fn_lookup_insert_ne]). }
  destruct (decide (s = active)) as [->|Hs].
  - destruct (control (heap w r)) as [ctl|] eqn:Hctl.
    + intros [= <-]. simpl.
      destruct (Hframe (emit (with_heap w _) [EvRaise r]) eq_refl eq_refl)
        as (? & ? & ? & ? & ?). done.
    + destruct reraise_exceptions; [done|]. intros [= <-]. simpl.
      destruct (Hframe (with_heap w _) eq_refl eq_refl) as (? & ? & ? & ? & ?).
      by rewrite app_nil_r.
  - intros [= <-]. simpl.
    destruct (Hframe (with_heap w _) eq_refl eq_refl) as (? & ? & ? & ? & ?).
    by rewrite app_nil_r.
Qed.



(** [activate] on the current active item. *)
Lemma activate_same (w : World) (item : option item_ref) :
  item = active_item (lc w) -> activate w item = Ok w.
Proof.
  intros ->. unfold activate. by rewrite decide_False by (intros Hne; by apply Hne).
Qed.

(** What a call of [activate] that changes the active item leaves when it
    returns. *)
Lemma activate_Ok (w w' : World) (item : option item_ref) :
  item <> active_item (lc w) -> activate w item = Ok w' ->
  lc w' = with_active_item (lc w) item /\
  (forall r, state (heap w' r) =
     if decide (item = Some r) then active
     else if decide (active_item (lc w) = Some r) then inactive
     else state (heap w r)) /\
  (forall r, control (heap w' r) = control (heap w r)) /\
  trace w' = trace w ++ deactivation_events w (active_item (lc w)) ++
             activation_events w item.
Proof.
  intros Hne. unfold activate. rewrite decide_True by done. intros Hres.
  apply bind_Ok in Hres as (w1 & Hold & Hres).
  assert (lc w1 = lc w /\
          (forall r, state (heap w1 r) =
             if decide (active_item (lc w) = Some r) then inactive
             else state (heap w r)) /\
          (forall r, object (heap w1 r) = object (heap w r)) /\
          (forall r, control (heap w1 r) = control (heap w r)) /\
          trace w1 = trace w ++ deactivation_events w (active_item (lc w)))
    as (Hlc1 & Hst1 & Hobj1 & Hctl1 & Htr1).
  { destruct (active_item (lc w)) as [a|] eqn:Ha.
    - apply bind_Ok in Hold as (w0 & Hset & Hold). injection Hold as <-.
      apply set_state_Ok in Hset as (Hlc & Hst & Hrest & Hobj & Hctl & Htr).
      simpl. split; [done|]. split; [|split; [done|split; [done|]]].
      + intros r. destruct (decide (Some a = Some r)) as [[= ->]|Har]; [done|].
        rewrite Hrest; [done | congruence].
      + rewrite Htr, Hobj. rewrite (decide_False (P := inactive = active)) by done.
        destruct (decide (state (heap w a) = inactive)); by rewrite app_nil_r.
    - injection Hold as <-. simpl. by rewrite app_nil_r. }
  destruct item as [i|]; simpl in Hres.
  - apply bind_Ok in Hres as (w2 & Hset & Hres). injection Hres as <-.
    apply set_state_Ok in Hset as (Hlc & Hst & Hrest & Hobj & Hctl & Htr).
    simpl in *. split; [by rewrite Hlc, Hlc1|]. split; [|split].
    + intros r. destruct (decide (Some i = Some r)) as [[= ->]|Hir]; [done|].
      rewrite Hrest by congruence. apply Hst1.
    + intros r. by rewrite Hctl, Hctl1.
    + rewrite Htr, Htr1, Hobj, Hobj1, Hctl1, Hst1.
      rewrite (decide_False (P := active_item (lc w) = Some i)) by congruence.
      by rewrite <- !app_assoc.
  - injection Hres as <-. simpl. split; [by rewrite Hlc1|].
    split; [|split; [done|]].
    + intros r. destruct (decide (None = Some r)); [done|]. apply Hst1.
    + by rewrite Htr1, app_nil_r.
Qed.




(** *** Initial placement *)

Lemma initial_position_fold_returns (h : item_ref -> ListCanvasItem)
    (l : list item_ref) (acc : Z * Z * Z) :
  (forall r, r ∈ l -> is_Some (control (h r))) ->
  exists acc', foldM (initial_position_step h) l acc = Ok acc'.
Proof.
  revert acc. induction l as [|a l IH]; intros acc Hlive.
  - by eexists.
  - rewrite foldM_cons.
    assert (exists acc', initial_position_step h acc a = Ok acc') as [acc' ->].
    { unfold initial_position_step, item_position, item_size.
      destruct acc as [[xmax ymax] ynext].
      destruct (Hlive a) as [ctl ->]; [apply list_elem_of_here|]. simpl.
      destruct (wx_position ctl), (wx_size ctl). simpl.
      destruct (decide _); [by eexists|]. destruct (decide _); by eexists. }
    simpl. apply IH. intros r Hr. apply Hlive. by apply list_elem_of_further.
Qed.

Lemma initial_position_step_Ok (h : item_ref -> ListCanvasItem)
    (xmax ymax ynext : Z) (a : item_ref) (acc' : Z * Z * Z) :
  initial_position_step h (xmax, ymax, ynext) a = Ok acc' ->
  exists ctl, control (h a) = Some ctl /\
    acc' =
      if decide (snd (wx_position ctl) > ymax) then
        (fst (wx_position ctl) + fst (wx_size ctl), snd (wx_position ctl),
         snd (wx_position ctl) + snd (wx_size ctl))
      else if decide (snd (wx_position ctl) = ymax) then
        (Z.max xmax (fst (wx_position ctl) + fst (wx_size ctl)), ymax,
         Z.max ynext (snd (wx_position ctl) + snd (wx_size ctl)))
      else (xmax, ymax, ynext).
Proof.
  unfold initial_position_step, item_position, item_size.
  destruct (control (h a)) as [ctl|]; simpl; [|done].
  destruct (wx_position ctl) as [x y] eqn:Hp, (wx_size ctl) as [idx idy] eqn:Hs.
  simpl. intros Hres. exists ctl. split; [done|]. rewrite Hp, Hs. simpl.
  destruct (decide (y > ymax)); [congruence|].
  destruct (decide (y = ymax)); congruence.
Qed.

(** What the loop of [initial_position_for] computes: [ymax] is the
    largest y among the items seen (and the start value), and [xmax] and
    [ynext] bound the right and bottom edges of the items at that y. *)
Lemma initial_position_fold_inv (h : item_ref -> ListCanvasItem)
    (l : list item_ref) (xmax ymax ynext xmax' ymax' ynext' : Z) :
  foldM (initial_position_step h) l (xmax, ymax, ynext) = Ok (xmax', ymax', ynext') ->
  ymax <= ymax' /\
  (ymax' = ymax -> xmax <= xmax' /\ ynext <= ynext') /\
  (forall r ctl, r ∈ l -> control (h r) = Some ctl ->
     snd (wx_position ctl) <= ymax' /\
     (snd (wx_position ctl) = ymax' ->
        fst (wx_position ctl) + fst (wx_size ctl) <= xmax' /\
        snd (wx_position ctl) + snd (wx_size ctl) <= ynext')).
Proof.
  revert xmax ymax ynext. induction l as [|a l IH]; intros xmax ymax ynext Hres.
  - injection Hres as <- <- <-. split; [lia|]. split; [lia|].
    intros r ctl Hin. by apply elem_of_nil in Hin.
  - rewrite foldM_cons in Hres.
    apply bind_Ok in Hres as ([[xmax1 ymax1] ynext1] & Hstep & Hres).
    apply initial_position_step_Ok in Hstep as (ctl & Hctl & Hacc).
    destruct (IH _ _ _ Hres) as (Hmono & Hsame & Hitems).
    assert (ymax <= ymax1 /\ snd (wx_position ctl) <= ymax1 /\
            (ymax1 = ymax -> xmax <= xmax1 /\ ynext <= ynext1) /\
            (snd (wx_position ctl) = ymax1 ->
               fst (wx_position ctl) + fst (wx_size ctl) <= xmax1 /\
               snd (wx_position ctl) + snd (wx_size ctl) <= ynext1))
      as (Hm1 & Hy1 & Hs1 & He1).
    { destruct (decide (snd (wx_position ctl) > ymax)).
      - injection Hacc as -> -> ->. lia.
      - destruct (decide (snd (wx_position ctl) = ymax)); injection Hacc as -> -> ->; lia. }
    split; [lia|]. split; [intros Heq; lia|].
    intros r ctl' Hin Hctl'. apply elem_of_cons in Hin as [-> | Hin].
    + rewrite Hctl in Hctl'. injection Hctl' as <-. split; [lia|].
      intros Heq. lia.
    + exact (Hitems r ctl' Hin Hctl').
Qed.

Lemma initial_position_fold_upper (h : item_ref -> ListCanvasItem)
    (l : list item_ref) (xmax ymax ynext xmax' ymax' ynext' top : Z) :
  foldM (initial_position_step h) l (xmax, ymax, ynext) = Ok (xmax', ymax', ynext') ->
  ymax <= top ->
  (forall r ctl, r ∈ l -> control (h r) = Some ctl -> snd (wx_position ctl) <= top) ->
  ymax' <= top.
Proof.
  revert xmax ymax ynext. induction l as [|a l IH]; intros xmax ymax ynext Hres Hstart Hall.
  - by injection Hres as <- <- <-.
  - rewrite foldM_cons in Hres.
    apply bind_Ok in Hres as ([[xmax1 ymax1] ynext1] & Hstep & Hres).
    apply initial_position_step_Ok in Hstep as (ctl & Hctl & Hacc).
    apply (IH _ _ _ Hres).
    + specialize (Hall a ctl (list_elem_of_here _ _) Hctl).
      destruct (decide (snd (wx_position ctl) > ymax)).
      * injection Hacc as -> -> ->. lia.
      * destruct (decide (snd (wx_position ctl) = ymax)); injection Hacc as -> -> ->; lia.
    + intros r ctl' Hr. apply Hall. by apply list_elem_of_further.
Qed.

(** The loop ends with the y of the lowest item, when that is not negative. *)
Lemma initial_position_fold_row (h : item_ref -> ListCanvasItem)
    (l : list item_ref) (xmax' ymax' ynext' : Z) (r : item_ref) (ctl : wxWindow) :
  foldM (initial_position_step h) l (0, 0, 0) = Ok (xmax', ymax', ynext') ->
  r ∈ l -> control (h r) = Some ctl ->
  0 <= snd (wx_position ctl) ->
  (forall r' ctl', r' ∈ l -> control (h r') = Some ctl' ->
     snd (wx_position ctl') <= snd (wx_position ctl)) ->
  ymax' = snd (wx_position ctl) /\
  fst (wx_position ctl) + fst (wx_size ctl) <= xmax' /\
  snd (wx_position ctl) + snd (wx_size ctl) <= ynext'.
Proof.
  intros Hres Hin Hctl Hpos Hmax.
  destruct (initial_position_fold_inv _ _ _ _ _ _ _ _ Hres) as (_ & _ & Hitems).
  destruct (Hitems r ctl Hin Hctl) as [Hle Hrow].
  pose proof (initial_position_fold_upper _ _ _ _ _ _ _ _ _ Hres Hpos Hmax) as Hup.
  assert (ymax' = snd (wx_position ctl)) as Heq by lia.
  split; [done|]. apply Hrow. lia.
Qed.

(** C7.  The position [(x, y)] that [initial_position_for] returns for an
    item of width [dx] has [x + dx] within the canvas width or [x = 0]:
    with respect to a lowest item of the canvas it is either in that item's
    row, right of it, or at the left edge below it.  On a canvas without
    items it is [(0, 0)]; and a position is returned whenever every item
    has its control. *)
Theorem initial_position_for_fits (w : World) (dx dy : Z) :
  (forall x y, initial_position_for w dx dy = Ok (x, y) ->
     (x + dx <= fst (canvas_size (lc w)) \/ x = 0) /\
     (forall r ctl, lowest_item w r ctl ->
        (x + dx <= fst (canvas_size (lc w)) /\
         y = snd (wx_position ctl) /\
         fst (wx_position ctl) + fst (wx_size ctl) <= x) \/
        (x = 0 /\ snd (wx_position ctl) + snd (wx_size ctl) <= y))) /\
  (items (lc w) = [] -> initial_position_for w dx dy = Ok (0, 0)) /\
  (live_items w -> exists p, initial_position_for w dx dy = Ok p).
Proof.
  unfold initial_position_for.
  destruct (canvas_size (lc w)) as [cdx cdy]. simpl. split; [|split].
  - intros x y Hres.
    apply bind_Ok in Hres as ([[xmax ymax] ynext] & Hfold & Hres).
    destruct (decide (xmax + dx > cdx)) as [Hwrap|Hfit];
      injection Hres as <- <-.
    + split; [by right|]. intros r ctl (Hin & Hctl & Hpos & Hlow).
      right. split; [done|].
      by destruct (initial_position_fold_row _ _ _ _ _ _ _ Hfold Hin Hctl Hpos Hlow)
        as (_ & _ & Hbottom).
    + split; [left; lia|]. intros r ctl (Hin & Hctl & Hpos & Hlow).
      left.
      destruct (initial_position_fold_row _ _ _ _ _ _ _ Hfold Hin Hctl Hpos Hlow)
        as (Hy & Hright & _).
      split; [lia|]. by split.
  - intros ->. simpl. by destruct (decide (0 + dx > cdx)).
  - intros Hlive.
    destruct (initial_position_fold_returns (heap w) (items (lc w)) (0, 0, 0) Hlive)
      as [[[xmax ymax] ynext] ->].
    simpl. destruct (decide _); by eexists.
Qed.

(** *** Painting *)

Lemma len_pos {A : Type} (l : list A) : len l > 0 <-> l <> [].
Proof. unfold len. destruct l; simpl; split; (done || lia). Qed.

Lemma paints_guides_cases (c : ListCanvas) :
  paints_guides c =
    match guide_visible (guide_info c) with
    | always => true
    | never => false
    | drag => bool_decide (lc_state c = dragging /\ items c <> [])
    end.
Proof.
  unfold paints_guides.
  rewrite (bool_decide_ext _ _ (len_pos (items c))).
  destruct (guide_visible (guide_info c)); simpl; [done..|].
  repeat case_bool_decide; simpl; try done; tauto.
Qed.

Lemma no_guide_pen_not_drawn (ops : list draw) :
  SetPen GuidePen ∉ ops -> ~ draws_guide_lines ops.
Proof.
  intros Hnot (pre & post & -> & _). apply Hnot.
  apply elem_of_app. right. apply list_elem_of_here.
Qed.

Lemma lines_no_pen (f : Z -> draw) (l : list Z) (p : wxPen) :
  (forall v, f v <> SetPen p) -> SetPen p ∉ f <$> l.
Proof.
  intros Hf Hin. apply list_elem_of_fmap in Hin as (v & Hv & _).
  by apply (Hf v).
Qed.

Lemma paint_grid_no_guide_pen (c : ListCanvas) (wdx wdy : Z) (grid : list draw) :
  paint_grid c wdx wdy = Ok grid -> SetPen GuidePen ∉ grid.
Proof.
  unfold paint_grid. destruct (paints_grid c).
  - intros Hres.
    apply bind_Ok in Hres as (off & _ & Hres).
    apply bind_Ok in Hres as (xs & _ & Hres).
    apply bind_Ok in Hres as (ys & _ & Hres).
    injection Hres as <-.
    rewrite not_elem_of_cons, not_elem_of_app.
    split; [done|]. split; by apply lines_no_pen.
  - intros [= <-]. apply not_elem_of_nil.
Qed.

Lemma paint_guides_on (w : World) (wdx wdy : Z) (guides : list draw) :
  paints_guides (lc w) = true ->
  paint_guides w wdx wdy = Ok guides ->
  exists post, guides = SetPen GuidePen :: post /\ DrawLine 0 0 0 wdy ∈ post.
Proof.
  unfold paint_guides. intros -> Hres.
  apply bind_Ok in Hres as ([xs ys] & Hg & Hres). injection Hres as <-.
  eexists. split; [done|].
  apply elem_of_app. left. apply list_elem_of_fmap. exists 0. split; [done|].
  apply keys_elem_of. by apply (guide_lines_zero w xs ys).
Qed.

Lemma paint_guides_off (w : World) (wdx wdy : Z) (guides : list draw) :
  paints_guides (lc w) = false ->
  paint_guides w wdx wdy = Ok guides -> guides = [].
Proof. unfold paint_guides. by intros -> [= <-]. Qed.

Lemma canvas_paint_drawn (w : World) (ops : list draw) :
  canvas_paint w = Ok ops ->
  draws_guide_lines ops <-> paints_guides (lc w) = true.
Proof.
  unfold canvas_paint. destruct (paint_extent (lc w)) as [wdx wdy].
  intros Hres.
  apply bind_Ok in Hres as (grid & Hgrid & Hres).
  apply bind_Ok in Hres as (guides & Hguides & Hres).
  injection Hres as <-.
  destruct (paints_guides (lc w)) eqn:Hon.
  - split; [done|]. intros _.
    destruct (paint_guides_on w wdx wdy guides Hon Hguides) as (post & -> & Hline).
    exists ([SetBrush; SetPen TRANSPARENT_PEN; DrawRectangle 0 0 wdx wdy] ++ grid), post.
    split; [by rewrite <- app_assoc|]. by exists 0, 0, 0, wdy.
  - split; [|done]. intros Hdrawn. exfalso. revert Hdrawn.
    apply no_guide_pen_not_drawn.
    rewrite (paint_guides_off w wdx wdy guides Hon Hguides), app_nil_r.
    rewrite !not_elem_of_cons. repeat split; try done.
    by eapply paint_grid_no_guide_pen.
Qed.

Lemma range_returns (start stop step : Z) :
  step <> 0 -> exists l, range start stop step = Ok l.
Proof.
  intros Hstep. unfold range. rewrite decide_False by done.
  destruct (decide _); by eexists.
Qed.

(** [canvas_paint] paints whenever the grid cell size is not zero and
    every item has its control. *)
Lemma canvas_paint_returns (w : World) :
  size (grid_info (lc w)) <> 0 -> live_items w ->
  exists ops, canvas_paint w = Ok ops.
Proof.
  intros Hsz Hlive. unfold canvas_paint.
  destruct (paint_extent (lc w)) as [wdx wdy].
  assert (exists grid, paint_grid (lc w) wdx wdy = Ok grid) as [grid ->].
  { unfold paint_grid. destruct (paints_grid (lc w)); [|by eexists].
    unfold floormod. rewrite decide_False by done. simpl.
    destruct (range_returns (Z.modulo (offset (grid_info (lc w))) (size (grid_info (lc w))))
                wdx (size (grid_info (lc w))) Hsz) as [xs ->].
    destruct (range_returns (Z.modulo (offset (grid_info (lc w))) (size (grid_info (lc w))))
                wdy (size (grid_info (lc w))) Hsz) as [ys ->].
    simpl. by eexists. }
  assert (exists guides, paint_guides w wdx wdy = Ok guides) as [guides ->].
  { unfold paint_guides. destruct (paints_guides (lc w)); [|by eexists].
    destruct (guide_lines_returns w Hlive) as ([xs ys] & ->). simpl. by eexists. }
  simpl. by eexists.
Qed.

(** C8.  When [canvas_paint] has painted: with [guide_info.visible] being
    ['drag'] the guide lines are drawn exactly when the canvas is in state
    ['dragging'] and holds at least one item; with ['never'] they are not
    drawn; with ['always'] they are drawn. *)
Theorem canvas_paint_guides (w : World) (ops : list draw) :
  canvas_paint w = Ok ops ->
  match guide_visible (guide_info (lc w)) with
  | drag => draws_guide_lines ops <->
            lc_state (lc w) = dragging /\ items (lc w) <> []
  | never => ~ draws_guide_lines ops
  | always => draws_guide_lines ops
  end.
Proof.
  intros Hres. apply canvas_paint_drawn in Hres.
  rewrite paints_guides_cases in Hres.
  destruct (guide_visible (guide_info (lc w))).
  - intros Hd. by apply Hres in Hd.
  - by apply Hres.
  - rewrite Hres. apply bool_decide_eq_true.
Qed.

(** *** Replacing items *)

(** Python's slice, deletion and insertion for indices that are not
    negative. *)
Lemma norm_index_nonneg (n i : Z) :
  0 <= n -> 0 <= i -> norm_index n i = Z.to_nat (Z.min n i).
Proof. intros Hn Hi. unfold norm_index. rewrite decide_False by lia. f_equal. lia. Qed.

Lemma len_nonneg {A : Type} (l : list A) : 0 <= len l.
Proof. unfold len. lia. Qed.

Lemma del_slice_nonneg {A : Type} (l : list A) (i j : Z) :
  0 <= i -> 0 <= j ->
  del_slice l i j = take (Z.to_nat i) l ++ drop (Z.to_nat (Z.max i j)) l.
Proof.
  intros Hi Hj. unfold del_slice.
  rewrite !norm_index_nonneg by (done || apply len_nonneg). unfold len.
  destruct (decide (i <= Z.of_nat (length l))) as [Hin|Hout].
  - replace (Z.to_nat (Z.min (Z.of_nat (length l)) i)) with (Z.to_nat i) by lia.
    f_equal.
    destruct (decide (Z.max i j <= Z.of_nat (length l))).
    + f_equal. lia.
    + rewrite !drop_ge by lia. done.
  - rewrite !take_ge by lia. rewrite !drop_ge by lia. done.
Qed.

Lemma insert_at {A : Type} (pre suf : list A) (k : Z) (x : A) :
  Z.of_nat (length pre) <= k ->
  suf = [] \/ k = Z.of_nat (length pre) ->
  insert (pre ++ suf) k x = pre ++ x :: suf.
Proof.
  intros Hk Hor. unfold insert.
  rewrite norm_index_nonneg by (apply len_nonneg || lia). unfold len.
  assert (Z.to_nat (Z.min (Z.of_nat (length (pre ++ suf))) k) = length pre) as ->.
  { rewrite length_app. destruct Hor as [-> | ->]; simpl; lia. }
  by rewrite take_app_length, drop_app_length.
Qed.

Lemma slice_or_del {A : Type} (l : list A) (i j : Z) (a : A) :
  a ∈ l -> a ∈ slice l i j \/ a ∈ del_slice l i j.
Proof.
  unfold slice, del_slice.
  set (s := norm_index (len l) i). set (e := norm_index (len l) j).
  intros Hin. rewrite <- (take_drop s l) in Hin.
  apply elem_of_app in Hin as [Hin | Hin].
  { right. apply elem_of_app. by left. }
  rewrite <- (take_drop (e - s) (drop s l)) in Hin.
  apply elem_of_app in Hin as [Hin | Hin]; [by left|].
  right. apply elem_of_app. right.
  rewrite drop_drop in Hin.
  destruct (decide (s <= e)%nat).
  - by replace (Nat.max s e) with (s + (e - s))%nat by lia.
  - replace (Nat.max s e) with s by lia.
    by replace (s + (e - s))%nat with s in Hin by lia.
Qed.

Lemma insert_elem_of {A : Type} (l : list A) (k : Z) (x a : A) :
  a ∈ l -> a ∈ insert l k x.
Proof.
  unfold insert. set (n := norm_index (len l) k). intros Hin.
  rewrite <- (take_drop n l) in Hin.
  apply elem_of_app in Hin as [Hin | Hin]; apply elem_of_app; [by left|].
  right. by apply list_elem_of_further.
Qed.

Lemma initialize_position_Ok (w w' : World) (r : item_ref) :
  initialize_position w r = Ok w' ->
  exists ctl x y dx dy,
    control (heap w r) = Some ctl /\
    w' = with_heap w (<[ r := with_control (heap w r) (Some (SetDimensions ctl x y dx dy)) ]> (heap w)).
Proof.
  unfold initialize_position. intros Hres.
  destruct (best_size (heap w r)) as [bdx bdy].
  destruct (canvas_size (lc w)) as [cdx cdy].
  destruct (get_position (adapter (lc w)) (object (heap w r))) as [x y].
  destruct (get_size (adapter (lc w)) (object (heap w r))) as [dx dy].
  apply bind_Ok in Hres as (dx' & _ & Hres).
  apply bind_Ok in Hres as (dy' & _ & Hres).
  apply bind_Ok in Hres as (x' & _ & Hres).
  apply bind_Ok in Hres as ([x'' y''] & _ & Hres).
  apply bind_Ok in Hres as (ctl & Hctl & Hres).
  apply bind_Ok in Hres as (xi & _ & Hres).
  injection Hres as <-.
  destruct (control (heap w r)) as [c|]; [|done]. injection Hctl as ->.
  by exists ctl, xi, y'', dx', dy'.
Qed.

Lemma dispose_lc (w : World) (r : item_ref) : lc (dispose w r) = lc w.
Proof.
  unfold dispose. destruct (ui (heap w r)); simpl;
    by destruct (control _).
Qed.

Lemma dispose_other (w : World) (r r' : item_ref) :
  r' <> r -> heap (dispose w r) r' = heap w r'.
Proof.
  intros Hne. unfold dispose.
  destruct (ui (heap w r)); simpl.
  - rewrite fn_lookup_insert. simpl.
    destruct (control (heap w r)); simpl;
      by rewrite ?fn_lookup_insert_ne by done.
  - destruct (control (heap w r)); simpl;
      by rewrite ?fn_lookup_insert_ne by done.
Qed.

Lemma dispose_self (w : World) (r : item_ref) : disposed (heap (dispose w r) r).
Proof.
  unfold dispose, disposed.
  destruct (ui (heap w r)) as [u|] eqn:Hui; simpl.
  - rewrite fn_lookup_insert. simpl.
    destruct (control (heap w r)) eqn:Hctl; simpl; rewrite !fn_lookup_insert; simpl.
    + split; [done|]. by intros u' [= <-].
    + split; [done|]. by intros u' [= <-].
  - destruct (control (heap w r)) eqn:Hctl; simpl.
    + rewrite fn_lookup_insert. simpl. split; [done|]. by rewrite Hui.
    + split; [done|]. by rewrite Hui.
Qed.

Lemma dispose_keeps (w : World) (r r' : item_ref) :
  disposed (heap w r') -> disposed (heap (dispose w r) r').
Proof.
  intros Hd. destruct (decide (r' = r)) as [->|Hne].
  - apply dispose_self.
  - by rewrite dispose_other.
Qed.

Lemma dispose_all (w : World) (l : list item_ref) :
  lc (foldl dispose w l) = lc w /\
  (forall r, r ∈ l \/ disposed (heap w r) -> disposed (heap (foldl dispose w l) r)).
Proof.
  revert w. induction l as [|a l IH]; intros w; simpl.
  - split; [done|]. intros r [Hin | Hd]; [by apply elem_of_nil in Hin | done].
  - destruct (IH (dispose w a)) as [Hlc Hall]. split.
    + by rewrite Hlc, dispose_lc.
    + intros r [Hin | Hd]; apply Hall.
      * apply elem_of_cons in Hin as [-> | Hin]; [right; apply dispose_self | by left].
      * right. by apply dispose_keeps.
Qed.

Lemma initialize_position_frame (w w' : World) (r : item_ref) :
  initialize_position w r = Ok w' ->
  lc w' = lc w /\
  (forall r', disposed (heap w r') -> disposed (heap w' r')).
Proof.
  intros Hres.
  apply initialize_position_Ok in Hres as (ctl & x & y & dx & dy & Hctl & ->).
  split; [done|]. intros r' Hd. simpl.
  destruct (decide (r' = r)) as [->|Hne].
  - destruct Hd as [Hnone _]. congruence.
  - by rewrite fn_lookup_insert_ne.
Qed.

Lemma insert_perm {A : Type} (l : list A) (k : Z) (x : A) :
  insert l k x ≡ₚ l ++ [x].
Proof.
  unfold insert. set (n := norm_index (len l) k).
  rewrite <- (take_drop n l) at 3. rewrite <- app_assoc.
  apply Permutation_app_head. apply Permutation_cons_append.
Qed.

Lemma replace_loop (new : list item_ref) (w w' : World) (k k' : Z) :
  foldM replace_items_step new (w, k) = Ok (w', k') ->
  active_item (lc w') = active_item (lc w) /\
  items (lc w') ≡ₚ items (lc w) ++ new /\
  (forall r, disposed (heap w r) -> disposed (heap w' r)) /\
  (forall a, a ∈ items (lc w) -> a ∈ items (lc w')) /\
  (forall pre suf, items (lc w) = pre ++ suf ->
     Z.of_nat (length pre) <= k -> suf = [] \/ k = Z.of_nat (length pre) ->
     items (lc w') = pre ++ new ++ suf).
Proof.
  revert w k. induction new as [|x new IH]; intros w k Hres.
  - injection Hres as <- <-.
    split; [done|]. split; [by rewrite app_nil_r|]. split; [done|]. split; [done|].
    intros pre suf Hitems _ _. by rewrite Hitems.
  - rewrite foldM_cons in Hres.
    apply bind_Ok in Hres as ([w1 k1] & Hstep & Hres).
    unfold replace_items_step in Hstep.
    apply bind_Ok in Hstep as (w0 & Hinit & Hstep). injection Hstep as <- <-.
    apply initialize_position_frame in Hinit as [Hlc Hdisp].
    destruct (IH _ _ Hres) as (Hact & Hperm & Hd & Hin & Hshape). simpl in *.
    rewrite Hlc in *.
    split; [done|]. split.
    { rewrite Hperm, insert_perm, <- app_assoc. done. }
    split; [by auto|]. split.
    + intros a Ha. apply Hin. by apply insert_elem_of.
    + intros pre suf Hitems Hk Hor.
      rewrite (Hshape (pre ++ [x]) suf).
      * by rewrite <- app_assoc.
      * rewrite Hitems, insert_at by done. by rewrite <- app_assoc.
      * rewrite length_app. simpl. lia.
      * rewrite length_app. simpl. destruct Hor as [-> | ->]; [by left | right; lia].
Qed.

Lemma adjust_size_frame (w w' : World) :
  _adjust_size w = Ok w' ->
  items (lc w') = items (lc w) /\ active_item (lc w') = active_item (lc w) /\
  heap w' = heap w.
Proof.
  unfold _adjust_size. destruct (scrollable (lc w)); [|by intros [= <-]].
  destruct (wx_view_start _), (wx_pixels_per_unit _).
  intros Hres. apply bind_Ok in Hres as (v & _ & Hres). by injection Hres as <-.
Qed.

(** C10 (amended).  When [replace_items( items, i, j )] returns: every
    item of the replaced slice [i:j] (the whole tail when [j < 0]) has been
    disposed; the items list holds the old items without the slice together
    with the replacement items; for [i >= 0] it is the old list up to [i],
    then the replacement items in their given order, then the old list from
    [max( i, j )] on, so the replacement starts at position
    [min( i, len )]; [active_item] is [None] when it was in the slice and
    unchanged otherwise; and [active_item], when not [None], remains an item
    of the canvas. *)
Theorem replace_items_spec (w w' : World) (new : list item_ref) (i j : Z) :
  replace_items w new i j = Ok w' ->
  let old := items (lc w) in
  let j' := if decide (j < 0) then len old else j in
  (forall r, r ∈ slice old i j' -> disposed (heap w' r)) /\
  items (lc w') ≡ₚ del_slice old i j' ++ new /\
  (0 <= i ->
     items (lc w') =
       take (Z.to_nat i) old ++ new ++ drop (Z.to_nat (Z.max i j')) old) /\
  active_item (lc w') =
    match active_item (lc w) with
    | Some a => if bool_decide (a ∈ slice old i j') then None else Some a
    | None => None
    end /\
  (active_on_canvas w -> active_on_canvas w').
Proof.
  intros Hres old j'. unfold replace_items in Hres. fold old j' in Hres.
  set (w1 := match active_item (lc w) with
             | Some a => if bool_decide (a ∈ slice old i j')
                         then with_lc w (with_active_item (lc w) None) else w
             | None => w end) in Hres.
  assert (items (lc w1) = old /\ heap w1 = heap w /\
          active_item (lc w1) =
            match active_item (lc w) with
            | Some a => if bool_decide (a ∈ slice old i j') then None else Some a
            | None => None
            end) as (Hitems1 & Hheap1 & Hact1).
  { unfold w1. destruct (active_item (lc w)) as [a|] eqn:Ha; [|done].
    by destruct (bool_decide _). }
  destruct (dispose_all w1 (slice old i j')) as [Hlc2 Hdisp2].
  set (w2 := foldl dispose w1 (slice old i j')) in *.
  apply bind_Ok in Hres as ([w3 k3] & Hloop & Hres).
  apply replace_loop in Hloop as (Hact3 & Hperm3 & Hd3 & Hin3 & Hshape3). simpl in *.
  apply adjust_size_frame in Hres as (Hitems4 & Hact4 & Hheap4).
  rewrite Hitems4, Hact4, Hheap4, Hact3, Hlc2, Hact1.
  assert (0 <= j') as Hj'.
  { unfold j'. destruct (decide (j < 0)); [apply len_nonneg | lia]. }
  split; [|split; [|split; [|split]]].
  - intros r Hr. apply Hd3, Hdisp2. by left.
  - done.
  - intros Hi. apply Hshape3.
    + by apply del_slice_nonneg.
    + rewrite length_take. lia.
    + rewrite length_take.
      destruct (decide (i <= len old)) as [Hle|Hgt]; unfold len in *.
      * right. lia.
      * left. apply drop_ge. lia.
  - done.
  - intros Hinv a Ha. rewrite Hitems4.
    rewrite Hact4, Hact3, Hlc2, Hact1 in Ha. apply Hin3.
    destruct (active_item (lc w)) as [a0|] eqn:Ha0; [|done].
    destruct (bool_decide (a0 ∈ slice old i j')) eqn:Hmem; [done|].
    injection Ha as ->. apply bool_decide_eq_false in Hmem.
    destruct (slice_or_del old i j' a (Hinv a Ha0)); done.
Qed.
End proofs.

(** *** The properties at the sample data *)

#[local] Existing Instance elements_order.
#[local] Existing Instance integral_floats.
#[local] Existing Instance logged_exceptions.

Lemma sample_live (snap : Z) (v : Visibility) (st : CanvasState) :
  live_items (sample_world snap v st).
Proof. intros r _. by eexists. Qed.

Lemma snap_sound_witness :
  (snap_x (sample_canvas 0 drag normal) 40 7 = Ok 7 /\
   snap_y (sample_canvas 0 drag normal) 40 7 = Ok 7) /\
  (on_grid (grid_info (sample_canvas 8 drag normal)) (40 + 10) \/
   on_drag_guide fst (sample_canvas 8 drag normal) (40 + 10)) /\
  (on_grid (grid_info (sample_canvas 8 drag normal)) (120 + 10) \/
   on_drag_guide snd (sample_canvas 8 drag normal) (120 + 10)).
Proof.
  split; [|split].
  - apply (proj1 (snap_sound (sample_canvas 0 drag normal) 40 7)). reflexivity.
  - destruct (proj1 (proj2 (snap_sound (sample_canvas 8 drag normal) 40 7)) 10)
      as [[[_ Hg] | [_ Hg]] _];
      [simpl; lia | vm_compute; reflexivity | lia | by left | by right].
  - destruct (proj2 (proj2 (snap_sound (sample_canvas 8 drag normal) 120 5)) 10)
      as [[[_ Hg] | [_ Hg]] _];
      [simpl; lia | vm_compute; reflexivity | lia | by left | by right].
Defined.

Lemma guide_lines_exact_witness :
  exists xs ys, _guide_lines (sample_world 8 drag dragging) = Ok (xs, ys) /\
    (forall v, v ∈ xs <->
       v = 0 \/ v = 640 - 1 \/ item_edge_x (sample_world 8 drag dragging) v).
Proof.
  destruct (guide_lines_exact (sample_world 8 drag dragging)) as [Hexact Hret].
  destruct (Hret (sample_live 8 drag dragging)) as (xs & ys & Hg).
  exists xs, ys. split; [exact Hg|]. exact (proj1 (Hexact xs ys Hg)).
Defined.

Lemma cursor_mode_decoding_witness :
  exists cursor, _set_cursor sample_adapter (sample_heap 0%nat) 2 58 = Ok (7, cursor).
Proof.
  apply (cursor_mode_decoding sample_adapter (sample_heap 0%nat) 80 60 2 58). reflexivity.
Defined.

Lemma resize_frame_witness :
  exists w', resize (sample_world 8 drag dragging) 0%nat 2 0 0 80 60 5 9 = Ok w' /\
    exists ctl, control (heap w' 0%nat) = Some ctl /\
      fst (wx_position ctl) = 0 /\ fst (wx_size ctl) = 80.
Proof.
  eexists. split; [vm_compute; reflexivity|].
  apply (proj1 (resize_frame (sample_world 8 drag dragging) 0%nat 2 0 0 80 60 5 9));
    [reflexivity | vm_compute; reflexivity].
Defined.



Lemma initial_position_for_fits_witness :
  (280 + 80 <= 640 \/ 280 = 0) /\
  exists p, initial_position_for (sample_world 8 drag normal) 80 60 = Ok p.
Proof.
  destruct (initial_position_for_fits (sample_world 8 drag normal) 80 60)
    as (Hfit & _ & Hret).
  split.
  - apply (proj1 (Hfit 280 0 ltac:(vm_compute; reflexivity))).
  - apply Hret, sample_live.
Defined.

Lemma canvas_paint_guides_witness :
  exists ops, canvas_paint (sample_world 8 drag dragging) = Ok ops /\
    (draws_guide_lines ops <->
     dragging = dragging /\ [0; 1; 2]%nat <> []).
Proof.
  eexists. split; [vm_compute; reflexivity|].
  apply (canvas_paint_guides (sample_world 8 drag dragging)).
  vm_compute. reflexivity.
Defined.

(** C10, as stated, fails for a negative [i]: on the items [0; 1; 2],
    [replace_items( [3, 4], -1, -1 )] leaves [4; 0; 3; 1], in which the
    replacement items are neither adjacent nor in their given order. *)
Lemma replace_items_negative_index :
  exists w', replace_items (sample_world 8 drag normal) [3; 4]%nat (-1) (-1) = Ok w' /\
    items (lc w') = [4; 0; 3; 1]%nat /\
    ~ in_given_order [3; 4]%nat (items (lc w')) /\
    ~ sublist [3; 4]%nat (items (lc w')).
Proof.
  eexists. split; [vm_compute; reflexivity|]. split; [reflexivity|]. split.
  - intros (pre & suf & Heq). simpl in Heq.
    do 5 (destruct pre as [|? pre]; simplify_eq/=).
  - simpl. intros Hsub.
    repeat match goal with
           | H : sublist _ _ |- _ => inversion H; clear H; subst
           end.
Defined.

Lemma replace_items_spec_witness :
  exists w', replace_items (sample_world 8 drag normal) [3; 4]%nat 1 2 = Ok w' /\
    items (lc w') = [0; 3; 4; 2]%nat /\ disposed (heap w' 1%nat).
Proof.
  eexists. split; [vm_compute; reflexivity|].
  destruct (replace_items_spec (sample_world 8 drag normal) _ [3; 4]%nat 1 2
              ltac:(vm_compute; reflexivity)) as (Hdisp & _ & Hitems & _ & _).
  split.
  - apply Hitems. lia.
  - apply Hdisp. vm_compute. apply list_elem_of_here.
Defined.

End CanvasProofs.

(** ** Properties of the adapter *)

Module AdapterProofs.

Import Adapter.

Local Open Scope string_scope.

(** Calling a handler leaves the cache as it is. *)
Lemma invoke_cache (a a' : ListCanvasAdapter) (h : Handler) (v : Value) :
  invoke a h = Ok (v, a') -> cache a' = cache a.
Proof.
  destruct h as [i tn | i tn | n | n]; simpl.
  - destruct (adapters a !! i) as [s|]; [|done].
    destruct (sa_traits _ !! tn) as [[f|]|]; [|done..]. by intros [= _ <-].
  - destruct (adapters a !! i) as [s|]; [|done]. by intros [= _ <-].
  - destruct (own_traits a !! n) as [[f|]|]; [|done..]. by intros [= _ <-].
  - by intros [= _ <-].
Qed.

(** A scan that ends with [return handler()] ended on a sub-adapter that
    is not cacheable. *)
Lemma scan_return_uncacheable (prefix trait_name : string) (it : HasTraits)
    (dr : option HasTraits) (i : nat) (l l' : list SubAdapter) (h : Handler) :
  scan prefix trait_name it dr i l = (l', scan_return h) ->
  exists k s, l !! k = Some s /\ is_cacheable s = false /\
    (h = sub_get (i + k) trait_name \/ h = sub_set (i + k) trait_name).
Proof.
  revert i l'. induction l as [|s l IH]; intros i l'; simpl; [done|].
  destruct (accepts s (Some it) dr && _) eqn:Hacc.
  - destruct (is_cacheable s) eqn:Hc; [done|]. intros [= _ <-].
    exists 0%nat, s. rewrite Nat.add_0_r. split; [done|]. split; [done|].
    destruct (bool_decide _); [by left | by right].
  - destruct (scan prefix trait_name it dr (S i) l) as [l'' e] eqn:Hscan.
    intros [= _ ->]. destruct (IH _ _ Hscan) as (k & s' & Hk & Hc & Hh).
    exists (S k), s'. split; [done|]. split; [done|].
    by replace (i + S k)%nat with (S i + k)%nat by lia.
Qed.

(** A hit in the cache: the cached handler is called, for whatever item of
    the class. *)
Lemma result_for_cache_hit (a : ListCanvasAdapter) (name : string)
    (it : HasTraits) (dr : option HasTraits) (h : Handler) :
  implements_IListCanvasItem it = false ->
  cache a !! (cls_name (cls it) +:+ ":" +:+ name) = Some (Some h) ->
  _result_for a name it dr = invoke (with_item_drop a (Some it) dr) h.
Proof. intros Himpl Hhit. unfold _result_for. rewrite Himpl. simpl. by rewrite Hhit. Qed.

(** A miss in the cache that ends on a handler of a sub-adapter that is
    not cacheable stores nothing. *)
Lemma uncacheable_not_stored (a a' : ListCanvasAdapter) (key prefix trait_name : string)
    (it : HasTraits) (dr : option HasTraits) (l : list SubAdapter) (h : Handler)
    (v : Value) :
  scan prefix trait_name it dr 0 (adapters a) = (l, scan_return h) ->
  resolve a key prefix trait_name it dr = Ok (v, a') ->
  cache a' = cache a.
Proof.
  intros Hscan. unfold resolve. rewrite Hscan. intros Hres.
  by apply invoke_cache in Hres.
Qed.

(** A miss in the cache that ends on a cacheable handler stores it under
    the key. *)
Lemma cacheable_stored (a a' : ListCanvasAdapter) (key prefix trait_name : string)
    (it : HasTraits) (dr : option HasTraits) (l : list SubAdapter) (h : Handler)
    (v : Value) :
  scan prefix trait_name it dr 0 (adapters a) = (l, scan_break h) ->
  resolve a key prefix trait_name it dr = Ok (v, a') ->
  cache a' !! key = Some (Some h).
Proof.
  intros Hscan. unfold resolve. rewrite Hscan. intros Hres.
  apply invoke_cache in Hres. rewrite Hres. simpl. apply lookup_insert_eq.
Qed.

(** *** The cache when every sub-adapter is cacheable *)

Lemma same_behaviour_refl (l : list SubAdapter) : Forall2 same_behaviour l l.
Proof. induction l; constructor; [by repeat split | done]. Qed.

Lemma same_behaviour_trans (l1 l2 l3 : list SubAdapter) :
  Forall2 same_behaviour l1 l2 -> Forall2 same_behaviour l2 l3 ->
  Forall2 same_behaviour l1 l3.
Proof.
  intros H12. revert l3. induction H12 as [|s1 s2 l1 l2 (Ha & Hc & Ht) _ IH];
    intros l3 H23; inversion H23 as [|? s3 ? l3' (Ha' & Hc' & Ht') H23']; subst;
    constructor.
  - repeat split; congruence.
  - by apply IH.
Qed.

Lemma same_behaviour_insert (l : list SubAdapter) (i : nat) (s : SubAdapter)
    (it dr : option HasTraits) :
  l !! i = Some s ->
  Forall2 same_behaviour l (<[ i := sub_set_item_drop s it dr ]> l).
Proof.
  revert i. induction l as [|s0 l IH]; intros [|i] Hi; simplify_eq/=.
  - constructor; [by repeat split | apply same_behaviour_refl].
  - constructor; [by repeat split | by apply IH].
Qed.

Lemma scan_behaviour (prefix trait_name : string) (it : HasTraits)
    (dr : option HasTraits) (i : nat) (l : list SubAdapter) :
  Forall2 same_behaviour l (fst (scan prefix trait_name it dr i l)).
Proof.
  revert i. induction l as [|s l IH]; intros i; simpl; [constructor|].
  destruct (accepts s (Some it) dr && _).
  - destruct (is_cacheable s); simpl;
      (constructor; [by repeat split | apply same_behaviour_refl]).
  - specialize (IH (S i)).
    destruct (scan prefix trait_name it dr (S i) l) as [l' e]. simpl in *.
    constructor; [by repeat split | done].
Qed.

(** With sub-adapters that are cacheable and accept by type, the scan ends
    the same way for two items of one class. *)
Lemma scan_by_type (prefix trait_name : string) (it1 it2 : HasTraits)
    (d1 d2 : option HasTraits) (i : nat) (l1 l2 : list SubAdapter) :
  Forall (fun s => is_cacheable s = true /\ accepts_by_type s) l1 ->
  Forall2 same_behaviour l1 l2 ->
  cls it1 = cls it2 ->
  snd (scan prefix trait_name it1 d1 i l1) = snd (scan prefix trait_name it2 d2 i l2).
Proof.
  intros Hall Hsame Hcls. revert i.
  induction Hsame as [|s1 s2 l1 l2 (Ha & Hc & Ht) _ IH]; intros i; simpl; [done|].
  inversion Hall as [|? ? [Hcache Htype] Hall']; subst.
  rewrite <- Ha, <- Ht, <- Hc, Hcache, (Htype it1 it2 d1 d2 Hcls).
  destruct (accepts s1 (Some it2) d2 && _); [done|].
  specialize (IH Hall' (S i)).
  destruct (scan prefix trait_name it1 d1 (S i) l1),
           (scan prefix trait_name it2 d2 (S i) l2). done.
Qed.

Lemma scan_all_cacheable (prefix trait_name : string) (it : HasTraits)
    (dr : option HasTraits) (l : list SubAdapter) (h : Handler) :
  Forall (fun s => is_cacheable s = true /\ accepts_by_type s) l ->
  snd (scan prefix trait_name it dr 0 l) <> scan_return h.
Proof.
  intros Hall Hret.
  destruct (scan prefix trait_name it dr 0 l) as [l' e] eqn:Hscan. simpl in Hret. subst e.
  apply scan_return_uncacheable in Hscan as (k & s & Hk & Hc & _).
  rewrite Forall_lookup in Hall. destruct (Hall k s Hk) as [Hcache _]. congruence.
Qed.

(** The value a handler returns depends on the adapter's [item], [drop] and
    own traits and on the behaviour of its sub-adapters only. *)
Lemma same_behaviour_lookup_None (l1 l2 : list SubAdapter) (i : nat) :
  Forall2 same_behaviour l1 l2 -> l1 !! i = None -> l2 !! i = None.
Proof.
  intros Hsame Hnone. apply lookup_ge_None.
  rewrite <- (Forall2_length Hsame). by apply lookup_ge_None.
Qed.

Lemma invoke_value (a b : ListCanvasAdapter) (h : Handler) :
  Forall2 same_behaviour (adapters a) (adapters b) ->
  item a = item b -> drop a = drop b -> own_traits a = own_traits b ->
  value_of (invoke a h) = value_of (invoke b h).
Proof.
  intros Hsame Hitem Hdrop Hown.
  destruct h as [i tn | i tn | n | n]; simpl.
  - destruct (adapters a !! i) as [s|] eqn:Hs.
    + destruct (Forall2_lookup_l _ _ _ _ _ Hsame Hs) as (s' & -> & (_ & _ & Ht)).
      simpl. rewrite <- Ht, Hitem, Hdrop. by destruct (sa_traits s !! tn) as [[f|]|].
    + by rewrite (same_behaviour_lookup_None _ _ _ Hsame Hs).
  - destruct (adapters a !! i) as [s|] eqn:Hs.
    + by destruct (Forall2_lookup_l _ _ _ _ _ Hsame Hs) as (s' & -> & _).
    + by rewrite (same_behaviour_lookup_None _ _ _ Hsame Hs).
  - rewrite <- Hown, Hitem, Hdrop. by destruct (own_traits a !! n) as [[f|]|].
  - done.
Qed.

(** A call of a handler changes neither the adapter's [item], [drop] and
    own traits nor the behaviour of its sub-adapters. *)
Lemma invoke_frame (a a' : ListCanvasAdapter) (h : Handler) (v : Value) :
  invoke a h = Ok (v, a') ->
  Forall2 same_behaviour (adapters a) (adapters a') /\
  own_traits a' = own_traits a.
Proof.
  destruct h as [i tn | i tn | n | n]; simpl.
  - destruct (adapters a !! i) as [s|] eqn:Hs; [|done].
    destruct (sa_traits _ !! tn) as [[f|]|]; [|done..]. intros [= _ <-]. simpl.
    split; [by apply same_behaviour_insert | done].
  - destruct (adapters a !! i) as [s|] eqn:Hs; [|done]. intros [= _ <-]. simpl.
    split; [by apply same_behaviour_insert | done].
  - destruct (own_traits a !! n) as [[f|]|]; [|done..]. intros [= _ <-].
    split; [apply same_behaviour_refl | done].
  - intros [= _ <-]. split; [apply same_behaviour_refl | done].
Qed.

Lemma mro_handler_own (a b : ListCanvasAdapter) (trait_name prefix : string)
    (mro : list string) :
  own_traits a = own_traits b ->
  mro_handler a trait_name prefix mro = mro_handler b trait_name prefix mro.
Proof.
  intros Hown. induction mro as [|k mro IH]; simpl; unfold _get_handler_for;
    rewrite Hown; [done|]. by rewrite IH.
Qed.

(** What a miss in the cache leaves, when every sub-adapter is cacheable:
    the handler [h] it resolved and called is stored under the key, and a
    later scan for an item of the same class resolves [h] again. *)
Lemma resolve_stores (a a1 : ListCanvasAdapter) (key prefix trait_name : string)
    (it : HasTraits) (dr : option HasTraits) (v : Value) :
  Forall (fun s => is_cacheable s = true /\ accepts_by_type s) (adapters a) ->
  resolve a key prefix trait_name it dr = Ok (v, a1) ->
  exists h,
    cache a1 !! key = Some (Some h) /\
    Forall2 same_behaviour (adapters a) (adapters a1) /\
    own_traits a1 = own_traits a /\
    match snd (scan prefix trait_name it dr 0 (adapters a)) with
    | scan_break h' => h' = h
    | scan_return _ => False
    | scan_else => mro_handler a trait_name prefix (cls_mro (cls it)) = Some h
    end.
Proof.
  intros Hall. unfold resolve.
  pose proof (scan_behaviour prefix trait_name it dr 0 (adapters a)) as Hscan.
  pose proof (scan_all_cacheable prefix trait_name it dr (adapters a)) as Hnoret.
  destruct (scan prefix trait_name it dr 0 (adapters a)) as [l e]. simpl in *.
  destruct e as [h | h | ].
  - intros Hres. exists h.
    pose proof (invoke_cache _ _ _ _ Hres) as Hcache.
    apply invoke_frame in Hres as [Hsame Hown]. simpl in *.
    rewrite Hcache. split; [apply lookup_insert_eq|].
    split; [by eapply same_behaviour_trans|]. by split.
  - by destruct (Hnoret h Hall).
  - destruct (mro_handler _ trait_name prefix (cls_mro (cls it))) as [h|] eqn:Hmro;
      [|done].
    simpl. intros Hres. exists h.
    pose proof (invoke_cache _ _ _ _ Hres) as Hcache.
    apply invoke_frame in Hres as [Hsame Hown]. simpl in *.
    rewrite Hcache. split; [apply lookup_insert_eq|].
    split; [by eapply same_behaviour_trans|]. split; [done|].
    rewrite <- Hmro. by apply mro_handler_own.
Qed.

(** X23.  When every sub-adapter is cacheable and accepts by type, the
    cache is transparent: after a call that resolved a handler for an item,
    a call for an item of the same class returns what a resolution without
    the cache returns. *)
Lemma cache_transparent (a a1 : ListCanvasAdapter) (name : string)
    (it1 it2 : HasTraits) (d1 d2 : option HasTraits) (v1 : Value) :
  Forall (fun s => is_cacheable s = true /\ accepts_by_type s) (adapters a) ->
  cache a !! (cls_name (cls it1) +:+ ":" +:+ name) = None ->
  implements_IListCanvasItem it1 = false ->
  implements_IListCanvasItem it2 = false ->
  cls it1 = cls it2 ->
  _result_for a name it1 d1 = Ok (v1, a1) ->
  value_of (_result_for a1 name it2 d2)
    = value_of (fresh_result_for a1 name it2 d2).
Proof.
  intros Hall Hmiss Himpl1 Himpl2 Hcls Hres.
  unfold _result_for in Hres. rewrite Himpl1 in Hres. simpl in Hres.
  rewrite Hmiss in Hres.
  apply resolve_stores in Hres as (h & Hhit & Hsame & Hown & Hend); [|done].
  simpl in *.
  rewrite (result_for_cache_hit a1 name it2 d2 h Himpl2) by (by rewrite <- Hcls).
  unfold fresh_result_for, _result_for. rewrite Himpl2. simpl.
  rewrite lookup_empty. unfold resolve. simpl.
  pose proof (scan_by_type (String.substring 0 4 name)
                (String.substring 4 (String.length name - 4) name)
                it1 it2 d1 d2 0 (adapters a) (adapters a1) Hall Hsame Hcls) as Hscan.
  pose proof (scan_behaviour (String.substring 0 4 name)
                (String.substring 4 (String.length name - 4) name)
                it2 d2 0 (adapters a1)) as Hl.
  destruct (scan _ _ it2 d2 0 (adapters a1)) as [l e]. simpl in *.
  rewrite Hscan in Hend. destruct e as [h' | h' | ]; [subst h' | done |].
  - by apply invoke_value.
  - rewrite <- Hcls.
    rewrite (mro_handler_own _ (with_item_drop a (Some it1) d1) _ _ _) by (by simpl).
    rewrite Hend. simpl. by apply invoke_value.
Qed.

Example general_accepts_by_type :
  Forall (fun s => is_cacheable s = true /\ accepts_by_type s) [general].
Proof. repeat constructor. Qed.

(** C6.  The cache pre-empts a sub-adapter that is not cacheable.  With the
    sub-adapters [picky] (not cacheable, accepts only person 2) and
    [general] (cacheable), [get_title] for person 1 resolves to the handler
    of [general] and stores it under ['Person:get_title']; the next call,
    for person 2, calls that cached handler and returns ["B"], whereas a
    resolution without the cache returns the ["A"] of [picky]. *)
Theorem cache_hit_differs_from_fresh_resolution :
  let a0 := sample_adapter [picky; general] in
  let r1 := _result_for a0 "get_title" (person 1) None in
  let a1 := adapter_after a0 r1 in
  value_of r1 = Ok (VStr "B") /\
  cache a1 !! "Person:get_title" = Some (Some (sub_get 1 "title")) /\
  adapters a1 = [sub_set_item_drop picky (Some (person 1)) None;
                 sub_set_item_drop general (Some (person 1)) None] /\
  value_of (_result_for a1 "get_title" (person 2) None) = Ok (VStr "B") /\
  value_of (fresh_result_for a1 "get_title" (person 2) None) = Ok (VStr "A").
Proof. vm_compute. repeat split. Qed.

(** C9.  [get_theme_inactive] returns the resolved inactive theme when it
    is not [None] and the resolved active theme otherwise;
    [get_theme_hover] returns the first that is not [None] among the
    resolved hover, inactive and active themes, in this order, the later
    ones being resolved only when needed.  The resolved values are themes:
    a Theme or [None]. *)
Theorem theme_fallbacks (a : ListCanvasAdapter) (it : HasTraits) :
  (forall r1 a1,
     _result_for a "get_theme_inactive" it None = Ok (r1, a1) -> is_theme r1 ->
     (r1 <> VNone -> get_theme_inactive a it = Ok (r1, a1)) /\
     (r1 = VNone ->
        get_theme_inactive a it = _result_for a1 "get_theme_active" it None)) /\
  (forall r1 a1,
     _result_for a "get_theme_hover" it None = Ok (r1, a1) -> is_theme r1 ->
     (r1 <> VNone -> get_theme_hover a it = Ok (r1, a1)) /\
     (r1 = VNone ->
        forall r2 a2,
          _result_for a1 "get_theme_inactive" it None = Ok (r2, a2) -> is_theme r2 ->
          (r2 <> VNone -> get_theme_hover a it = Ok (r2, a2)) /\
          (r2 = VNone ->
             get_theme_hover a it = _result_for a2 "get_theme_active" it None))).
Proof.
  split.
  - intros r1 a1 Hres Hth. unfold get_theme_inactive. rewrite Hres. simpl.
    destruct r1; simpl in Hth |- *; done.
  - intros r1 a1 Hres Hth. unfold get_theme_hover. rewrite Hres. simpl.
    destruct r1; simpl in Hth |- *; try done. split; [done|]. intros _.
    intros r2 a2 Hres2 Hth2. rewrite Hres2. simpl.
    destruct r2; simpl in Hth2 |- *; done.
Qed.

Lemma theme_fallbacks_witness :
  value_of (get_theme_inactive (sample_adapter []) (person 1))
    = Ok (VTheme "default_active") /\
  value_of (get_theme_hover (sample_adapter []) (person 1))
    = Ok (VTheme "default_active").
Proof.
  pose (a1 := adapter_after (sample_adapter [])
                (_result_for (sample_adapter []) "get_theme_inactive" (person 1) None)).
  pose (b1 := adapter_after (sample_adapter [])
                (_result_for (sample_adapter []) "get_theme_hover" (person 1) None)).
  pose (b2 := adapter_after b1
                (_result_for b1 "get_theme_inactive" (person 1) None)).
  destruct (theme_fallbacks (sample_adapter []) (person 1)) as [Hinactive Hhover].
  split.
  - rewrite (proj2 (Hinactive VNone a1 ltac:(vm_compute; reflexivity) I) eq_refl).
    vm_compute. reflexivity.
  - rewrite (proj2 (proj2 (Hhover VNone b1 ltac:(vm_compute; reflexivity) I) eq_refl
                      VNone b2 ltac:(vm_compute; reflexivity) I) eq_refl).
    vm_compute. reflexivity.
Defined.

End AdapterProofs.

(** ** Further properties of the canvas *)

Module CanvasMore.

Import Canvas.
Import CanvasProofs.

Section more.

Context `{!DictOrder} `{!FloatOps} `{!TraitNotification}.

(** *** Resizing: which edges move *)

(** The two values [resize_x] can give, by the bits of the mode. *)
Lemma resize_x_Ok (c : ListCanvas) (mode xo dxo dx xo' dxo' : Z) :
  resize_x c mode xo dxo dx = Ok (xo', dxo') ->
  (Z.land mode 4 <> 0 -> Z.land mode 1 <> 0 -> xo' + dxo' = xo + dxo) /\
  (Z.land mode 4 <> 0 -> Z.land mode 1 = 0 -> dxo' = dxo) /\
  (Z.land mode 4 = 0 -> xo' = xo).
Proof.
  unfold resize_x. intros Hres.
  destruct (decide (Z.land mode 4 <> 0)) as [H4|H4].
  - apply bind_Ok in Hres as (dxs & _ & Hres).
    destruct (decide (Z.land mode 1 <> 0)) as [Hbit1|Hbit1].
    + injection Hres as <- <-. repeat split; intros; (lia || done).
    + destruct (decide (dxs = dx)).
      * apply bind_Ok in Hres as (d & _ & Hres). injection Hres as <- <-.
        repeat split; intros; done.
      * injection Hres as <- <-. repeat split; intros; done.
  - destruct (decide (Z.land mode 1 <> 0)) as [Hbit1|Hbit1].
    + apply bind_Ok in Hres as (d & _ & Hres). injection Hres as <- <-.
      repeat split; intros; done.
    + injection Hres as <- <-. repeat split; intros; done.
Qed.

Lemma resize_y_Ok (c : ListCanvas) (mode yo dyo dy yo' dyo' : Z) :
  resize_y c mode yo dyo dy = Ok (yo', dyo') ->
  (Z.land mode 8 <> 0 -> Z.land mode 2 <> 0 -> yo' + dyo' = yo + dyo) /\
  (Z.land mode 8 <> 0 -> Z.land mode 2 = 0 -> dyo' = dyo) /\
  (Z.land mode 8 = 0 -> yo' = yo).
Proof.
  unfold resize_y. intros Hres.
  destruct (decide (Z.land mode 8 <> 0)) as [H8|H8].
  - apply bind_Ok in Hres as (dys & _ & Hres).
    destruct (decide (Z.land mode 2 <> 0)) as [H2|H2].
    + injection Hres as <- <-. repeat split; intros; (lia || done).
    + destruct (decide (dys = dy)).
      * apply bind_Ok in Hres as (d & _ & Hres). injection Hres as <- <-.
        repeat split; intros; done.
      * injection Hres as <- <-. repeat split; intros; done.
  - destruct (decide (Z.land mode 2 <> 0)) as [H2|H2].
    + apply bind_Ok in Hres as (d & _ & Hres). injection Hres as <- <-.
      repeat split; intros; done.
    + injection Hres as <- <-. repeat split; intros; done.
Qed.

(** X1.  After [resize], whatever the snapping: dragging a leading edge
    (left: bits 0x04 and 0x01, top: bits 0x08 and 0x02) keeps the opposite
    edge where it was; moving along an axis (bit 0x04 without 0x01, bit 0x08
    without 0x02) keeps the extent; and without the leading bit the position
    along the axis stays. *)
Theorem resize_edges (w w' : World) (r : item_ref) (mode xo yo dxo dyo dx dy : Z) :
  resize w r mode xo yo dxo dyo dx dy = Ok w' ->
  exists ctl, control (heap w' r) = Some ctl /\
    (Z.land mode 4 <> 0 -> Z.land mode 1 <> 0 ->
       fst (wx_position ctl) + fst (wx_size ctl) = xo + dxo) /\
    (Z.land mode 8 <> 0 -> Z.land mode 2 <> 0 ->
       snd (wx_position ctl) + snd (wx_size ctl) = yo + dyo) /\
    (Z.land mode 4 <> 0 -> Z.land mode 1 = 0 -> fst (wx_size ctl) = dxo) /\
    (Z.land mode 8 <> 0 -> Z.land mode 2 = 0 -> snd (wx_size ctl) = dyo) /\
    (Z.land mode 4 = 0 -> fst (wx_position ctl) = xo) /\
    (Z.land mode 8 = 0 -> snd (wx_position ctl) = yo).
Proof.
  intros Hres.
  apply resize_geometry in Hres
    as (xo' & dxo' & yo' & dyo' & ctl & Hx & Hy & Hctl & Hpos & Hsz).
  apply resize_x_Ok in Hx as (Hx1 & Hx2 & Hx3).
  apply resize_y_Ok in Hy as (Hy1 & Hy2 & Hy3).
  exists ctl. rewrite Hpos, Hsz. simpl. by repeat split.
Qed.

(** *** Resizing with snapping off *)

Lemma snap_x_off (c : ListCanvas) (x dx : Z) :
  distance (snap_info c) = 0 -> snap_x c x dx = Ok dx.
Proof. intros Hoff. rewrite snap_x_axis. by apply snap_axis_off. Qed.

Lemma snap_y_off (c : ListCanvas) (y dy : Z) :
  distance (snap_info c) = 0 -> snap_y c y dy = Ok dy.
Proof. intros Hoff. rewrite snap_y_axis. by apply snap_axis_off. Qed.

(** X2.  With a snap distance of 0, [resize] on an item that has its
    control returns, and the item gets exactly the geometry the mouse delta
    gives: the position moves by the delta on the axes with the leading bit,
    and the extent shrinks by it when the leading edge is dragged and grows
    by it when the trailing edge is. *)
Theorem resize_unsnapped (w : World) (r : item_ref) (mode xo yo dxo dyo dx dy : Z) :
  distance (snap_info (lc w)) = 0 ->
  is_Some (control (heap w r)) ->
  exists w' ctl, resize w r mode xo yo dxo dyo dx dy = Ok w' /\
    control (heap w' r) = Some ctl /\
    wx_position ctl =
      (xo + (if decide (Z.land mode 4 <> 0) then dx else 0),
       yo + (if decide (Z.land mode 8 <> 0) then dy else 0)) /\
    wx_size ctl =
      (dxo + (if decide (Z.land mode 1 <> 0)
              then if decide (Z.land mode 4 <> 0) then - dx else dx
              else 0),
       dyo + (if decide (Z.land mode 2 <> 0)
              then if decide (Z.land mode 8 <> 0) then - dy else dy
              else 0)).
Proof.
  intros Hoff Hctl.
  set (dx0 := if decide (Z.land mode 5 = 0) then 0 else dx).
  set (dy0 := if decide (Z.land mode 10 = 0) then 0 else dy).
  assert (resize_x (lc w) mode xo dxo dx0 =
          Ok (xo + (if decide (Z.land mode 4 <> 0) then dx else 0),
              dxo + (if decide (Z.land mode 1 <> 0)
                     then if decide (Z.land mode 4 <> 0) then - dx else dx
                     else 0))) as Hx.
  { unfold resize_x, dx0. rewrite !snap_x_off by done. simpl.
    destruct (decide (Z.land mode 5 = 0)) as [H5|H5].
    - rewrite (land_clear_sub mode 5 4 H5 eq_refl), (land_clear_sub mode 5 1 H5 eq_refl).
      simpl. f_equal. f_equal; lia.
    - destruct (decide (Z.land mode 4 <> 0)), (decide (Z.land mode 1 <> 0)); simpl;
        rewrite ?decide_True by done; f_equal; f_equal; lia. }
  assert (resize_y (lc w) mode yo dyo dy0 =
          Ok (yo + (if decide (Z.land mode 8 <> 0) then dy else 0),
              dyo + (if decide (Z.land mode 2 <> 0)
                     then if decide (Z.land mode 8 <> 0) then - dy else dy
                     else 0))) as Hy.
  { unfold resize_y, dy0. rewrite !snap_y_off by done. simpl.
    destruct (decide (Z.land mode 10 = 0)) as [H10|H10].
    - rewrite (land_clear_sub mode 10 8 H10 eq_refl), (land_clear_sub mode 10 2 H10 eq_refl).
      simpl. f_equal. f_equal; lia.
    - destruct (decide (Z.land mode 8 <> 0)), (decide (Z.land mode 2 <> 0)); simpl;
        rewrite ?decide_True by done; f_equal; f_equal; lia. }
  destruct (resize_returns w r mode xo yo dxo dyo dx dy _ _ Hctl Hx Hy) as [w' Hres].
  exists w'.
  destruct (resize_geometry _ _ _ _ _ _ _ _ _ _ Hres)
    as (xo' & dxo' & yo' & dyo' & ctl & Hx' & Hy' & Hctl' & Hpos & Hsz).
  fold dx0 in Hx'. fold dy0 in Hy'. rewrite Hx in Hx'. rewrite Hy in Hy'.
  injection Hx' as <- <-. injection Hy' as <- <-.
  exists ctl. by repeat split.
Qed.

(** *** Moving with snapping *)

(** X3.  Moving an item along x (bit 0x04 without 0x01) with a positive
    snap distance [d] puts it within [d] of where the mouse delta alone
    would, and when it is not exactly there its left edge or else its right
    edge is on a grid line or a guide line of the drag; likewise along y
    with the top and bottom edges. *)
Theorem move_snaps_an_edge (w w' : World) (r : item_ref)
    (mode xo yo dxo dyo dx dy : Z) :
  resize w r mode xo yo dxo dyo dx dy = Ok w' ->
  0 < distance (snap_info (lc w)) ->
  exists ctl, control (heap w' r) = Some ctl /\
    (Z.land mode 4 <> 0 -> Z.land mode 1 = 0 ->
       Z.abs (fst (wx_position ctl) - (xo + dx)) <= distance (snap_info (lc w)) /\
       (fst (wx_position ctl) = xo + dx \/
        snap_target fst (lc w) (fst (wx_position ctl)) \/
        snap_target fst (lc w) (fst (wx_position ctl) + dxo))) /\
    (Z.land mode 8 <> 0 -> Z.land mode 2 = 0 ->
       Z.abs (snd (wx_position ctl) - (yo + dy)) <= distance (snap_info (lc w)) /\
       (snd (wx_position ctl) = yo + dy \/
        snap_target snd (lc w) (snd (wx_position ctl)) \/
        snap_target snd (lc w) (snd (wx_position ctl) + dyo))).
Proof.
  intros Hres Hpos.
  apply resize_geometry in Hres
    as (xo' & dxo' & yo' & dyo' & ctl & Hx & Hy & Hctl & Hp & Hs).
  exists ctl. rewrite Hp. simpl. split; [done|]. split.
  - intros H4 Hbit1. clear Hy.
    assert (Z.land mode 5 <> 0) as H5.
    { intros H5. apply H4. by apply (land_clear_sub mode 5 4). }
    rewrite decide_False in Hx by done.
    unfold resize_x in Hx. rewrite decide_True in Hx by done.
    apply bind_Ok in Hx as (dxs & Hs1 & Hx).
    rewrite decide_False in Hx by (intros Hne; by apply Hne).
    rewrite snap_x_axis in Hs1.
    destruct (decide (dxs = dx)) as [->|Hne].
    + apply bind_Ok in Hx as (d2 & Hs2 & Hx). injection Hx as <- <-.
      rewrite snap_x_axis in Hs2.
      destruct (decide (d2 = dx)) as [->|Hne2].
      * split; [lia | by left].
      * destruct (snap_axis_sound fst (lc w) (xo + dxo) dx d2 Hpos Hs2 Hne2)
          as [Htarget Hdist].
        split; [lia|]. right. right. unfold snap_target.
        by replace (xo + d2 + dxo) with (xo + dxo + d2) by lia.
    + injection Hx as <- <-.
      destruct (snap_axis_sound fst (lc w) xo dx dxs Hpos Hs1 Hne)
        as [Htarget Hdist].
      split; [lia|]. right. by left.
  - intros H8 H2. clear Hx.
    assert (Z.land mode 10 <> 0) as H10.
    { intros H10. apply H8. by apply (land_clear_sub mode 10 8). }
    rewrite decide_False in Hy by done.
    unfold resize_y in Hy. rewrite decide_True in Hy by done.
    apply bind_Ok in Hy as (dys & Hs1 & Hy).
    rewrite decide_False in Hy by (intros Hne; by apply Hne).
    rewrite snap_y_axis in Hs1.
    destruct (decide (dys = dy)) as [->|Hne].
    + apply bind_Ok in Hy as (d2 & Hs2 & Hy). injection Hy as <- <-.
      rewrite snap_y_axis in Hs2.
      destruct (decide (d2 = dy)) as [->|Hne2].
      * split; [lia | by left].
      * destruct (snap_axis_sound snd (lc w) (yo + dyo) dy d2 Hpos Hs2 Hne2)
          as [Htarget Hdist].
        split; [lia|]. right. right. unfold snap_target.
        by replace (yo + d2 + dyo) with (yo + dyo + d2) by lia.
    + injection Hy as <- <-.
      destruct (snap_axis_sound snd (lc w) yo dy dys Hpos Hs1 Hne)
        as [Htarget Hdist].
      split; [lia|]. right. by left.
Qed.

(** *** A drag *)

(** [resize] changes the control of its item only; the canvas, the other
    items and the trace stay. *)
Lemma resize_keeps_rest (w w' : World) (r : item_ref) (mode xo yo dxo dyo dx dy : Z) :
  resize w r mode xo yo dxo dyo dx dy = Ok w' ->
  same_but_geometry r w w'.
Proof.
  unfold resize, same_but_geometry. intros Hres.
  apply bind_Ok in Hres as ([xo' dxo'] & _ & Hres).
  apply bind_Ok in Hres as ([yo' dyo'] & _ & Hres).
  unfold item_position, item_size in Hres.
  destruct (control (heap w r)) as [ctl|] eqn:Hctl; simpl in Hres; [|done].
  destruct (wx_position ctl) as [cx cy] eqn:Hp.
  destruct (wx_size ctl) as [cdx cdy] eqn:Hs. simpl in Hres.
  destruct (decide (_ \/ _)) as [Hdiff|Hsame] in Hres; injection Hres as <-.
  - simpl. split; [done|]. split; [done|]. split.
    + intros r' Hne. by rewrite fn_lookup_insert_ne.
    + exists ctl, (SetDimensions ctl xo' yo' dxo' dyo').
      rewrite fn_lookup_insert. by repeat split.
  - split; [done|]. split; [done|]. split; [done|].
    exists ctl, ctl. repeat split; try done.
    unfold with_control. rewrite <- Hctl. by destruct (heap w r).
Qed.

Lemma same_but_geometry_trans (r : item_ref) (w w1 w2 : World) :
  same_but_geometry r w w1 -> same_but_geometry r w1 w2 ->
  same_but_geometry r w w2.
Proof.
  intros (Hlc & Htr & Hrest & ctl & ctl1 & Hctl & Hr & Hc & Hv & Hs & Hp)
         (Hlc' & Htr' & Hrest' & ctl' & ctl2 & Hctl' & Hr' & Hc' & Hv' & Hs' & Hp').
  rewrite Hr in Hctl'. simpl in Hctl'. injection Hctl' as <-.
  split; [congruence|]. split; [congruence|]. split.
  - intros r' Hne. rewrite Hrest', Hrest; done.
  - exists ctl, ctl2. split; [done|]. split; [by rewrite Hr', Hr|].
    repeat split; congruence.
Qed.

Lemma wxWindow_eq (a b : wxWindow) :
  wx_position a = wx_position b -> wx_size a = wx_size b ->
  wx_client_size a = wx_client_size b -> wx_virtual_size a = wx_virtual_size b ->
  wx_view_start a = wx_view_start b ->
  wx_pixels_per_unit a = wx_pixels_per_unit b ->
  a = b.
Proof. destruct a, b; simpl; congruence. Qed.

(** [resize] gives the item the same geometry from every world that
    differs in that item's geometry only. *)
Lemma resize_from_moved (w w1 w2 : World) (r : item_ref)
    (mode xo yo dxo dyo dx dy : Z) :
  same_but_geometry r w w1 ->
  resize w r mode xo yo dxo dyo dx dy = Ok w2 ->
  exists w2', resize w1 r mode xo yo dxo dyo dx dy = Ok w2' /\ same_world w2 w2'.
Proof.
  intros Hsame Hres.
  pose proof (resize_keeps_rest _ _ _ _ _ _ _ _ _ _ Hres) as Hw2.
  destruct (resize_geometry _ _ _ _ _ _ _ _ _ _ Hres)
    as (xo' & dxo' & yo' & dyo' & c2 & Hx & Hy & Hc2 & Hp2 & Hs2).
  destruct Hsame as (Hlc & Htr & Hrest & ctl & ctl1 & Hctl & Hr1 & Hf1).
  assert (control (heap w1 r) = Some ctl1) as Hctl1 by (by rewrite Hr1).
  rewrite <- Hlc in Hx, Hy.
  destruct (resize_returns w1 r mode xo yo dxo dyo dx dy _ _
              (mk_is_Some _ _ Hctl1) Hx Hy) as [w2' Hres'].
  exists w2'. split; [done|].
  pose proof (resize_keeps_rest _ _ _ _ _ _ _ _ _ _ Hres') as Hw2'.
  destruct (resize_geometry _ _ _ _ _ _ _ _ _ _ Hres')
    as (xa & dxa & ya & dya & c2' & Hx' & Hy' & Hc2' & Hp2' & Hs2').
  rewrite Hx in Hx'. rewrite Hy in Hy'.
  injection Hx' as <- <-. injection Hy' as <- <-.
  destruct Hw2 as (Hlc2 & Htr2 & Hrest2 & ctlw & ctlw2 & Hctlw & Hr2 & Hf2).
  destruct Hw2' as (Hlc2' & Htr2' & Hrest2' & ctlv & ctlv2 & Hctlv & Hr2' & Hf2').
  rewrite Hctl in Hctlw. injection Hctlw as <-.
  rewrite Hctl1 in Hctlv. injection Hctlv as <-.
  rewrite Hr2 in Hc2. simpl in Hc2. injection Hc2 as ->.
  rewrite Hr2' in Hc2'. simpl in Hc2'. injection Hc2' as ->.
  split; [congruence|]. split; [congruence|].
  intros r'. destruct (decide (r' = r)) as [->|Hne].
  - rewrite Hr2', Hr2, Hr1. unfold with_control. simpl. f_equal. f_equal.
    destruct Hf1 as (? & ? & ? & ?), Hf2 as (? & ? & ? & ?), Hf2' as (? & ? & ? & ?).
    apply wxWindow_eq; congruence.
  - rewrite Hrest2', Hrest2, Hrest; done.
Qed.

Lemma dragging_motion_Ok (w w' : World) (x y : Z) :
  dragging_motion w x y = Ok w' ->
  exists r mode x0 y0 dx dy xo yo,
    _drag_item (lc w) = Some r /\
    _drag_info (lc w) = Some (mode, x0, y0, dx, dy, xo, yo) /\
    resize w r mode x0 y0 dx dy
      (fst (_event_xy (lc w) x y) - xo) (snd (_event_xy (lc w) x y) - yo) = Ok w'.
Proof.
  unfold dragging_motion. destruct (_event_xy (lc w) x y) as [ex ey].
  intros Hres. apply bind_Ok in Hres as (info & Hinfo & Hres).
  destruct info as [[[[[[mode x0] y0] dx] dy] xo] yo].
  apply bind_Ok in Hres as (r & Hitem & Hres).
  destruct (_drag_info (lc w)) as [info|]; [|done]. injection Hinfo as ->.
  destruct (_drag_item (lc w)) as [r'|]; [|done]. injection Hitem as ->.
  by exists r, mode, x0, y0, dx, dy, xo, yo.
Qed.

(** The motions of a drag change the geometry of the dragged item only. *)
Lemma dragging_motions_frame (moves : list (Z * Z)) (w w' : World) (r : item_ref) :
  _drag_item (lc w) = Some r -> is_Some (control (heap w r)) ->
  dragging_motions w moves = Ok w' ->
  same_but_geometry r w w'.
Proof.
  unfold dragging_motions. revert w.
  induction moves as [|[x y] moves IH]; intros w Hitem [ctl Hctl] Hres.
  - injection Hres as <-. split; [done|]. split; [done|]. split; [done|].
    exists ctl, ctl. split; [done|]. split; [|done].
    unfold with_control. rewrite <- Hctl. by destruct (heap w r).
  - rewrite foldM_cons in Hres. apply bind_Ok in Hres as (w1 & Hstep & Hres).
    apply dragging_motion_Ok in Hstep
      as (r' & mode & x0 & y0 & dx & dy & xo & yo & Hitem' & _ & Hstep).
    rewrite Hitem in Hitem'. injection Hitem' as <-.
    apply resize_keeps_rest in Hstep.
    eapply same_but_geometry_trans; [done|].
    destruct Hstep as (Hlc & _ & _ & c & c1 & _ & Hr1 & _).
    apply IH; [by rewrite Hlc | by rewrite Hr1; eexists | done].
Qed.

(** X4.  The geometry a drag gives the item depends on the last mouse
    position only: a motion to [(x, y)] after any motions of the drag leaves
    the world the motion to [(x, y)] alone leaves. *)
Theorem drag_is_path_independent (w wk w2 : World) (moves : list (Z * Z)) (x y : Z) :
  dragging_motions w moves = Ok wk ->
  dragging_motion w x y = Ok w2 ->
  exists w2', dragging_motion wk x y = Ok w2' /\ same_world w2 w2'.
Proof.
  intros Hmoves Hlast.
  apply dragging_motion_Ok in Hlast
    as (r & mode & x0 & y0 & dx & dy & xo & yo & Hitem & Hinfo & Hres).
  assert (is_Some (control (heap w r))) as Hctl.
  { destruct (resize_keeps_rest _ _ _ _ _ _ _ _ _ _ Hres)
      as (_ & _ & _ & c & _ & Hc & _). by eexists. }
  pose proof (dragging_motions_frame _ _ _ _ Hitem Hctl Hmoves) as Hsame.
  destruct (resize_from_moved _ _ _ _ _ _ _ _ _ _ _ Hsame Hres) as (w2' & Hres' & Heq).
  exists w2'. split; [|done].
  destruct Hsame as (Hlc & _). unfold dragging_motion. rewrite Hlc.
  destruct (_event_xy (lc w) x y) as [ex ey]. rewrite Hinfo, Hitem. simpl.
  by simpl in Hres'.
Qed.

(** *** The guide lines of a drag *)

Lemma guide_lines_fold_ext (h h' : item_ref -> ListCanvasItem)
    (skip : option item_ref) (l : list item_ref) (acc : gset Z * gset Z) :
  (forall r, Some r <> skip -> h' r = h r) ->
  foldM (guide_lines_step h' skip) l acc = foldM (guide_lines_step h skip) l acc.
Proof.
  intros Hext. revert acc. induction l as [|a l IH]; intros acc; [done|].
  rewrite !foldM_cons.
  assert (guide_lines_step h' skip acc a = guide_lines_step h skip acc a) as ->.
  { unfold guide_lines_step. destruct (decide (Some a = skip)); [done|].
    by rewrite Hext. }
  destruct (guide_lines_step h skip acc a); simpl; [apply IH | done].
Qed.

Lemma begin_drag_Ok (w w' : World) (item : item_ref) (mode x y : Z) :
  begin_drag w item mode x y = Ok w' ->
  is_Some (control (heap w item)) /\
  heap w' = heap w /\ trace w' = trace w /\
  items (lc w') = items (lc w) /\ active_item (lc w') = active_item (lc w) /\
  canvas (lc w') = canvas (lc w) /\
  lc_state (lc w') = dragging /\
  _drag_item (lc w') = Some item /\
  (0 < distance (snap_info (lc w)) -> guide_snapping (guide_info (lc w)) = true ->
   exists g, _drag_guides (lc w') = Some g /\ _guide_lines w' = Ok g).
Proof.
  unfold begin_drag. destruct (_event_xy (lc w) x y) as [ex ey].
  intros Hres.
  apply bind_Ok in Hres as ([x0 y0] & Hpos & Hres).
  apply bind_Ok in Hres as ([dx dy] & _ & Hres).
  assert (is_Some (control (heap w item))) as Hctl.
  { unfold item_position in Hpos. destruct (control (heap w item)); [by eexists | done]. }
  destruct (canvas_position (lc w)) as [x1 y1]. simpl in Hres.
  destruct (bool_decide (distance (snap_info (lc w)) > 0)) eqn:Hd;
    destruct (guide_snapping (guide_info (lc w))) eqn:Hg; simpl in Hres.
  - apply bind_Ok in Hres as (g & Hlines & Hres). injection Hres as <-. simpl.
    repeat split; try done. intros _ _. exists g. split; [done|].
    by rewrite <- Hlines.
  - injection Hres as <-. simpl. repeat split; done.
  - injection Hres as <-. simpl. repeat split; try done.
    intros Hpos'. apply bool_decide_eq_false in Hd. lia.
  - injection Hres as <-. simpl. repeat split; done.
Qed.

(** X5.  Throughout a drag the guide lines the item snaps to are the guide
    lines of the canvas as it is, those [canvas_paint] draws: after
    [begin_drag] with guide snapping on and any motions, [_drag_guides]
    holds what [_guide_lines] returns. *)
Theorem drag_guides_stay_current (w w1 w2 : World) (item : item_ref)
    (mode x y : Z) (moves : list (Z * Z)) :
  begin_drag w item mode x y = Ok w1 ->
  0 < distance (snap_info (lc w)) ->
  guide_snapping (guide_info (lc w)) = true ->
  dragging_motions w1 moves = Ok w2 ->
  exists g, _drag_guides (lc w2) = Some g /\ _guide_lines w2 = Ok g.
Proof.
  intros Hbegin Hdist Hsnap Hmoves.
  apply begin_drag_Ok in Hbegin as (Hctl & Hheap & _ & _ & _ & _ & _ & Hitem & Hguides).
  destruct (Hguides Hdist Hsnap) as (g & Hg & Hlines).
  assert (is_Some (control (heap w1 item))) as Hctl1 by (by rewrite Hheap).
  destruct (dragging_motions_frame _ _ _ _ Hitem Hctl1 Hmoves)
    as (Hlc & _ & Hrest & _).
  exists g. rewrite Hlc. split; [done|].
  rewrite <- Hlines. unfold _guide_lines. rewrite Hlc.
  destruct (canvas_size (lc w1)). apply guide_lines_fold_ext.
  intros r Hne. apply Hrest. rewrite Hitem in Hne. congruence.
Qed.

(** *** The virtual size of a scrollable canvas *)

Lemma adjust_size_fold (h : item_ref -> ListCanvasItem) (xvs yvs : Z)
    (l : list item_ref) (cdx cdy cdx' cdy' : Z) :
  foldM (adjust_size_step h xvs yvs) l (cdx, cdy) = Ok (cdx', cdy') ->
  cdx <= cdx' /\ cdy <= cdy' /\
  (forall r ctl, r ∈ l -> control (h r) = Some ctl ->
     fst (wx_position ctl) + fst (wx_size ctl) + xvs <= cdx' /\
     snd (wx_position ctl) + snd (wx_size ctl) + yvs <= cdy') /\
  (cdx' = cdx \/ exists r ctl, r ∈ l /\ control (h r) = Some ctl /\
     cdx' = fst (wx_position ctl) + fst (wx_size ctl) + xvs) /\
  (cdy' = cdy \/ exists r ctl, r ∈ l /\ control (h r) = Some ctl /\
     cdy' = snd (wx_position ctl) + snd (wx_size ctl) + yvs).
Proof.
  revert cdx cdy. induction l as [|a l IH]; intros cdx cdy Hres.
  - injection Hres as <- <-. split; [lia|]. split; [lia|].
    split; [|split; by left]. intros r ctl Hin. by apply elem_of_nil in Hin.
  - rewrite foldM_cons in Hres. apply bind_Ok in Hres as ([cdx1 cdy1] & Hstep & Hres).
    unfold adjust_size_step, item_position, item_size in Hstep.
    destruct (control (h a)) as [ctl|] eqn:Hctl; simpl in Hstep; [|done].
    destruct (wx_position ctl) as [x y] eqn:Hp, (wx_size ctl) as [dx dy] eqn:Hs.
    simpl in Hstep. injection Hstep as <- <-.
    destruct (IH _ _ Hres) as (Hx & Hy & Hall & Hax & Hay).
    split; [lia|]. split; [lia|]. split; [|split].
    + intros r ctl' Hin Hctl'. apply elem_of_cons in Hin as [-> | Hin].
      * rewrite Hctl in Hctl'. injection Hctl' as <-. rewrite Hp, Hs. simpl. lia.
      * exact (Hall r ctl' Hin Hctl').
    + destruct Hax as [-> | (r & ctl' & Hin & Hctl' & ->)].
      * destruct (Z.max_spec cdx (x + dx + xvs)) as [[_ ->] | [_ ->]]; [|by left].
        right. exists a, ctl. rewrite Hp, Hs. simpl.
        split; [apply list_elem_of_here | done].
      * right. exists r, ctl'. split; [by apply list_elem_of_further | done].
    + destruct Hay as [-> | (r & ctl' & Hin & Hctl' & ->)].
      * destruct (Z.max_spec cdy (y + dy + yvs)) as [[_ ->] | [_ ->]]; [|by left].
        right. exists a, ctl. rewrite Hp, Hs. simpl.
        split; [apply list_elem_of_here | done].
      * right. exists r, ctl'. split; [by apply list_elem_of_further | done].
Qed.

(** X6.  [_adjust_size] leaves a canvas that is not scrollable as it is.
    On a scrollable canvas it changes the virtual size only, to the least
    size that is not negative and reaches the right and bottom edge of
    every item, shifted by the view start in pixels. *)
Theorem adjust_size_covers (w w' : World) :
  _adjust_size w = Ok w' ->
  (scrollable (lc w) = false -> w' = w) /\
  (scrollable (lc w) = true ->
     let xvs := fst (wx_view_start (canvas (lc w))) *
                fst (wx_pixels_per_unit (canvas (lc w))) in
     let yvs := snd (wx_view_start (canvas (lc w))) *
                snd (wx_pixels_per_unit (canvas (lc w))) in
     let '(vdx, vdy) := wx_virtual_size (canvas (lc w')) in
     w' = with_lc w (with_canvas (lc w) (SetVirtualSize (canvas (lc w)) (vdx, vdy))) /\
     0 <= vdx /\ 0 <= vdy /\
     (forall r ctl, r ∈ items (lc w) -> control (heap w r) = Some ctl ->
        fst (wx_position ctl) + fst (wx_size ctl) + xvs <= vdx /\
        snd (wx_position ctl) + snd (wx_size ctl) + yvs <= vdy) /\
     (vdx = 0 \/ exists r ctl, r ∈ items (lc w) /\ control (heap w r) = Some ctl /\
        vdx = fst (wx_position ctl) + fst (wx_size ctl) + xvs) /\
     (vdy = 0 \/ exists r ctl, r ∈ items (lc w) /\ control (heap w r) = Some ctl /\
        vdy = snd (wx_position ctl) + snd (wx_size ctl) + yvs)).
Proof.
  unfold _adjust_size. intros Hres. split; intros Hscroll; rewrite Hscroll in Hres.
  - by injection Hres as <-.
  - destruct (wx_view_start (canvas (lc w))) as [xvs yvs].
    destruct (wx_pixels_per_unit (canvas (lc w))) as [xppu yppu].
    apply bind_Ok in Hres as ([vdx vdy] & Hfold & Hres). injection Hres as <-.
    simpl. apply adjust_size_fold in Hfold as (Hx0 & Hy0 & Hall & Hax & Hay).
    split; [done|]. split; [done|]. split; [done|]. split; [done|]. by split.
Qed.

(** Settles the [decide] and [bool_decide] of the goal that linear
    arithmetic decides. *)
Ltac decide_by_lia :=
  repeat first
    [ rewrite decide_True by lia
    | rewrite decide_False by lia
    | rewrite bool_decide_eq_true_2 by lia
    | rewrite bool_decide_eq_false_2 by lia ];
  simpl.

(** *** The cursor and the permissions *)

(** X7.  The cursor [_set_cursor] sets is the one of the mode it returns;
    the mode is 0, 12 or one of the eight resize modes; a resize mode is
    returned only when the adapter permits resizing and 12 only when it
    permits moving. *)
Theorem set_cursor_shape (a : AdapterView) (it : ListCanvasItem) (x y mode : Z)
    (cursor : wxCursor) :
  _set_cursor a it x y = Ok (mode, cursor) ->
  cursor = cursor_of_mode mode /\
  mode ∈ [0; 1; 2; 3; 5; 7; 10; 11; 12; 15] /\
  (mode <> 0 -> mode <> 12 -> get_can_resize a (object it) = true) /\
  (mode = 12 -> get_can_move a (object it) = true).
Proof.
  unfold _set_cursor. intros Hres.
  apply bind_Ok in Hres as ([dx dy] & _ & Hres).
  destruct (decide (x >= 0 /\ x < dx /\ y >= 0 /\ y < dy)) as [Hin|Hout];
    [|injection Hres as <- <-; split; [done|]; split; [repeat constructor|]; by split].
  destruct (get_can_resize a (object it)), (get_can_move a (object it));
    destruct (decide (x < 4)), (decide (x >= dx - 4)),
             (decide (y < 4)), (decide (y >= dy - 4)),
             (decide (y < xtop (image_slice (theme it)) \/
                      y >= dy - xbottom (image_slice (theme it))));
    revert Hres; decide_by_lia; intros Hres; injection Hres as <- <-;
    (split; [done|]; split; [repeat constructor|]; by split).
Qed.

(** *** Disposing twice *)

Lemma dispose_trace (w : World) (r : item_ref) :
  trace (dispose w r) =
    trace w ++
    (if ui (heap w r) is Some _ then [EvUiDispose r] else []) ++
    (if control (heap w r) is Some _ then [EvDestroy r] else []).
Proof.
  unfold dispose. destruct (ui (heap w r)) as [u|] eqn:Hui; simpl.
  - rewrite fn_lookup_insert. simpl.
    destruct (control (heap w r)); simpl; by rewrite <- ?app_assoc.
  - destruct (control (heap w r)); simpl; by rewrite ?app_nil_r.
Qed.

Lemma dispose_of_disposed (w : World) (r r' : item_ref) :
  disposed (heap w r) -> heap (dispose w r) r' = heap w r'.
Proof.
  intros [Hctl Hui]. unfold dispose.
  destruct (ui (heap w r)) as [u|] eqn:Hu; simpl.
  - rewrite fn_lookup_insert. simpl. rewrite Hctl. simpl.
    destruct (decide (r' = r)) as [->|Hne];
      [rewrite fn_lookup_insert | by rewrite fn_lookup_insert_ne].
    specialize (Hui u eq_refl). destruct u as [d]. simpl in Hui. subst d.
    destruct (heap w r); simpl in *. by subst.
  - by rewrite Hctl.
Qed.

(** X8.  [dispose] destroys the control of an item once: a second call
    leaves the canvas and every item as the first left them and adds no
    [Destroy] to the trace, only the [dispose] of the Traits UI again when
    the item has one. *)
Theorem dispose_twice (w : World) (r : item_ref) :
  lc (dispose (dispose w r) r) = lc (dispose w r) /\
  (forall r', heap (dispose (dispose w r) r) r' = heap (dispose w r) r') /\
  trace (dispose (dispose w r) r) =
    trace (dispose w r) ++ (if ui (heap w r) is Some _ then [EvUiDispose r] else []).
Proof.
  pose proof (dispose_self w r) as Hd.
  split; [by rewrite dispose_lc|]. split.
  - intros r'. by apply dispose_of_disposed.
  - rewrite dispose_trace. destruct Hd as [-> _]. rewrite app_nil_r. f_equal.
    unfold dispose. destruct (ui (heap w r)) as [u|] eqn:Hu; simpl.
    + rewrite fn_lookup_insert. simpl.
      destruct (control (heap w r)); simpl; by rewrite ?fn_lookup_insert.
    + destruct (control (heap w r)); simpl; rewrite ?fn_lookup_insert; simpl;
        by rewrite Hu.
Qed.

(** *** Refreshing for a drag *)

(** X9.  Whenever going between the states ['normal'] and ['dragging']
    changes whether [canvas_paint] draws the grid or whether it draws the
    guide lines, [_refresh_canvas_drag] refreshes the canvas, at the start
    of the drag and at its end. *)
Theorem refresh_when_paint_changes (c : ListCanvas) (start : bool) :
  paints_grid (with_lc_state c normal) <> paints_grid (with_lc_state c dragging) \/
  paints_guides (with_lc_state c normal) <> paints_guides (with_lc_state c dragging) ->
  _refresh_canvas_drag c start = true.
Proof.
  unfold paints_grid, paints_guides, _refresh_canvas_drag. simpl.
  destruct (grid_visible (grid_info c)), (guide_visible (guide_info c));
    simpl; intros [Hne | Hne]; try done; destruct start; simpl; try done;
    exfalso; apply Hne; done.
Qed.

(** *** Placing an item *)

Lemma initial_position_for_Ok (w : World) (dx dy x y : Z) :
  initial_position_for w dx dy = Ok (x, y) ->
  x + dx <= fst (canvas_size (lc w)) \/ x = 0.
Proof.
  unfold initial_position_for. destruct (canvas_size (lc w)) as [cdx cdy]. simpl.
  intros Hres. apply bind_Ok in Hres as ([[xmax ymax] ynext] & _ & Hres).
  destruct (decide (xmax + dx > cdx)); injection Hres as <- <-; [by right | left; lia].
Qed.

(** X10.  [initialize_position] changes the control of its item only.  The
    item gets its best width (height) when the adapter's width (height) is
    not positive.  When the adapter's position is not positive in x and in
    y, the item is put where [initial_position_for] puts an item of its
    size, so that it ends within the canvas width or at the left edge. *)
Theorem initialize_position_default (w w' : World) (r : item_ref) :
  initialize_position w r = Ok w' ->
  lc w' = lc w /\ (forall r', r' <> r -> heap w' r' = heap w r') /\
  exists ctl x y dx dy,
    heap w' r = with_control (heap w r) (Some ctl) /\
    wx_position ctl = (x, y) /\ wx_size ctl = (dx, dy) /\
    (le_zero (fst (get_size (adapter (lc w)) (object (heap w r)))) = true ->
       dx = fst (best_size (heap w r))) /\
    (le_zero (snd (get_size (adapter (lc w)) (object (heap w r)))) = true ->
       dy = snd (best_size (heap w r))) /\
    (le_zero (fst (get_position (adapter (lc w)) (object (heap w r)))) = true ->
     le_zero (snd (get_position (adapter (lc w)) (object (heap w r)))) = true ->
       initial_position_for w dx dy = Ok (x, y) /\
       (x + dx <= fst (canvas_size (lc w)) \/ x = 0)).
Proof.
  unfold initialize_position. intros Hres.
  destruct (best_size (heap w r)) as [bdx bdy].
  destruct (canvas_size (lc w)) as [cdx cdy] eqn:Hcs.
  destruct (get_position (adapter (lc w)) (object (heap w r))) as [px py].
  destruct (get_size (adapter (lc w)) (object (heap w r))) as [sx sy].
  apply bind_Ok in Hres as (dx & Hdx & Hres).
  apply bind_Ok in Hres as (dy & Hdy & Hres).
  apply bind_Ok in Hres as (x1 & Hx1 & Hres).
  apply bind_Ok in Hres as ([x2 y2] & Hxy & Hres).
  apply bind_Ok in Hres as (ctl & Hctl & Hres).
  apply bind_Ok in Hres as (x & Hx & Hres).
  injection Hres as <-. simpl.
  split; [done|]. split; [intros r' Hne; by rewrite fn_lookup_insert_ne|].
  exists (SetDimensions ctl x y2 dx dy), x, y2, dx, dy.
  rewrite fn_lookup_insert. split; [done|]. split; [done|]. split; [done|].
  split; [|split].
  - intros Hle. unfold initial_extent in Hdx. rewrite Hle in Hdx. by injection Hdx.
  - intros Hle. unfold initial_extent in Hdy. rewrite Hle in Hdy. by injection Hdy.
  - intros Hlex Hley. rewrite Hlex in Hx1. rewrite Hley in Hxy.
    assert ((match x1 with inl v => le_zero v | inr n => bool_decide (n <= 0) end)
            = true) as Hx1le.
    { destruct (gt_zero py); injection Hx1 as <-; [done | exact Hlex]. }
    rewrite Hx1le in Hxy.
    apply bind_Ok in Hxy as ([xi yi] & Hinit & Hxy). injection Hxy as <- <-.
    injection Hx as <-. split; [done|].
    apply initial_position_for_Ok in Hinit. by rewrite Hcs in Hinit.
Qed.

(** *** The active item under mouse events *)

(** The states of the items and the active item decide [active_coherent]. *)
Lemma active_coherent_same (w w' : World) :
  items (lc w') = items (lc w) -> active_item (lc w') = active_item (lc w) ->
  (forall r, state (heap w' r) = state (heap w r)) ->
  active_coherent w -> active_coherent w'.
Proof.
  intros Hitems Hact Hst Hinv r Hr. rewrite Hst, Hact. apply Hinv.
  by rewrite <- Hitems.
Qed.

Lemma active_left_down_frame (w w' : World) (r : item_ref) (x y : Z) :
  active_left_down w r x y = Ok w' ->
  items (lc w') = items (lc w) /\ active_item (lc w') = active_item (lc w) /\
  heap w' = heap w /\
  (lc_state (lc w') = dragging /\ _drag_item (lc w') = Some r \/ w' = w).
Proof.
  unfold active_left_down. intros Hres.
  apply bind_Ok in Hres as ([mode cursor] & _ & Hres).
  destruct (decide (mode > 0)); [|injection Hres as <-; by repeat split; try right].
  apply begin_drag_Ok in Hres as (_ & Hheap & _ & Hitems & Hact & _ & Hst & Hitem & _).
  repeat split; try done. by left.
Qed.

Lemma set_state_not_active (w w1 : World) (r : item_ref) (s : ItemState)
    (r' : item_ref) :
  set_state w r s = Ok w1 ->
  s <> active -> state (heap w r) <> active ->
  (state (heap w1 r') = active <-> state (heap w r') = active).
Proof.
  intros Hset Hs Hr.
  apply set_state_Ok in Hset as (_ & Hst & Hrest & _).
  destruct (decide (r' = r)) as [->|Hne].
  - rewrite Hst. split; intros Heq; congruence.
  - by rewrite Hrest.
Qed.

(** A call of [activate] that returns keeps the items and keeps the items
    in state [active] exactly the active item. *)
Lemma activate_coherent (w w1 : World) (item : option item_ref) :
  activate w item = Ok w1 -> active_coherent w ->
  items (lc w1) = items (lc w) /\ lc_state (lc w1) = lc_state (lc w) /\
  _drag_item (lc w1) = _drag_item (lc w) /\
  active_item (lc w1) = item /\ active_coherent w1.
Proof.
  intros Hres Hinv.
  destruct (decide (item = active_item (lc w))) as [Heq|Hne].
  { rewrite activate_same in Hres by done. by injection Hres as <-. }
  apply activate_Ok in Hres as (Hlc & Hst & _ & _); [|done].
  rewrite Hlc. simpl. do 4 (split; [done|]).
  intros r' Hr'. rewrite Hlc in Hr' |- *. simpl in Hr' |- *. rewrite Hst.
  destruct (decide (item = Some r')) as [Heq|Hne']; [done|].
  destruct (decide (active_item (lc w) = Some r')) as [Ha|Ha].
  - split; [done | congruence].
  - rewrite (Hinv r' Hr'). split; congruence.
Qed.

Lemma mouse_step_coherent (w w' : World) :
  mouse_step w w' -> active_coherent w ->
  items (lc w') = items (lc w) /\ active_coherent w'.
Proof.
  intros Hstep Hinv. destruct Hstep as
    [r x y w' Hst Hres | b r x y w' Hst Hres | r x y w' Hst Hres
    | r x y w' Hst Hres | x y w' Hst Hres | x y w' Hst Hres].
  - unfold inactive_motion in Hres. apply bind_Ok in Hres as (w1 & Hset & Hres).
    apply bind_Ok in Hres as (? & _ & Hres). injection Hres as <-.
    pose proof (set_state_Ok _ _ _ _ Hset) as (Hlc & _).
    rewrite Hlc. split; [done|].
    intros r' Hr'. rewrite Hlc in Hr' |- *.
    rewrite (set_state_not_active _ _ _ _ r' Hset) by congruence. by apply Hinv.
  - unfold hover_motion in Hres. destruct b; simpl in Hres.
    + apply bind_Ok in Hres as (? & _ & Hres). by injection Hres as <-.
    + apply bind_Ok in Hres as (w1 & Hset & Hres).
      destruct (control _); [|done]. injection Hres as <-.
      pose proof (set_state_Ok _ _ _ _ Hset) as (Hlc & _).
      rewrite Hlc. split; [done|].
      intros r' Hr'. rewrite Hlc in Hr' |- *.
      rewrite (set_state_not_active _ _ _ _ r' Hset) by congruence. by apply Hinv.
  - unfold hover_left_down in Hres. apply bind_Ok in Hres as (w1 & Hact1 & Hres).
    apply active_left_down_frame in Hres as (Hitems & Hact & Hheap & _).
    apply activate_coherent in Hact1 as (Hitems1 & _ & _ & _ & Hinv1); [|done].
    split; [congruence|]. apply (active_coherent_same w1); [done..| |done].
    by rewrite Hheap.
  - apply active_left_down_frame in Hres as (Hitems & Hact & Hheap & _).
    split; [done|]. apply (active_coherent_same w); [done..| |done].
    by rewrite Hheap.
  - apply dragging_motion_Ok in Hres as (r & mode & ? & ? & ? & ? & ? & ? & _ & _ & Hres).
    apply resize_keeps_rest in Hres as (Hlc & _ & Hrest & c & c1 & _ & Hr & _).
    rewrite Hlc. split; [done|]. apply (active_coherent_same w); [by rewrite Hlc..| |done].
    intros r'. destruct (decide (r' = r)) as [->|Hne]; [by rewrite Hr | by rewrite Hrest].
  - unfold dragging_left_up in Hres.
    apply adjust_size_frame in Hres as (Hitems & Hact & Hheap). simpl in *.
    split; [done|]. apply (active_coherent_same w); [done..| |done].
    by rewrite Hheap.
Qed.

(** X15.  Whatever mouse events the items and the canvas handle, starting
    from a canvas whose items in state [active] are exactly its active
    item: the items stay the same, the items in state [active] are still
    exactly the active item, and so at most one item is active. *)
Theorem mouse_events_keep_one_active (w w' : World) :
  rtc mouse_step w w' -> active_coherent w ->
  items (lc w') = items (lc w) /\ active_coherent w' /\ at_most_one_active w'.
Proof.
  intros Hsteps Hinv.
  assert (items (lc w') = items (lc w) /\ active_coherent w') as [Hitems Hinv'].
  { induction Hsteps as [w | w w1 w' Hstep _ IH]; [done|].
    destruct (mouse_step_coherent _ _ Hstep Hinv) as [Hitems1 Hinv1].
    destruct (IH Hinv1) as [Hitems' Hinv']. split; [congruence | done]. }
  split; [done|]. split; [done|].
  intros r1 r2 Hr1 Hr2 Hs1 Hs2.
  apply (Hinv' r1 Hr1) in Hs1. apply (Hinv' r2 Hr2) in Hs2. congruence.
Qed.

(** X16.  A left click on an item of the canvas that the mouse hovers over
    makes it the active item and the only item in state [active], whether
    or not the click begins a drag; a drag it begins is a drag of that
    item. *)
Theorem click_activates (w w' : World) (r : item_ref) (x y : Z) :
  hover_left_down w r x y = Ok w' ->
  r ∈ items (lc w) -> active_coherent w ->
  active_item (lc w') = Some r /\
  (forall r', r' ∈ items (lc w') -> (state (heap w' r') = active <-> r' = r)) /\
  (lc_state (lc w') = dragging /\ _drag_item (lc w') = Some r \/
   lc_state (lc w') = lc_state (lc w) /\ _drag_item (lc w') = _drag_item (lc w)).
Proof.
  intros Hres Hr Hinv. unfold hover_left_down in Hres.
  apply bind_Ok in Hres as (w1 & Hact1 & Hres).
  apply active_left_down_frame in Hres as (Hitems & Hact & Hheap & Hdrag).
  apply activate_coherent in Hact1 as (Hi & Hs & Hd & Ha & Hinv1); [|done].
  split; [congruence|]. split.
  - intros r' Hr'. rewrite Hheap, (Hinv1 r') by congruence. rewrite Ha.
    split; [by intros [= ->] | by intros ->].
  - destruct Hdrag as [Hdrag | ->]; [by left | by right].
Qed.

(** *** The editor *)

Lemma create_objects_spec (objects : list Obj) (e e' : Editor) (rs : list item_ref) :
  create_objects e objects = (rs, e') ->
  rs = seq (next_item e) (length objects) /\
  next_item e' = (next_item e + length objects)%nat /\
  lc (list_canvas e') = lc (list_canvas e) /\
  trace (list_canvas e') = trace (list_canvas e) /\
  _inited e' = _inited e /\ later e' = later e /\ toolkit e' = toolkit e /\
  (forall r, (r < next_item e)%nat ->
     heap (list_canvas e') r = heap (list_canvas e) r) /\
  (fun r => object (heap (list_canvas e') r)) <$> rs = objects /\
  (forall r, r ∈ rs -> is_Some (control (heap (list_canvas e') r))).
Proof.
  revert e e' rs. induction objects as [|o objects IH]; intros e e' rs Hres; simpl in Hres.
  - injection Hres as <- <-. simpl. rewrite Nat.add_0_r.
    repeat split; try done. intros r Hr. by apply elem_of_nil in Hr.
  - destruct (create_objects _ objects) as [rs1 e1] eqn:Hrec.
    injection Hres as <- <-.
    apply IH in Hrec as (-> & Hnext & Hlc & Htr & Hi & Hl & Ht & Hold & Hobj & Hctl).
    simpl in *.
    assert (heap (list_canvas e1) (next_item e) =
            {| object := o; state := inactive;
               theme := get_theme_inactive (adapter (lc (list_canvas e))) o;
               ui := Some {| ui_disposed := false |};
               control := Some (new_control (toolkit e) o);
               best_size := new_best_size (toolkit e) o |}) as Hnew.
    { rewrite Hold by lia. by rewrite fn_lookup_insert. }
    split; [done|]. split; [lia|]. split; [done|]. split; [done|].
    split; [done|]. split; [done|]. split; [done|]. split; [|split].
    + intros r Hr. rewrite Hold by lia. rewrite fn_lookup_insert_ne by lia. done.
    + rewrite Hnew. simpl. f_equal. exact Hobj.
    + intros r Hr. apply elem_of_cons in Hr as [-> | Hr]; [|by apply Hctl].
      rewrite Hnew. by eexists.
Qed.

Lemma dispose_object (w : World) (r r' : item_ref) :
  object (heap (dispose w r) r') = object (heap w r').
Proof.
  destruct (decide (r' = r)) as [->|Hne]; [|by rewrite dispose_other].
  unfold dispose. destruct (ui (heap w r)); simpl.
  - rewrite fn_lookup_insert. simpl.
    destruct (control (heap w r)); simpl; by rewrite ?fn_lookup_insert.
  - destruct (control (heap w r)); simpl; by rewrite ?fn_lookup_insert.
Qed.

Lemma dispose_all_object (l : list item_ref) (w : World) (r : item_ref) :
  object (heap (foldl dispose w l) r) = object (heap w r).
Proof.
  revert w. induction l as [|a l IH]; intros w; simpl; [done|].
  by rewrite IH, dispose_object.
Qed.

Lemma replace_loop_object (new : list item_ref) (w w' : World) (k k' : Z) (r : item_ref) :
  foldM replace_items_step new (w, k) = Ok (w', k') ->
  object (heap w' r) = object (heap w r).
Proof.
  revert w k. induction new as [|x new IH]; intros w k Hres.
  - by injection Hres as <- <-.
  - rewrite foldM_cons in Hres.
    apply bind_Ok in Hres as ([w1 k1] & Hstep & Hres).
    unfold replace_items_step in Hstep.
    apply bind_Ok in Hstep as (w0 & Hinit & Hstep). injection Hstep as <- <-.
    rewrite (IH _ _ Hres). simpl.
    apply initialize_position_Ok in Hinit as (ctl & ? & ? & ? & ? & Hctl & ->).
    simpl. destruct (decide (r = x)) as [->|Hne];
      [by rewrite fn_lookup_insert | by rewrite fn_lookup_insert_ne].
Qed.

(** What [replace_items] leaves, for an index that is not negative. *)
Lemma replace_items_inv (w w' : World) (new : list item_ref) (i j : Z) :
  replace_items w new i j = Ok w' ->
  (forall r, object (heap w' r) = object (heap w r)) /\
  (forall r, r ∈ slice (items (lc w)) i
               (if decide (j < 0) then len (items (lc w)) else j) ->
     disposed (heap w' r)) /\
  active_item (lc w') =
    match active_item (lc w) with
    | Some a =>
        if bool_decide (a ∈ slice (items (lc w)) i
                              (if decide (j < 0) then len (items (lc w)) else j))
        then None else Some a
    | None => None
    end /\
  (0 <= i ->
   items (lc w') =
     take (Z.to_nat i) (items (lc w)) ++ new ++
     drop (Z.to_nat (Z.max i (if decide (j < 0) then len (items (lc w)) else j)))
          (items (lc w))).
Proof.
  intros Hres. unfold replace_items in Hres.
  set (old := items (lc w)) in *.
  set (j' := if decide (j < 0) then len old else j) in *.
  set (w1 := match active_item (lc w) with
             | Some a => if bool_decide (a ∈ slice old i j')
                         then with_lc w (with_active_item (lc w) None) else w
             | None => w end) in Hres.
  assert (items (lc w1) = old /\ heap w1 = heap w /\
          active_item (lc w1) =
            match active_item (lc w) with
            | Some a => if bool_decide (a ∈ slice old i j') then None else Some a
            | None => None
            end) as (Hitems1 & Hheap1 & Hact1).
  { unfold w1. destruct (active_item (lc w)) as [a|] eqn:Ha; [|done].
    by destruct (bool_decide _). }
  destruct (dispose_all w1 (slice old i j')) as [Hlc2 Hdisp2].
  pose proof (dispose_all_object (slice old i j') w1) as Hobj2.
  set (w2 := foldl dispose w1 (slice old i j')) in *.
  apply bind_Ok in Hres as ([w3 k3] & Hloop & Hres).
  pose proof (fun r => replace_loop_object _ _ _ _ _ r Hloop) as Hobj3.
  apply replace_loop in Hloop as (Hact3 & _ & Hd3 & _ & Hshape3). simpl in *.
  apply adjust_size_frame in Hres as (Hitems4 & Hact4 & Hheap4).
  rewrite Hitems4, Hact4, Hheap4, Hact3, Hlc2, Hact1.
  assert (0 <= j') as Hj'.
  { unfold j'. destruct (decide (j < 0)); [apply len_nonneg | lia]. }
  split; [|split; [|split]].
  - intros r. by rewrite Hobj3, Hobj2, Hheap1.
  - intros r Hr. apply Hd3, Hdisp2. by left.
  - done.
  - intros Hi. apply Hshape3.
    + by apply del_slice_nonneg.
    + rewrite length_take. lia.
    + rewrite length_take.
      destruct (decide (i <= len old)) as [Hle|Hgt]; unfold len in *.
      * right. lia.
      * left. apply drop_ge. lia.
Qed.

Lemma slice_all {A : Type} (l : list A) : slice l 0 (len l) = l.
Proof.
  unfold slice, norm_index, len.
  rewrite !decide_False by lia.
  replace (Z.to_nat (Z.min _ (Z.max 0 0))) with 0%nat by lia.
  replace (Z.to_nat (Z.min (Z.of_nat (length l)) (Z.max 0 (Z.of_nat (length l)))))
    with (length l) by lia.
  rewrite Nat.sub_0_r. simpl. apply firstn_all.
Qed.

Lemma replace_all_returns (w : World) :
  exists w', replace_items w [] 0 (-1) = Ok w'.
Proof.
  unfold replace_items. simpl.
  match goal with |- exists w', _adjust_size ?w0 = Ok w' => set (w2 := w0) end.
  assert (items (lc w2) = []) as Hitems.
  { unfold w2. simpl. unfold del_slice.
    rewrite !norm_index_nonneg by (apply len_nonneg || lia). unfold len.
    replace (Z.to_nat (Z.min _ 0)) with 0%nat by lia.
    replace (Z.to_nat (Z.min (Z.of_nat (length (items (lc w))))
                           (Z.of_nat (length (items (lc w))))))
      with (length (items (lc w))) by lia.
    simpl. apply drop_all. }
  unfold _adjust_size. rewrite Hitems.
  destruct (scrollable (lc w2)); [|by eexists].
  destruct (wx_view_start _), (wx_pixels_per_unit _). simpl. by eexists.
Qed.

(** X11.  [_ListCanvasEditor.dispose] always succeeds in clearing the
    canvas: no item is left, every former item has been disposed, no item
    object is created, and an active item that was on the canvas is no
    longer the active item. *)
Theorem editor_dispose_clears (e : Editor) :
  exists e', editor_dispose e = Ok e' /\
    items (lc (list_canvas e')) = [] /\
    (forall r, r ∈ items (lc (list_canvas e)) -> disposed (heap (list_canvas e') r)) /\
    (active_on_canvas (list_canvas e) -> active_item (lc (list_canvas e')) = None) /\
    next_item e' = next_item e.
Proof.
  unfold editor_dispose.
  destruct (replace_all_returns (list_canvas e)) as [w' Hres]. rewrite Hres. simpl.
  eexists. split; [done|]. simpl.
  apply replace_items_inv in Hres as (_ & Hdisp & Hact & Hitems). simpl in *.
  rewrite slice_all in Hdisp, Hact.
  split; [|split; [|split]].
  - rewrite Hitems by lia. simpl. apply drop_ge. unfold len. lia.
  - done.
  - intros Hon. rewrite Hact.
    destruct (active_item (lc (list_canvas e))) as [a|] eqn:Ha; [|done].
    by rewrite (bool_decide_eq_true_2 _ (Hon a Ha)).
  - done.
Qed.

Lemma objects_of_old (e e' : Editor) (objects : list Obj) (rs : list item_ref)
    (w' : World) (l : list item_ref) :
  editor_wf e ->
  create_objects e objects = (rs, e') ->
  (forall r, object (heap w' r) = object (heap (list_canvas e') r)) ->
  (forall r, r ∈ l -> r ∈ items (lc (list_canvas e))) ->
  (fun r => object (heap w' r)) <$> l
    = (fun r => object (heap (list_canvas e) r)) <$> l.
Proof.
  intros Hwf Hcreate Hobj Hl.
  apply create_objects_spec in Hcreate as (_ & _ & _ & _ & _ & _ & _ & Hold & _).
  apply list_fmap_ext. intros k r Hk.
  rewrite Hobj, Hold; [done|]. apply Hwf, Hl. by eapply list_elem_of_lookup_2.
Qed.

(** X12.  The first call of [update_editor] only defers itself.  A later
    call, the item objects it creates being new ones, leaves on the canvas
    when it returns one new item for each object of the value, in the order
    of the value, and has disposed every item that was there. *)
Theorem update_editor_mirrors (e e' : Editor) (value : list Obj) :
  update_editor e value = Ok e' ->
  (_inited e = false ->
     list_canvas e' = list_canvas e /\ _inited e' = true /\ later e' = S (later e)) /\
  (_inited e = true -> editor_wf e ->
     canvas_objects (list_canvas e') = value /\
     (forall r, r ∈ items (lc (list_canvas e)) -> disposed (heap (list_canvas e') r)) /\
     editor_wf e').
Proof.
  unfold update_editor. intros Hres. split; intros Hi; rewrite Hi in Hres; simpl in Hres.
  - by injection Hres as <-.
  - intros Hwf.
    destruct (create_objects e value) as [rs e1] eqn:Hcreate.
    apply bind_Ok in Hres as (w' & Hrep & Hres). injection Hres as <-. simpl.
    pose proof (create_objects_spec _ _ _ _ Hcreate)
      as (Hrs & Hnext & Hlc & _ & _ & _ & _ & Hold & Hobj & _).
    apply replace_items_inv in Hrep as (Hobj' & Hdisp & _ & Hitems). simpl in *.
    rewrite Hlc in *. rewrite slice_all in Hdisp.
    specialize (Hitems ltac:(lia)).
    rewrite (drop_ge (items (lc (list_canvas e)))) in Hitems by (unfold len; lia).
    simpl in Hitems. rewrite app_nil_r in Hitems.
    split; [|split].
    + unfold canvas_objects. rewrite Hitems. rewrite <- Hobj.
      apply list_fmap_ext. intros k r _. apply Hobj'.
    + done.
    + intros r Hr. simpl in *. rewrite Hitems, Hrs in Hr.
      apply elem_of_seq in Hr. lia.
Qed.

(** X13.  [update_editor_item] mirrors a change of the list on the canvas:
    for an index that is not negative, the item objects it creates being
    new ones, when it returns the objects shown are those shown before with
    the [len( removed )] objects from [index] on replaced by the added
    objects, in their order. *)
Theorem update_editor_item_splices (e e' : Editor) (index : Z)
    (removed added : list Obj) :
  update_editor_item e index removed added = Ok e' ->
  0 <= index -> editor_wf e ->
  canvas_objects (list_canvas e') =
    take (Z.to_nat index) (canvas_objects (list_canvas e)) ++ added ++
    drop (Z.to_nat index + length removed) (canvas_objects (list_canvas e)) /\
  editor_wf e'.
Proof.
  unfold update_editor_item. intros Hres Hindex Hwf.
  destruct (create_objects e added) as [rs e1] eqn:Hcreate.
  apply bind_Ok in Hres as (w' & Hrep & Hres). injection Hres as <-. simpl.
  pose proof (create_objects_spec _ _ _ _ Hcreate)
    as (Hrs & Hnext & Hlc & _ & _ & _ & _ & Hold & Hobj & _).
  apply replace_items_inv in Hrep as (Hobj' & _ & _ & Hitems).
  rewrite Hlc in Hitems. specialize (Hitems Hindex).
  rewrite decide_False in Hitems by (unfold len; lia).
  replace (Z.to_nat (Z.max index (index + len removed)))
    with (Z.to_nat index + length removed)%nat in Hitems by (unfold len; lia).
  split.
  - unfold canvas_objects. rewrite Hitems, !fmap_app, fmap_take, fmap_drop.
    f_equal; [|f_equal].
    + f_equal. apply (objects_of_old e e1 added rs); try done.
    + rewrite <- Hobj. apply list_fmap_ext. intros k r _. apply Hobj'.
    + f_equal. apply (objects_of_old e e1 added rs); try done.
  - intros r Hr. simpl in *. rewrite Hitems in Hr. rewrite Hnext.
    rewrite !elem_of_app in Hr. destruct Hr as [Hr | [Hr | Hr]].
    + apply subseteq_take, Hwf in Hr. lia.
    + rewrite Hrs in Hr. apply elem_of_seq in Hr. lia.
    + apply subseteq_drop, Hwf in Hr. lia.
Qed.

(** *** The grid that is painted *)

(** [range( start, stop, step )] for a positive step holds the values
    [start + k * step], [k >= 0], that are below [stop]. *)
Lemma range_elem_of (start stop step : Z) (l : list Z) (v : Z) :
  0 < step -> range start stop step = Ok l ->
  v ∈ l <-> exists k, 0 <= k /\ v = start + k * step /\ v < stop.
Proof.
  intros Hstep. unfold range. rewrite decide_False by lia.
  rewrite decide_True by done. intros [= <-].
  rewrite list_elem_of_fmap.
  pose proof (Z.div_mod (stop - start + step - 1) step ltac:(lia)) as Hdiv.
  pose proof (Z.mod_pos_bound (stop - start + step - 1) step Hstep) as Hmod.
  set (q := Z.div (stop - start + step - 1) step) in *.
  split.
  - intros (k & -> & Hk). apply elem_of_seq in Hk. exists (Z.of_nat k).
    split; [lia|]. split; [done|]. nia.
  - intros (k & Hk & -> & Hlt). exists (Z.to_nat k).
    split; [by rewrite Z2Nat.id|]. apply elem_of_seq. nia.
Qed.

(** The lines of the grid that are not negative are the offset modulo the
    cell size plus the multiples of the cell size. *)
Lemma on_grid_nonneg (gi : GridInfo) (v : Z) :
  0 < size gi ->
  (0 <= v /\ on_grid gi v) <->
  exists k, 0 <= k /\ v = Z.modulo (offset gi) (size gi) + k * size gi.
Proof.
  intros Hsz. unfold on_grid.
  pose proof (Z.div_mod (offset gi) (size gi) ltac:(lia)) as Hdiv.
  pose proof (Z.mod_pos_bound (offset gi) (size gi) Hsz) as Hmod.
  split.
  - intros (Hv & k & ->). exists (k + Z.div (offset gi) (size gi)).
    split; [nia | lia].
  - intros (k & Hk & ->). split; [nia|].
    exists (k - Z.div (offset gi) (size gi)). lia.
Qed.

(** X14.  When [canvas_paint] draws the grid, with a positive cell size,
    the vertical lines it draws are at exactly the grid lines [x] with
    [0 <= x < wdx] and the horizontal ones at exactly the grid lines [y]
    with [0 <= y < wdy]: the grid drawn is the grid snapped to. *)
Theorem painted_grid_is_snap_grid (c : ListCanvas) (wdx wdy : Z) (ops : list draw) :
  paint_grid c wdx wdy = Ok ops ->
  paints_grid c = true ->
  0 < size (grid_info c) ->
  (forall x, DrawLine x 0 x wdy ∈ ops <->
     0 <= x < wdx /\ on_grid (grid_info c) x) /\
  (forall y, DrawLine 0 y wdx y ∈ ops <->
     0 <= y < wdy /\ on_grid (grid_info c) y).
Proof.
  unfold paint_grid. intros Hres Hp Hsz. rewrite Hp in Hres.
  apply bind_Ok in Hres as (off & Hoff & Hres).
  apply bind_Ok in Hres as (xs & Hxs & Hres).
  apply bind_Ok in Hres as (ys & Hys & Hres). injection Hres as <-.
  unfold floormod in Hoff. rewrite decide_False in Hoff by lia.
  injection Hoff as <-.
  pose proof (fun v => range_elem_of _ _ _ _ v Hsz Hxs) as Hx.
  pose proof (fun v => range_elem_of _ _ _ _ v Hsz Hys) as Hy.
  pose proof (Z.mod_pos_bound (offset (grid_info c)) (size (grid_info c)) Hsz) as Hmod.
  split.
  - intros x. rewrite elem_of_cons, elem_of_app, !list_elem_of_fmap. split.
    + intros [Hpen | [(v & Heq & Hv) | (v & Heq & Hv)]]; [done | |].
      * injection Heq as ->. apply Hx in Hv as (k & Hk & -> & Hlt).
        split; [nia|]. apply (on_grid_nonneg _ _ Hsz). by exists k.
      * injection Heq as E1 E2 E3 E4. apply Hy in Hv as (k & Hk & Hv & Hlt). lia.
    + intros (Hrange & Hgrid). right. left. exists x. split; [done|].
      apply Hx. destruct (proj1 (on_grid_nonneg _ x Hsz)) as (k & Hk & ->);
        [split; [lia | done]|].
      exists k. split; [done|]. split; [done | lia].
  - intros y. rewrite elem_of_cons, elem_of_app, !list_elem_of_fmap. split.
    + intros [Hpen | [(v & Heq & Hv) | (v & Heq & Hv)]]; [done | |].
      * injection Heq as E1 E2 E3 E4. apply Hx in Hv as (k & Hk & Hv & Hlt). lia.
      * injection Heq as ->. apply Hy in Hv as (k & Hk & -> & Hlt).
        split; [nia|]. apply (on_grid_nonneg _ _ Hsz). by exists k.
    + intros (Hrange & Hgrid). right. right. exists y. split; [done|].
      apply Hy. destruct (proj1 (on_grid_nonneg _ y Hsz)) as (k & Hk & ->);
        [split; [lia | done]|].
      exists k. split; [done|]. split; [done | lia].
Qed.

(** *** The stock cursors *)

(** X17.  [get_cursor] memoises: from a cache that names each cursor once,
    two calls in a row return the same cursor object exactly when they ask
    for the same cursor id, the second call of the same id creates nothing,
    and the cache still names each cursor once. *)
Theorem get_cursor_memoised (st st1 st2 : StockCursors) (a b : wxCursor) (c1 c2 : nat) :
  get_cursor st a = (c1, st1) -> get_cursor st1 b = (c2, st2) ->
  cursors_wf st ->
  (c1 = c2 <-> a = b) /\ (a = b -> st2 = st1) /\ cursors_wf st2.
Proof.
  unfold get_cursor. intros Hget1 Hget2 Hwf.
  assert (stock_cursors st1 a = Some c1 /\ cursors_wf st1) as [Ha Hwf1].
  { destruct (stock_cursors st a) as [c|] eqn:Hlook.
    - injection Hget1 as <- <-. done.
    - injection Hget1 as <- <-. simpl. split; [by rewrite fn_lookup_insert|].
      intros a' c. simpl. destruct (decide (a' = a)) as [->|Hne].
      + rewrite fn_lookup_insert. intros [= <-]. split; [lia|].
        intros b'. destruct (decide (b' = a)) as [->|Hne']; [done|].
        rewrite fn_lookup_insert_ne by done. intros Hb'.
        apply Hwf in Hb' as [Hlt _]. lia.
      + rewrite fn_lookup_insert_ne by done. intros Ha'.
        destruct (Hwf _ _ Ha') as [Hlt Hinj]. split; [lia|].
        intros b'. destruct (decide (b' = a)) as [->|Hne'].
        * rewrite fn_lookup_insert. intros [= <-]. lia.
        * rewrite fn_lookup_insert_ne by done. apply Hinj. }
  clear Hget1 Hwf. destruct (stock_cursors st1 b) as [c|] eqn:Hlook.
  - injection Hget2 as <- <-. split; [|done]. split.
    + intros <-. by apply (proj2 (Hwf1 _ _ Ha)).
    + intros <-. congruence.
  - injection Hget2 as <- <-. split; [|split].
    + split; [|intros <-; congruence].
      intros ->. apply Hwf1 in Ha as [Hlt _]. lia.
    + intros <-. congruence.
    + intros a' c. simpl. destruct (decide (a' = b)) as [->|Hne].
      * rewrite fn_lookup_insert. intros [= <-]. split; [lia|].
        intros b'. destruct (decide (b' = b)) as [->|Hne']; [done|].
        rewrite fn_lookup_insert_ne by done. intros Hb'.
        apply Hwf1 in Hb' as [Hlt _]. lia.
      * rewrite fn_lookup_insert_ne by done. intros Ha'.
        destruct (Hwf1 _ _ Ha') as [Hlt Hinj]. split; [lia|].
        intros b'. destruct (decide (b' = b)) as [->|Hne'].
        -- rewrite fn_lookup_insert. intros [= <-]. lia.
        -- rewrite fn_lookup_insert_ne by done. apply Hinj.
Qed.

(** *** The title bar *)

(** [_layout] returns on an item that has its control. *)
Lemma layout_returns (tb : TitleBar) (it : ListCanvasItem) :
  is_Some (control it) -> exists layout, _layout tb it = Ok layout.
Proof.
  intros [ctl Hctl]. unfold _layout, _layout_button. rewrite Hctl. simpl.
  destruct (decide (_ \/ _)) as [Hfit|Hnofit]; [|by eexists].
  destruct (wx_client_size ctl) as [wdx wdy], (theme_offset tb) as [ox oy].
  destruct (bitmap_size tb "close") as [cdx cdy],
           (bitmap_size tb "minimize") as [mdx mdy],
           (bitmap_size tb "drag") as [ddx ddy],
           (bitmap_size tb "clone") as [ndx ndy].
  destruct (decide (text_height tb + 4 <= xtop (image_slice (theme it))));
    destruct (get_can_delete tb), (get_can_drag tb), (get_can_clone tb);
    by eexists.
Qed.

(** X18.  [_layout] leaves the layout empty when the title text does not
    fit the theme.  When it fits, the layout holds the title and the
    buttons the adapter allows (always [minimize]) and nothing else; the
    title starts at the left margin of the slice, is as high as the text,
    and the title and the buttons, each button with 2 pixels left of it,
    fill the width up to the right margin of the slice. *)
Theorem layout_fills_title_bar (tb : TitleBar) (it : ListCanvasItem)
    (ctl : wxWindow) (layout : gmap string (Z * Z * Z * Z)) :
  _layout tb it = Ok layout -> control it = Some ctl ->
  (~ title_fits tb it -> layout = ∅) /\
  (title_fits tb it ->
   (forall name, is_Some (layout !! name) <->
      name = "title"%string \/ name ∈ title_buttons tb) /\
   exists y dx,
     layout !! "title"%string =
       Some (fst (theme_offset tb) + xleft (image_slice (theme it)), y, dx,
             text_height tb) /\
     fst (theme_offset tb) + xleft (image_slice (theme it)) + dx + buttons_width tb =
       fst (theme_offset tb) + fst (wx_client_size ctl) -
       xright (image_slice (theme it))).
Proof.
  unfold _layout, title_fits, title_buttons, buttons_width, title_buttons.
  intros Hres Hctl. rewrite Hctl in Hres. simpl in Hres.
  destruct (decide (_ \/ _)) as [Hfit|Hnofit]; [|injection Hres as <-; by split].
  split; [done|]. intros _.
  destruct (wx_client_size ctl) as [wdx wdy], (theme_offset tb) as [ox oy].
  unfold _layout_button in Hres.
  destruct (bitmap_size tb "close") as [cdx cdy] eqn:Hclose,
           (bitmap_size tb "minimize") as [mdx mdy] eqn:Hmin,
           (bitmap_size tb "drag") as [ddx ddy] eqn:Hdrag,
           (bitmap_size tb "clone") as [ndx ndy] eqn:Hclone.
  destruct (decide (text_height tb + 4 <= xtop (image_slice (theme it))));
    destruct (get_can_delete tb), (get_can_drag tb), (get_can_clone tb);
    simpl in Hres; injection Hres as <-;
    (split;
     [ intros name; rewrite !lookup_insert_is_Some, lookup_empty;
       pose proof (@is_Some_None (Z * Z * Z * Z));
       simpl; rewrite ?elem_of_cons, ?elem_of_nil; naive_solver
     | eexists _, _; split;
       [ rewrite lookup_insert_eq; repeat f_equal; lia
       | simpl; rewrite ?Hclose, ?Hmin, ?Hdrag, ?Hclone; simpl; lia ] ]).
Qed.

End more.

(** *** The properties at the sample data *)

#[local] Existing Instance elements_order.
#[local] Existing Instance integral_floats.
#[local] Existing Instance logged_exceptions.

Lemma resize_edges_witness :
  exists w', resize (sample_world 8 drag dragging) 0%nat 5 0 0 80 60 13 0 = Ok w' /\
    exists ctl, control (heap w' 0%nat) = Some ctl /\
      fst (wx_position ctl) + fst (wx_size ctl) = 0 + 80.
Proof.
  eexists. split; [vm_compute; reflexivity|].
  epose proof (resize_edges (sample_world 8 drag dragging) _ 0%nat 5 0 0 80 60 13 0) as Hthm.
  destruct Hthm as (ctl & Hctl & Hleft & _); [vm_compute; reflexivity|].
  exists ctl. split; [exact Hctl|]. apply Hleft; discriminate.
Defined.

Lemma resize_unsnapped_witness :
  exists w' ctl,
    resize (sample_world 0 drag dragging) 1%nat 12 100 0 80 60 7 (-3) = Ok w' /\
    control (heap w' 1%nat) = Some ctl /\
    wx_position ctl = (107, -3) /\ wx_size ctl = (80, 60).
Proof.
  apply (resize_unsnapped (sample_world 0 drag dragging) 1%nat 12 100 0 80 60 7 (-3));
    [reflexivity | by eexists].
Defined.

Lemma move_snaps_an_edge_witness :
  exists w', resize (sample_world 8 drag dragging) 0%nat 12 0 0 80 60 47 3 = Ok w' /\
    exists ctl, control (heap w' 0%nat) = Some ctl /\
      Z.abs (fst (wx_position ctl) - (0 + 47)) <= 8.
Proof.
  eexists. split; [vm_compute; reflexivity|].
  epose proof (move_snaps_an_edge (sample_world 8 drag dragging) _ 0%nat 12 0 0 80 60 47 3) as Hthm.
  destruct Hthm as (ctl & Hctl & Hx & _); [vm_compute; reflexivity | simpl; lia |].
  exists ctl. split; [exact Hctl|].
  apply (proj1 (Hx ltac:(discriminate) eq_refl)).
Defined.

Lemma drag_is_path_independent_witness :
  exists w, begin_drag (sample_world 8 drag normal) 0%nat 12 10 5 = Ok w /\
  exists wk, dragging_motions w [(30, 9); (55, 20)] = Ok wk /\
  exists w2, dragging_motion w 41 17 = Ok w2 /\
  exists w2', dragging_motion wk 41 17 = Ok w2' /\ same_world w2 w2'.
Proof.
  eexists. split; [vm_compute; reflexivity|].
  match goal with |- context [dragging_motions ?w _] => pose (w0 := w) end.
  eexists. split; [vm_compute; reflexivity|].
  eexists. split; [vm_compute; reflexivity|].
  eapply (drag_is_path_independent w0 _ _ [(30, 9); (55, 20)] 41 17);
    vm_compute; reflexivity.
Defined.

Lemma drag_guides_stay_current_witness :
  exists w1, begin_drag (sample_world 8 drag normal) 0%nat 12 10 5 = Ok w1 /\
  exists w2, dragging_motions w1 [(30, 9); (55, 20)] = Ok w2 /\
  exists g, _drag_guides (lc w2) = Some g /\ _guide_lines w2 = Ok g.
Proof.
  eexists. split; [vm_compute; reflexivity|].
  eexists. split; [vm_compute; reflexivity|].
  eapply (drag_guides_stay_current (sample_world 8 drag normal) _ _ 0%nat 12 10 5
           [(30, 9); (55, 20)]);
    [vm_compute; reflexivity | simpl; lia | reflexivity | vm_compute; reflexivity].
Defined.

Lemma adjust_size_covers_witness :
  exists w', _adjust_size sample_scrollable_world = Ok w' /\
    wx_virtual_size (canvas (lc w')) = (290, 80) /\
    forall r ctl, r ∈ [0; 1; 2]%nat -> control (sample_heap r) = Some ctl ->
      fst (wx_position ctl) + fst (wx_size ctl) + 10 * 1 <= 290 /\
      snd (wx_position ctl) + snd (wx_size ctl) + 20 * 1 <= 80.
Proof.
  eexists. split; [vm_compute; reflexivity|]. split; [reflexivity|].
  epose proof (adjust_size_covers sample_scrollable_world _) as Hthm.
  destruct Hthm as [_ Hscroll]; [vm_compute; reflexivity|].
  pose proof (Hscroll eq_refl) as Hsize. vm_compute in Hsize.
  destruct Hsize as (_ & _ & _ & Hcover & _). exact Hcover.
Defined.

Lemma set_cursor_shape_witness :
  exists mode cursor,
    _set_cursor sample_adapter (sample_heap 0%nat) 2 58 = Ok (mode, cursor) /\
    cursor = cursor_of_mode mode.
Proof.
  eexists _, _. split; [vm_compute; reflexivity|].
  eapply (set_cursor_shape sample_adapter (sample_heap 0%nat) 2 58).
  vm_compute. reflexivity.
Defined.

Lemma refresh_when_paint_changes_witness :
  _refresh_canvas_drag (sample_canvas 8 drag normal) true = true.
Proof.
  apply refresh_when_paint_changes. right. vm_compute. discriminate.
Defined.

Lemma initialize_position_default_witness :
  exists w', initialize_position (sample_world 8 drag normal) 1%nat = Ok w' /\
    lc w' = sample_canvas 8 drag normal.
Proof.
  eexists. split; [vm_compute; reflexivity|].
  eapply (initialize_position_default (sample_world 8 drag normal) _ 1%nat).
  vm_compute. reflexivity.
Defined.

Lemma sample_editor_wf : editor_wf sample_editor.
Proof.
  intros r Hr. simpl in *.
  repeat (apply elem_of_cons in Hr as [-> | Hr]; [lia|]).
  by apply elem_of_nil in Hr.
Defined.

Lemma update_editor_mirrors_witness :
  exists e', update_editor sample_editor [7; 8]%nat = Ok e' /\
    canvas_objects (list_canvas e') = [7; 8]%nat.
Proof.
  eexists. split; [vm_compute; reflexivity|].
  epose proof (update_editor_mirrors sample_editor _ [7; 8]%nat) as Hthm.
  destruct Hthm as [_ Hlater];
    [vm_compute; reflexivity|].
  apply (Hlater eq_refl sample_editor_wf).
Defined.

Lemma update_editor_item_splices_witness :
  exists e', update_editor_item sample_editor 1 [1%nat] [7; 8]%nat = Ok e' /\
    canvas_objects (list_canvas e') = [0; 7; 8; 2]%nat.
Proof.
  eexists. split; [vm_compute; reflexivity|].
  epose proof (update_editor_item_splices sample_editor _ 1 [1%nat] [7; 8]%nat) as Hthm.
  destruct Hthm as [Hobjects _]; [vm_compute; reflexivity | lia | apply sample_editor_wf |].
  exact Hobjects.
Defined.

Lemma painted_grid_is_snap_grid_witness :
  exists ops, paint_grid (sample_canvas 8 drag normal) 640 480 = Ok ops /\
    DrawLine 100 0 100 480 ∈ ops.
Proof.
  eexists. split; [vm_compute; reflexivity|].
  epose proof (painted_grid_is_snap_grid (sample_canvas 8 drag normal) 640 480 _) as Hthm.
  destruct Hthm as [Hvertical _]; [vm_compute; reflexivity | reflexivity | simpl; lia |].
  apply Hvertical. split; [lia|]. exists 2. reflexivity.
Defined.

Lemma sample_active_coherent : active_coherent (sample_world 8 drag normal).
Proof. intros r _. split; intros Heq; discriminate Heq. Defined.

Lemma mouse_events_keep_one_active_witness :
  exists w1, inactive_motion (sample_world 8 drag normal) 0%nat 10 30 = Ok w1 /\
  exists w2, hover_left_down w1 0%nat 10 30 = Ok w2 /\
    at_most_one_active w2.
Proof.
  eexists. split; [vm_compute; reflexivity|].
  eexists. split; [vm_compute; reflexivity|].
  apply (mouse_events_keep_one_active (sample_world 8 drag normal) _);
    [|apply sample_active_coherent].
  eapply rtc_l.
  { eapply (step_inactive_motion _ 0%nat 10 30); [reflexivity | vm_compute; reflexivity]. }
  eapply rtc_l; [|apply rtc_refl].
  eapply (step_hover_left_down _ 0%nat 10 30); vm_compute; reflexivity.
Defined.

Lemma click_activates_witness :
  exists w', hover_left_down (sample_world 8 drag normal) 1%nat 10 30 = Ok w' /\
    active_item (lc w') = Some 1%nat.
Proof.
  eexists. split; [vm_compute; reflexivity|].
  apply (click_activates (sample_world 8 drag normal) _ 1%nat 10 30);
    [vm_compute; reflexivity | repeat constructor | apply sample_active_coherent].
Defined.

Lemma no_cursors_wf : cursors_wf no_cursors.
Proof. intros a c Hc. discriminate Hc. Defined.

Lemma get_cursor_memoised_witness :
  exists c1 st1 c2 st2,
    get_cursor no_cursors CURSOR_ARROW = (c1, st1) /\
    get_cursor st1 CURSOR_ARROW = (c2, st2) /\
    c1 = c2 /\ st2 = st1.
Proof.
  eexists _, _, _, _. split; [reflexivity|]. split; [reflexivity|].
  destruct (get_cursor_memoised no_cursors _ _ CURSOR_ARROW CURSOR_ARROW _ _
              eq_refl eq_refl no_cursors_wf) as (Hiff & Hsame & _).
  split; [by apply Hiff | by apply Hsame].
Defined.

Lemma layout_fills_title_bar_witness :
  exists layout, _layout sample_title_bar (sample_heap 0%nat) = Ok layout /\
    is_Some (layout !! "minimize"%string) /\ ~ is_Some (layout !! "drag"%string).
Proof.
  destruct (layout_returns sample_title_bar (sample_heap 0%nat)) as [layout Hlayout];
    [by eexists|].
  exists layout. split; [exact Hlayout|].
  destruct (layout_fills_title_bar sample_title_bar (sample_heap 0%nat)
              (sample_window 0 0 80 60) layout Hlayout eq_refl) as [_ Hfits].
  destruct (Hfits ltac:(left; simpl; lia)) as [Hdom _]. split.
  - apply Hdom. right. repeat constructor.
  - intros Hdrag. apply Hdom in Hdrag as [Hdrag | Hdrag]; [discriminate Hdrag|].
    simpl in Hdrag.
    repeat (apply elem_of_cons in Hdrag as [Hdrag | Hdrag]; [discriminate Hdrag|]).
    by apply elem_of_nil in Hdrag.
Defined.

End CanvasMore.

(** ** Further properties of the adapter *)

Module AdapterMore.

Import Adapter.
Import AdapterProofs.

Local Open Scope string_scope.

(** *** Who answers a request *)

Lemma substring_prefix (p t : string) :
  String.substring 0 (String.length p) (p +:+ t) = p.
Proof.
  induction p as [|c p IH]; simpl; [by destruct t|]. by rewrite IH.
Qed.

Lemma substring_all (t : string) : String.substring 0 (String.length t) t = t.
Proof. induction t as [|c t IH]; simpl; [done|]. by rewrite IH. Qed.

Lemma substring_suffix (p t : string) :
  String.substring (String.length p) (String.length t) (p +:+ t) = t.
Proof. induction p as [|c p IH]; simpl; [apply substring_all | done]. Qed.

Lemma length_app (p t : string) :
  String.length (p +:+ t) = (String.length p + String.length t)%nat.
Proof. induction p as [|c p IH]; simpl; [done|]. by rewrite IH. Qed.

(** The split of a name into its prefix and its trait name. *)
Lemma name_split (p t : string) :
  String.length p = 4%nat ->
  String.substring 0 4 (p +:+ t) = p /\
  String.substring 4 (String.length (p +:+ t) - 4) (p +:+ t) = t.
Proof.
  intros Hp. split.
  - rewrite <- Hp. apply substring_prefix.
  - rewrite length_app, Hp.
    replace (4 + String.length t - 4)%nat with (String.length t) by lia.
    rewrite <- Hp at 1. apply substring_suffix.
Qed.

(** The scan passes over the sub-adapters that do not handle the request
    and stops at the first one that does. *)
Lemma scan_first (prefix trait_name : string) (it : HasTraits)
    (dr : option HasTraits) (i : nat) (pre suf : list SubAdapter) (s : SubAdapter) :
  none_handles pre trait_name it dr ->
  accepts s (Some it) dr = true -> is_Some (sa_traits s !! trait_name) ->
  scan prefix trait_name it dr i (pre ++ s :: suf)%list =
    ((((fun s' => sub_set_item_drop s' (Some it) dr) <$> pre ++ [s]) ++ suf)%list,
     let h := if bool_decide (prefix = "get_")
              then sub_get (i + length pre) trait_name
              else sub_set (i + length pre) trait_name in
     if is_cacheable s then scan_break h else scan_return h).
Proof.
  intros Hpre Hacc Htrait. revert i.
  induction pre as [|s0 pre IH]; intros i; simpl.
  - rewrite Hacc, bool_decide_eq_true_2 by done. simpl. rewrite Nat.add_0_r.
    by destruct (is_cacheable s).
  - rewrite (Hpre s0) by (by left).
    rewrite IH by (intros s' Hs'; apply Hpre; by right).
    by replace (S i + length pre)%nat with (i + S (length pre))%nat by lia.
Qed.

Lemma scan_none (prefix trait_name : string) (it : HasTraits)
    (dr : option HasTraits) (i : nat) (l : list SubAdapter) :
  none_handles l trait_name it dr ->
  scan prefix trait_name it dr i l =
    ((fun s' => sub_set_item_drop s' (Some it) dr) <$> l, scan_else).
Proof.
  intros Hl. revert i. induction l as [|s l IH]; intros i; simpl; [done|].
  rewrite (Hl s) by (by left). by rewrite IH by (intros s' Hs'; apply Hl; by right).
Qed.

(** The search along the mro stops at the first class with a trait of its
    own name. *)
Lemma mro_handler_first (a : ListCanvasAdapter) (trait_name prefix : string)
    (pre suf : list string) (klass : string) :
  (forall k, k ∈ pre -> own_traits a !! (k +:+ "_" +:+ trait_name) = None) ->
  is_Some (own_traits a !! (klass +:+ "_" +:+ trait_name)) ->
  mro_handler a trait_name prefix (pre ++ klass :: suf)%list =
    Some (if bool_decide (prefix = "get_")
          then self_get (klass +:+ "_" +:+ trait_name)
          else self_set (klass +:+ "_" +:+ trait_name)).
Proof.
  intros Hpre Hk. induction pre as [|k pre IH]; simpl; unfold _get_handler_for.
  - rewrite bool_decide_eq_true_2 by done. by destruct (bool_decide (prefix = "get_")).
  - rewrite bool_decide_eq_false_2
      by (rewrite (Hpre k) by (by left); by intros [? ?]).
    apply IH. intros k' Hk'. apply Hpre. by right.
Qed.

Lemma mro_handler_none (a : ListCanvasAdapter) (trait_name prefix : string)
    (mro : list string) :
  (forall k, k ∈ mro -> own_traits a !! (k +:+ "_" +:+ trait_name) = None) ->
  mro_handler a trait_name prefix mro = _get_handler_for a trait_name prefix.
Proof.
  intros Hmro. induction mro as [|k mro IH]; simpl; [done|].
  unfold _get_handler_for at 1.
  rewrite bool_decide_eq_false_2
    by (rewrite (Hmro k) by (by left); by intros [? ?]).
  apply IH. intros k' Hk'. apply Hmro. by right.
Qed.

(** X19.  An item that implements IListCanvasItem and has the trait
    [list_canvas_item_<t>] answers [get_<t>] itself: whatever the
    sub-adapters and the cache hold, the value is the item's, and the
    adapter's item, sub-adapters and cache are left as they were. *)
Theorem item_answers_first (a : ListCanvasAdapter) (t : string) (it : HasTraits)
    (dr : option HasTraits) (v : Value) :
  implements_IListCanvasItem it = true ->
  traits it !! ("list_canvas_item_" +:+ t) = Some v ->
  exists a',
    _result_for a ("get_" +:+ t) it dr = Ok (v, a') /\
    item a' = item a /\ drop a' = drop a /\
    adapters a' = adapters a /\ cache a' = cache a.
Proof.
  intros Himpl Htrait. unfold _result_for.
  destruct (name_split "get_" t eq_refl) as [-> ->].
  rewrite Himpl, Htrait. rewrite bool_decide_eq_true_2 by done.
  destruct (_ && _); eexists; (split; [reflexivity | done]).
Qed.

(** X20.  On a miss in the cache, for an item that does not answer itself,
    the first sub-adapter that accepts the item and has the trait answers
    [get_<t>], before the adapter's own traits; its handler is stored in
    the cache when the sub-adapter is cacheable, and the cache is left as
    it was when it is not. *)
Theorem first_accepting_adapter_answers (a : ListCanvasAdapter) (t : string)
    (it : HasTraits) (dr : option HasTraits) (pre suf : list SubAdapter)
    (s : SubAdapter) (f : trait_impl Value) :
  implements_IListCanvasItem it = false ->
  cache a !! (cls_name (cls it) +:+ ":" +:+ "get_" +:+ t) = None ->
  adapters a = (pre ++ s :: suf)%list ->
  none_handles pre t it dr ->
  accepts s (Some it) dr = true -> sa_traits s !! t = Some (Readable f) ->
  exists a',
    _result_for a ("get_" +:+ t) it dr = Ok (f (Some it) dr, a') /\
    cache a' =
      if is_cacheable s
      then <[ cls_name (cls it) +:+ ":" +:+ "get_" +:+ t :=
                Some (sub_get (length pre) t) ]> (cache a)
      else cache a.
Proof.
  intros Himpl Hmiss Hl Hpre Hacc Htrait. unfold _result_for.
  destruct (name_split "get_" t eq_refl) as [-> ->].
  rewrite Himpl. simpl. rewrite Hmiss. unfold resolve. simpl. rewrite Hl.
  rewrite (scan_first "get_" t it dr 0 pre suf s) by (by rewrite ?Htrait).
  rewrite bool_decide_eq_true_2 by done. simpl.
  assert ((((fun s' => sub_set_item_drop s' (Some it) dr) <$> pre ++ [s]) ++ suf)%list
            !! length pre = Some (sub_set_item_drop s (Some it) dr)) as Hlook.
  { rewrite fmap_app, <- app_assoc. simpl.
    rewrite lookup_app_r by (by rewrite length_fmap).
    by rewrite length_fmap, Nat.sub_diag. }
  destruct (is_cacheable s); simpl; rewrite Hlook;
    cbn [sa_traits sub_set_item_drop sa_item sa_drop]; unfold trait_impl in *;
    rewrite Htrait; eexists; (split; [reflexivity | done]).
Qed.

(** X21.  When no sub-adapter handles the request, the adapter's own
    traits answer [get_<t>]: the trait [<Class>_<t>] of the first class of
    the item's mro that has one, before the generic trait [<t>]. *)
Theorem class_trait_before_generic (a : ListCanvasAdapter) (t : string)
    (it : HasTraits) (dr : option HasTraits) (pre suf : list string)
    (klass : string) (f : trait_impl Value) :
  implements_IListCanvasItem it = false ->
  cache a !! (cls_name (cls it) +:+ ":" +:+ "get_" +:+ t) = None ->
  none_handles (adapters a) t it dr ->
  cls_mro (cls it) = (pre ++ klass :: suf)%list ->
  (forall k, k ∈ pre -> own_traits a !! (k +:+ "_" +:+ t) = None) ->
  own_traits a !! (klass +:+ "_" +:+ t) = Some (Readable f) ->
  exists a',
    _result_for a ("get_" +:+ t) it dr = Ok (f (Some it) dr, a') /\
    cache a' !! (cls_name (cls it) +:+ ":" +:+ "get_" +:+ t) =
      Some (Some (self_get (klass +:+ "_" +:+ t))).
Proof.
  intros Himpl Hmiss Hnone Hmro Hpre Hown. unfold _result_for.
  destruct (name_split "get_" t eq_refl) as [-> ->].
  rewrite Himpl. simpl. rewrite Hmiss. unfold resolve. simpl.
  rewrite scan_none by done. rewrite Hmro.
  rewrite (mro_handler_first _ t "get_" pre suf klass) by (by rewrite ?Hown).
  rewrite bool_decide_eq_true_2 by done. simpl. unfold trait_impl in *.
  rewrite Hown. eexists. split; [reflexivity|]. simpl. apply lookup_insert_eq.
Qed.

(** X22.  A request nothing provides raises TypeError: when the item does
    not answer itself, no sub-adapter handles the request, and the adapter
    has neither a trait [<Class>_<t>] for a class of the item's mro nor the
    trait [<t>], the handler found is [None] and calling it fails, on a
    miss in the cache as on a cached [None]. *)
Theorem unprovided_trait_raises (a : ListCanvasAdapter) (p t : string)
    (it : HasTraits) (dr : option HasTraits) :
  String.length p = 4%nat ->
  implements_IListCanvasItem it = false ->
  cache a !! (cls_name (cls it) +:+ ":" +:+ p +:+ t) = None \/
  cache a !! (cls_name (cls it) +:+ ":" +:+ p +:+ t) = Some None ->
  none_handles (adapters a) t it dr ->
  (forall k, k ∈ cls_mro (cls it) -> own_traits a !! (k +:+ "_" +:+ t) = None) ->
  own_traits a !! t = None ->
  _result_for a (p +:+ t) it dr = Raise TypeError.
Proof.
  intros Hp Himpl Hmiss Hnone Hmro Hown. unfold _result_for.
  destruct (name_split p t Hp) as [-> ->].
  rewrite Himpl. simpl.
  assert (resolve (with_item_drop a (Some it) dr)
            (cls_name (cls it) +:+ ":" +:+ p +:+ t) p t it dr = Raise TypeError)
    as Hres.
  { unfold resolve. simpl. rewrite scan_none by done.
    rewrite mro_handler_none by done. unfold _get_handler_for. simpl.
    unfold trait_impl in *. rewrite Hown. by rewrite bool_decide_eq_false_2 by (by intros [? ?]). }
  by destruct Hmiss as [-> | ->].
Qed.

(** *** The properties at the sample data *)

Lemma item_answers_first_witness :
  exists a', _result_for (sample_adapter [general]) "get_title" (titled 1) None
    = Ok (VStr "T", a').
Proof.
  destruct (item_answers_first (sample_adapter [general]) "title" (titled 1) None
              (VStr "T") eq_refl ltac:(vm_compute; reflexivity)) as (a' & Hres & _).
  exists a'. exact Hres.
Defined.

Lemma first_accepting_adapter_answers_witness :
  exists a', _result_for (sample_adapter [picky; general]) "get_title" (person 1) None
    = Ok (VStr "B", a').
Proof.
  destruct (first_accepting_adapter_answers (sample_adapter [picky; general]) "title"
              (person 1) None [picky] [] general (fun _ _ => VStr "B"))
    as (a' & Hres & _);
    [ reflexivity | vm_compute; reflexivity | reflexivity
    | intros s Hs; apply list_elem_of_singleton in Hs as ->; vm_compute; reflexivity
    | reflexivity | vm_compute; reflexivity | ].
  exists a'. exact Hres.
Defined.

Lemma class_trait_before_generic_witness :
  exists a', _result_for person_adapter "get_title" (person 1) None
    = Ok (VStr "P", a').
Proof.
  destruct (class_trait_before_generic person_adapter "title" (person 1) None
              [] ["HasTraits"; "CHasTraits"; "object"] "Person" (fun _ _ => VStr "P"))
    as (a' & Hres & _);
    [ reflexivity | vm_compute; reflexivity
    | intros s Hs; by apply elem_of_nil in Hs
    | reflexivity
    | intros k Hk; by apply elem_of_nil in Hk
    | vm_compute; reflexivity | ].
  exists a'. exact Hres.
Defined.

Lemma unprovided_trait_raises_witness :
  _result_for (sample_adapter []) "get_bogus" (person 1) None = Raise TypeError.
Proof.
  apply (unprovided_trait_raises (sample_adapter []) "get_" "bogus" (person 1) None);
    [ reflexivity | reflexivity | left; vm_compute; reflexivity
    | intros s Hs; by apply elem_of_nil in Hs
    | intros k Hk; simpl in Hk;
      repeat (apply elem_of_cons in Hk as [-> | Hk]; [vm_compute; reflexivity|]);
      by apply elem_of_nil in Hk
    | vm_compute; reflexivity ].
Defined.

Lemma cache_transparent_witness :
  exists v1 a1,
    _result_for (sample_adapter [general]) "get_title" (person 1) None = Ok (v1, a1) /\
    value_of (_result_for a1 "get_title" (person 2) None)
      = value_of (fresh_result_for a1 "get_title" (person 2) None).
Proof.
  eexists _, _. split; [vm_compute; reflexivity|].
  apply (cache_transparent (sample_adapter [general]) _ "get_title"
           (person 1) (person 2) None None (VStr "B")
           general_accepts_by_type);
    [vm_compute; reflexivity | reflexivity | reflexivity | reflexivity
    | vm_compute; reflexivity].
Defined.

End AdapterMore.
